(** * vue-type-check: the orchestration layer of [src/index.ts]

    A shallow embedding of [check], [traverse], [getDiagnostics] and the
    three tag heuristics [hasScriptTag], [isTs], [isImportOtherTs], together
    with the properties the specification states about them, and of the
    script that prints [--excludeDir] options, with further properties of
    both.

    A string is the sequence of its UTF-16 code units, as the language has
    it.  Effects (console output, file reads, calls into the two diagnostic
    producers, cache lifetime, [process.exit]) are recorded as a trace of
    events; exceptions are a result value. *)

From Stdlib Require Import List String Ascii NArith Bool Arith Lia.
From Stdlib Require Import DecimalString.
Import ListNotations.
Local Open Scope list_scope.

Set Implicit Arguments.

(* ================================================================== *)
(** * Strings *)

(** A string: its UTF-16 code units, each one a number below 65536.  The
    functions below do not look at the bound. *)
Definition string : Type := list N.

(** The code unit of an ASCII character, and the string of an ASCII text,
    for the characters and the texts that the program spells out. *)
Definition ch (c : ascii) : N := N_of_ascii c.

Definition js (s : String.string) : string := map ch (list_ascii_of_string s).

Module Str.

Definition dquote : N := 34.
Definition newline : N := 10.
Definition carriage_return : N := 13.
Definition line_separator : N := 8232.
Definition paragraph_separator : N := 8233.

(** [a === b]. *)
Fixpoint eqb (a b : string) : bool :=
  match a, b with
  | [], [] => true
  | x :: a', y :: b' => N.eqb x y && eqb a' b'
  | _, _ => false
  end.

(** [Array.prototype.join]. *)
Fixpoint join (sep : string) (l : list string) : string :=
  match l with
  | [] => []
  | [x] => x
  | x :: rest => x ++ sep ++ join sep rest
  end.

(** The decimal numeral a template literal prints for a non-negative
    integer. *)
Definition of_nat (n : nat) : string :=
  js (NilZero.string_of_uint (Nat.to_uint n)).

(** [a.startsWith(p)]: the rest of [a] after [p]. *)
Fixpoint strip_prefix (p a : string) : option string :=
  match p, a with
  | [], _ => Some a
  | c :: p', x :: a' => if N.eqb c x then strip_prefix p' a' else None
  | _ :: _, [] => None
  end.

Definition starts_with (p a : string) : bool :=
  match strip_prefix p a with Some _ => true | None => false end.

(** [s.replace(/\n$/, empty)]: one trailing line feed is removed. *)
Fixpoint strip_trailing_newline (s : string) : string :=
  match s with
  | [] => []
  | [c] => if N.eqb c newline then [] else s
  | c :: rest => c :: strip_trailing_newline rest
  end.

End Str.

(* ================================================================== *)
(** * Regular expressions

    The fragment of ECMAScript patterns (no flags) that the program's
    three literals and its exclusion pattern are written in: literal
    characters, [.], [^], [$], [|], groups, the greedy quantifiers
    [*] [+] [?], and identity escapes.  Character classes, braces,
    look-around, lazy quantifiers and alphanumeric escapes are outside the
    fragment; the parser reports them as [Unsupported] rather than
    guessing.  Without the [u] flag a pattern and its input are read code
    unit by code unit. *)

Module RegExp.

Inductive regex : Type :=
| Empty
| Chr (c : N)
| Dot
| Bol
| Eol
| Seq (r1 r2 : regex)
| Alt (r1 r2 : regex)
| Star (r : regex).

(** [r+] and [r?] as the engine runs them: one or more, zero or one. *)
Definition Plus (r : regex) : regex := Seq r (Star r).
Definition Opt (r : regex) : regex := Alt r Empty.

(** The four line terminators of the language: U+000A, U+000D, U+2028 and
    U+2029.  The dot matches any code unit but these. *)
Definition is_line_terminator (c : N) : bool :=
  N.eqb c Str.newline || N.eqb c Str.carriage_return
  || N.eqb c Str.line_separator || N.eqb c Str.paragraph_separator.

(** ** Matching

    A backtracking matcher in continuation-passing style, as in the
    language definition: [m r k bos s] runs [r] at the current position,
    where [s] is the input that is left and [bos] tells whether the
    position is the beginning of the input, and hands every end position
    to the continuation [k].  An iteration of [*] that consumes nothing
    is rejected. *)

Definition cont := bool -> list N -> bool.

(** The greedy loop of [r*], given the matcher [mr] of [r]: one more
    iteration first, then the continuation.  [fuel] bounds the number of
    iterations by the length of the input left, which is enough because an
    iteration has to consume something. *)
Fixpoint star_loop (mr : cont -> cont) (k : cont) (fuel : nat) : cont :=
  fun b t =>
    match fuel with
    | O => k b t
    | S fuel' =>
        mr (fun b' t' =>
              if Nat.ltb (List.length t') (List.length t)
              then star_loop mr k fuel' b' t'
              else false)
          b t
        || k b t
    end.

Fixpoint m (r : regex) (k : cont) (bos : bool) (s : list N) {struct r} : bool :=
  match r with
  | Empty => k bos s
  | Chr c =>
      match s with
      | x :: s' => if N.eqb c x then k false s' else false
      | [] => false
      end
  | Dot =>
      match s with
      | x :: s' => if is_line_terminator x then false else k false s'
      | [] => false
      end
  | Bol => if bos then k bos s else false
  | Eol => match s with [] => k bos s | _ :: _ => false end
  | Seq r1 r2 => m r1 (fun b s' => m r2 k b s') bos s
  | Alt r1 r2 => m r1 k bos s || m r2 k bos s
  | Star r' => star_loop (m r') k (List.length s) bos s
  end.

Definition accept : cont := fun _ _ => true.

(** [search r bos s]: a match of [r] starts at the current position or at a
    later one. *)
Fixpoint search (r : regex) (bos : bool) (s : list N) : bool :=
  m r accept bos s
  || match s with
     | [] => false
     | _ :: s' => search r false s'
     end.

(** [RegExp.prototype.test]. *)
Definition test (r : regex) (s : string) : bool := search r true s.

(** ** What an expression matches

    [denote r bos w rest]: at a position followed by [w ++ rest], which is
    the beginning of the input when [bos], the expression [r] matches [w].
    The iterations of [r*] are not empty. *)

Definition at_start (bos : bool) (w : list N) : bool :=
  bos && match w with [] => true | _ :: _ => false end.

Inductive iter (P : bool -> list N -> list N -> Prop)
  : bool -> list N -> list N -> Prop :=
| iter_stop : forall bos rest, iter P bos [] rest
| iter_more : forall bos w1 w2 rest,
    w1 <> [] ->
    P bos w1 (w2 ++ rest) ->
    iter P false w2 rest ->
    iter P bos (w1 ++ w2) rest.

Fixpoint denote (r : regex) (bos : bool) (w rest : list N) {struct r} : Prop :=
  match r with
  | Empty => w = []
  | Chr c => w = [c]
  | Dot => exists x, w = [x] /\ is_line_terminator x = false
  | Bol => w = [] /\ bos = true
  | Eol => w = [] /\ rest = []
  | Seq r1 r2 =>
      exists w1 w2,
        w = w1 ++ w2 /\ denote r1 bos w1 (w2 ++ rest)
        /\ denote r2 (at_start bos w1) w2 rest
  | Alt r1 r2 => denote r1 bos w rest \/ denote r2 bos w rest
  | Star r' => iter (denote r') bos w rest
  end.

(** ** Parsing a pattern *)

Inductive parsed : Type :=
| Parsed (r : regex)
| SyntaxError (msg : string)
| Unsupported.

(** [c] is the ASCII character [a]. *)
Definition is_char (a : ascii) (c : N) : bool := N.eqb c (ch a).

Definition is_syntax_char (c : N) : bool :=
  existsb (N.eqb c)
    (map ch ["^"; "$"; "\"; "."; "*"; "+"; "?"; "("; ")"; "["; "]"; "{"; "}"; "|"]%char).

Definition is_alphanumeric (c : N) : bool :=
  (N.leb 48 c && N.leb c 57) || (N.leb 65 c && N.leb c 90)
  || (N.leb 97 c && N.leb c 122).

(** One open group: the alternatives already closed by [|] and the terms of
    the alternative being read, both latest first. *)
Record frame : Type := Frame { alts : list regex; cur : list regex }.

Definition empty_frame : frame := Frame [] [].

Definition seq_of (terms : list regex) : regex := fold_right Seq Empty terms.

Definition close_frame (f : frame) : regex :=
  fold_left (fun acc a => Alt a acc) (alts f) (seq_of (rev (cur f))).

Definition push_term (r : regex) (f : frame) : frame :=
  Frame (alts f) (r :: cur f).

(** What the last term was, for the quantifier that may follow it. *)
Inductive last_term : Type := NoTerm | Atom | Quantified.

Definition quantify (q : regex -> regex) (f : frame) : frame :=
  match cur f with
  | r :: terms => Frame (alts f) (q r :: terms)
  | [] => f
  end.

Fixpoint parse_go (p : list N) (stack : list frame) (top : frame)
    (last : last_term) {struct p} : parsed :=
  match p with
  | [] =>
      match stack with
      | [] => Parsed (close_frame top)
      | _ :: _ => SyntaxError (js "Unterminated group")
      end
  | c :: p' =>
      let quantifier q :=
        match last with
        | Atom => parse_go p' stack (quantify q top) Quantified
        | NoTerm => SyntaxError (js "Nothing to repeat")
        | Quantified => SyntaxError (js "Nothing to repeat")
        end in
      if is_char "(" c then
        match p' with
        | q :: p1 =>
            if is_char "?" q then
              match p1 with
              | d :: p'' =>
                  if is_char ":" d then parse_go p'' (top :: stack) empty_frame NoTerm
                  else Unsupported
              | [] => Unsupported
              end
            else parse_go p' (top :: stack) empty_frame NoTerm
        | [] => parse_go p' (top :: stack) empty_frame NoTerm
        end
      else if is_char ")" c then
        match stack with
        | parent :: stack' =>
            parse_go p' stack' (push_term (close_frame top) parent) Atom
        | [] => SyntaxError (js "Unmatched ')'")
        end
      else if is_char "|" c then
        parse_go p' stack (Frame (seq_of (rev (cur top)) :: alts top) []) NoTerm
      else if is_char "*" c then quantifier Star
      else if is_char "+" c then quantifier Plus
      else if is_char "?" c then
        match last with
        | Quantified => Unsupported
        | _ => quantifier Opt
        end
      else if is_char "." c then parse_go p' stack (push_term Dot top) Atom
      else if is_char "^" c then parse_go p' stack (push_term Bol top) NoTerm
      else if is_char "$" c then parse_go p' stack (push_term Eol top) NoTerm
      else if is_char "\" c then
        match p' with
        | [] => SyntaxError (js "\ at end of pattern")
        | e :: p'' =>
            if is_alphanumeric e then Unsupported
            else parse_go p'' stack (push_term (Chr e) top) Atom
        end
      else if is_syntax_char c then Unsupported
      else parse_go p' stack (push_term (Chr c) top) Atom
  end.

(** [new RegExp(pattern)]. *)
Definition parse (pattern : string) : parsed :=
  parse_go pattern [] empty_frame NoTerm.

End RegExp.

(* ================================================================== *)
(** * Node's [path] module (POSIX)

    [path.resolve] with one argument and [path.join] with two, after
    Node's [lib/path.js]; [cwd] is [process.cwd()], an absolute path. *)

Module Path.

Definition slash : N := ch "/".

(** The pieces of a path between its slashes. *)
Fixpoint segments (s : string) : list string :=
  match s with
  | [] => [[]]
  | c :: rest =>
      if N.eqb c slash then [] :: segments rest
      else match segments rest with
           | seg :: segs => (c :: seg) :: segs
           | [] => [[c]]
           end
  end.

(** One segment of [normalizeString]; [stack] holds the segments kept so
    far, innermost first. *)
Definition normalize_step (allowAboveRoot : bool) (stack : list string)
    (seg : string) : list string :=
  if Str.eqb seg [] || Str.eqb seg (js ".") then stack
  else if Str.eqb seg (js "..") then
    match stack with
    | top :: below =>
        if Str.eqb top (js "..") then js ".." :: stack else below
    | [] => if allowAboveRoot then [js ".."] else []
    end
  else seg :: stack.

Definition normalizeString (path : string) (allowAboveRoot : bool) : string :=
  Str.join (js "/") (rev (fold_left (normalize_step allowAboveRoot) (segments path) [])).

Definition isAbsolute (path : string) : bool :=
  match path with
  | c :: _ => N.eqb c slash
  | [] => false
  end.

Fixpoint ends_with_slash (path : string) : bool :=
  match path with
  | [] => false
  | [c] => N.eqb c slash
  | _ :: rest => ends_with_slash rest
  end.

Definition resolve (cwd dir : string) : string :=
  let resolvedPath :=
    if isAbsolute dir then dir ++ js "/" else cwd ++ js "/" ++ dir ++ js "/" in
  js "/" ++ normalizeString resolvedPath false.

Definition normalize (path : string) : string :=
  if Str.eqb path [] then js "."
  else
    let absolute := isAbsolute path in
    let trailingSeparator := ends_with_slash path in
    let body := normalizeString path (negb absolute) in
    if Str.eqb body [] then
      if absolute then js "/" else if trailingSeparator then js "./" else js "."
    else
      let body := if trailingSeparator then body ++ js "/" else body in
      if absolute then js "/" ++ body else body.

Definition join (a b : string) : string :=
  if Str.eqb a [] then normalize b
  else if Str.eqb b [] then normalize a
  else normalize (a ++ js "/" ++ b).

End Path.

(* ================================================================== *)
(** * Data model *)

Record Position : Type := { line : nat; character : nat }.
Record Range : Type := { start : Position; end_ : Position }.
Record Diagnostic : Type := { range : Range; message : string }.

(** [TextDocument.create(uri, languageId, version, content)]. *)
Record TextDocument : Type := {
  uri : string;
  languageId : string;
  version : nat;
  text : string
}.

(** A thrown value. *)
Inductive Error : Type :=
| RegExpSyntaxError (msg : string)
| ExternalError (msg : string).

(** How a call completes: with a value, or by throwing (for an async
    function: a promise that resolves, or one that rejects). *)
Inductive Result (A : Type) : Type :=
| Ok (a : A)
| Throw (e : Error).
Arguments Ok {A} a.
Arguments Throw {A} e.

(** [interface Options]; an absent field is [None]. *)
Record Options : Type := {
  workspace : string;
  srcDir : option string;
  onlyTemplate : option bool;
  onlyTypeScript : option bool;
  excludeDir : option (string + list string);
  failExit : option bool;
  files : option (list string)
}.

(** The two diagnostic producers once constructed: [vueMode.doValidation],
    and [scriptMode.doValidation], an optional member of the language-mode
    interface. *)
Record Modes : Type := {
  vueMode_doValidation : TextDocument -> Result (list Diagnostic);
  scriptMode_doValidation : option (TextDocument -> Result (list Diagnostic))
}.

(** Everything outside [src/index.ts] that the program calls. *)
Record Env : Type := {
  (* [process.cwd()] *)
  cwd : string;
  (* [./file-util] *)
  globSync : string -> list string;
  readFile : string -> Result string;
  extractTargetFileExtension : string -> string;
  (* the order in which rejections reach [Promise.all]: whether, of two
     reads that fail, the failure of the earlier one in the list comes
     first *)
  rejectsFirst : Error -> Error -> bool;
  (* [./print] *)
  getLines : nat -> nat -> nat -> list nat;
  formatLine : nat -> string -> bool -> string;
  formatCursor : Range -> string;
  (* [doc.lineCount], and [doc.getText] of one whole line *)
  lineCount : TextDocument -> nat;
  getText : TextDocument -> nat -> string;
  (* [getServiceHost], [new VueInterpolationMode], [getJavascriptMode] *)
  setupModes : string -> Result Modes;
  (* [new RegExp] on a pattern outside the fragment of [RegExp.parse]:
      the test function of the compiled pattern, or [None] when the
      pattern is rejected *)
  regexp_rest : string -> option (string -> bool)
}.

Inductive Cache : Type := documentRegions | scriptRegionDocuments.
Inductive Producer : Type := vueMode | scriptMode.

(** What a run does to the world, in order. *)
Inductive Event : Type :=
| GlobSync (pattern : string)
| ReadFile (path : string)
| GetLanguageModelCache (c : Cache)
| Dispose (c : Cache)
| SetupModes (workspace : string)
| NewProgressBar (total : nat)
| DoValidation (p : Producer) (doc : TextDocument)
| PrintError (s : string)
| PrintMessage (s : string)
| PrintLog (s : string)
| Tick
| ConsoleError (e : Error).

Definition Trace : Type := list Event.

(* ================================================================== *)
(** * Effects

    A computation reads and writes a state of type [S] (the module
    variable of [index.ts], or the locals of [getDiagnostics] that outlive
    its [try] block), appends to the trace, and completes with a value or
    by throwing.  A throw keeps the state it happened in. *)

Module Eff.

Definition M (S A : Type) : Type := S -> Trace * S * Result A.

Definition ret {S A} (a : A) : M S A := fun s => ([], s, Ok a).

Definition bind {S A B} (c : M S A) (f : A -> M S B) : M S B :=
  fun s =>
    match c s with
    | (t, s', Ok a) => let '(t', s'', r) := f a s' in ((t ++ t')%list, s'', r)
    | (t, s', Throw e) => (t, s', Throw e)
    end.

Definition emit {S} (e : Event) : M S unit := fun s => ([e], s, Ok tt).
Definition call {S A} (r : Result A) : M S A := fun s => ([], s, r).
Definition get {S} : M S S := fun s => ([], s, Ok s).
Definition put {S} (s : S) : M S unit := fun _ => ([], s, Ok tt).

End Eff.

Notation "x <- c ;; k" := (Eff.bind c (fun x => k))
  (at level 61, c at next level, right associativity).
Notation "c ;; k" := (Eff.bind c (fun _ => k))
  (at level 61, right associativity).

Import Eff.

(** More of the effect vocabulary: a block of output, [try]/[catch], a
    callee with locals of its own, [Promise.all], [Array.prototype.filter]
    with a callback that may throw, and [for ... of] with [break]. *)

Definition emits {S} (t : Trace) : M S unit := fun s => (t, s, Ok tt).

Definition try_catch {S A} (body : M S A) (handler : Error -> M S A) : M S A :=
  fun s =>
    match body s with
    | (t, s', Ok a) => (t, s', Ok a)
    | (t, s', Throw e) => let '(t', s'', r) := handler e s' in ((t ++ t')%list, s'', r)
    end.

Definition scoped {S L A} (init : L) (c : M L A) : M S A :=
  fun s => let '(t, _, r) := c init in (t, s, r).

(** [Promise.all]: every promise of the list is started, in order.  When
    all of them resolve, the result holds their values in the order of the
    list.  When some of them reject, the result rejects with the reason of
    the one whose rejection comes first; which one that is, is not the
    program's to say: [first e e'] tells whether a rejection with reason
    [e] comes before a later promise's rejection with reason [e']. *)
Fixpoint Promise_all {S A} (first : Error -> Error -> bool) (ps : list (M S A))
  : M S (list A) :=
  fun s =>
    match ps with
    | [] => ([], s, Ok [])
    | p :: rest =>
        let '(t, s', r) := p s in
        let '(t', s'', rs) := Promise_all first rest s' in
        ((t ++ t')%list, s'',
         match r with
         | Ok a =>
             match rs with
             | Ok l => Ok (a :: l)
             | Throw e => Throw e
             end
         | Throw e =>
             Throw (match rs with
                    | Ok _ => e
                    | Throw e' => if first e e' then e else e'
                    end)
         end)
    end.

Fixpoint filterM {S A} (keep : A -> M S bool) (l : list A) : M S (list A) :=
  match l with
  | [] => ret []
  | x :: rest =>
      b <- keep x;;
      rest' <- filterM keep rest;;
      ret (if b then x :: rest' else rest')
  end.

(** The body answers [true] to [break]. *)
Fixpoint for_of {S A} (l : list A) (body : A -> M S bool) : M S unit :=
  match l with
  | [] => ret tt
  | x :: rest => stop <- body x;; if stop then ret tt else for_of rest body
  end.

(* ================================================================== *)
(** * The program: [src/index.ts] *)

(** [new RegExp(pattern)], then [.test]. *)
Definition RegExp_new (env : Env) (pattern : string) : Result (string -> bool) :=
  match RegExp.parse pattern with
  | RegExp.Parsed r => Ok (RegExp.test r)
  | RegExp.SyntaxError msg => Throw (RegExpSyntaxError msg)
  | RegExp.Unsupported =>
      match regexp_rest env pattern with
      | Some f => Ok f
      | None => Throw (RegExpSyntaxError (js "Invalid regular expression"))
      end
  end.

(** The three regular-expression literals at the end of the file. *)
Definition hasScriptTag_source : string := js ".*\<script.*\>".
Definition isTs_source : string :=
  js ".*\<script.*lang=" ++ [Str.dquote] ++ js "tsx?" ++ [Str.dquote] ++ js ".*\>".
Definition isImportOtherTs_source : string :=
  js ".*\<script.*src=" ++ [Str.dquote] ++ js ".*" ++ [Str.dquote] ++ js ".*\>".

Definition literal (source : string) : RegExp.regex :=
  match RegExp.parse source with
  | RegExp.Parsed r => r
  | _ => RegExp.Empty
  end.

Definition hasScriptTag_re : RegExp.regex := Eval vm_compute in literal hasScriptTag_source.
Definition isTs_re : RegExp.regex := Eval vm_compute in literal isTs_source.
Definition isImportOtherTs_re : RegExp.regex :=
  Eval vm_compute in literal isImportOtherTs_source.

Definition hasScriptTag (src : string) : bool := RegExp.test hasScriptTag_re src.
Definition isTs (src : string) : bool := RegExp.test isTs_re src.
Definition isImportOtherTs (src : string) : bool := RegExp.test isImportOtherTs_re src.

(** The module variable [validLanguages]. *)
Record Globals : Type := { validLanguages : list string }.

Definition initial_globals : Globals := {| validLanguages := [js "vue"] |}.

(** The object [traverse] builds for each file it has read. *)
Record FileRecord : Type := {
  absFilePath : string;
  fileExt : string;
  src : string
}.

(** The callback of the [onlyTypeScript] filter. *)
Definition keep_typescript (f : FileRecord) : bool :=
  if negb (Str.eqb (fileExt f) (js "vue")) || negb (hasScriptTag (src f)) then true
  else isTs (src f) || isImportOtherTs (src f).

Definition exclusion_pattern (env : Env) (excludeDirs : list string) : string :=
  let filterTargets := Str.join (js "|") (map (Path.resolve (cwd env)) excludeDirs) in
  js "^(?:" ++ filterTargets ++ js ").*$".

(** The callback of the [excludeDirs] filter: the pattern is compiled anew
    for every candidate. *)
Definition not_excluded (env : Env) (pattern : string) (targetFile : string)
  : M Globals bool :=
  re_test <- call (RegExp_new env pattern);;
  ret (negb (re_test targetFile)).

Definition read_record (env : Env) (absFilePath : string) : M Globals FileRecord :=
  src <- (emit (ReadFile absFilePath);; call (readFile env absFilePath));;
  ret {| absFilePath := absFilePath;
         fileExt := extractTargetFileExtension env absFilePath;
         src := src |}.

Definition create_document (f : FileRecord) : TextDocument :=
  {| uri := js "file://" ++ absFilePath f;
     languageId := fileExt f;
     version := 0;
     text := src f |}.

Definition traverse (env : Env) (root : string) (onlyTypeScript : bool)
    (changedFiles : list string) (excludeDirs : option (list string))
  : M Globals (list TextDocument) :=
  targetFiles <-
    match changedFiles with
    | _ :: _ => ret changedFiles
    | [] =>
        g <- get;;
        let pattern :=
          Path.join root
            (if onlyTypeScript
             then js "**/*.{" ++ Str.join (js ",") (validLanguages g) ++ js "}"
             else js "**/*.vue") in
        emit (GlobSync pattern);;
        ret (globSync env pattern)
    end;;
  targetFiles <-
    match excludeDirs with
    | Some dirs => filterM (not_excluded env (exclusion_pattern env dirs)) targetFiles
    | None => ret targetFiles
    end;;
  files <- Promise_all (rejectsFirst env) (map (read_record env) targetFiles);;
  let files := if onlyTypeScript then filter keep_typescript files else files in
  ret (map create_document files).

(** The locals of [getDiagnostics] that its [catch] and [finally] blocks
    read. *)
Record Locals : Type := { hasError : bool; totalErrors : nat }.

(** [interface Source]. *)
Record Source : Type := {
  docs : list TextDocument;
  src_workspace : string;
  src_onlyTemplate : bool;
  src_failExit : bool
}.

(** What the loop prints for one diagnostic of [doc]. *)
Definition report (env : Env) (doc : TextDocument) (result : Diagnostic) : Trace :=
  let total := lineCount env doc in
  let lines :=
    getLines env (line (start (range result))) (line (end_ (range result))) total in
  PrintError (js "Error in " ++ uri doc)
  :: PrintMessage
       (Str.of_nat (line (start (range result))) ++ js ":"
        ++ Str.of_nat (character (start (range result))) ++ js " " ++ message result)
  :: flat_map
       (fun ln =>
          let code := Str.strip_trailing_newline (getText env doc ln) in
          let isError := Nat.eqb ln (line (start (range result))) in
          PrintLog (formatLine env ln code isError)
          :: (if isError then [PrintLog (formatCursor env (range result))] else []))
       lines.

Definition stop_notice : string := js "Please run command locally to see the full list".

(** The body of the loop over [docs]. *)
Definition check_document (env : Env) (modes : Modes) (onlyTemplate failExit : bool)
    (doc : TextDocument) : M Locals bool :=
  vueTplResults <-
    (emit (DoValidation vueMode doc);; call (vueMode_doValidation modes doc));;
  scriptResults <-
    (if negb onlyTemplate then
       match scriptMode_doValidation modes with
       | Some doValidation =>
           emit (DoValidation scriptMode doc);; call (doValidation doc)
       | None => ret []
       end
     else ret []);;
  let results := (vueTplResults ++ scriptResults)%list in
  (match results with
   | _ :: _ =>
       l <- get;;
       put {| hasError := true;
              totalErrors := totalErrors l + List.length results |};;
       emits (flat_map (report env doc) results)
   | [] => ret tt
   end);;
  emit Tick;;
  l <- get;;
  if hasError l && failExit then emit (PrintMessage stop_notice);; ret true
  else ret false.

Definition summary_line (errors documents : nat) : string :=
  js "Found: " ++ Str.of_nat errors ++ js " errors in " ++ Str.of_nat documents
  ++ js " file(s)".

(** [getDiagnostics] ends in [process.exit]; its value is the code it
    exits with.  First its statements, over its two locals; then the
    function, which starts with [hasError = false] and [totalErrors = 0]. *)
Definition getDiagnostics_body (env : Env) (source : Source) : M Locals nat :=
  emit (GetLanguageModelCache documentRegions);;
  emit (GetLanguageModelCache scriptRegionDocuments);;
  try_catch
    (modes <- (emit (SetupModes (src_workspace source));;
               call (setupModes env (src_workspace source)));;
     emit (NewProgressBar (List.length (docs source)));;
     for_of (docs source)
       (check_document env modes (src_onlyTemplate source) (src_failExit source)))
    (fun error =>
       l <- get;;
       put {| hasError := true; totalErrors := totalErrors l |};;
       emit (ConsoleError error));;
  emit (Dispose documentRegions);;
  emit (Dispose scriptRegionDocuments);;
  l <- get;;
  (if src_failExit source then ret tt
   else emit (PrintMessage
                (summary_line (totalErrors l) (List.length (docs source)))));;
  ret (if hasError l then 1 else 0).

Definition getDiagnostics {S} (env : Env) (source : Source) : M S nat :=
  scoped {| hasError := false; totalErrors := 0 |} (getDiagnostics_body env source).

Definition or_default {A} (o : option A) (d : A) : A :=
  match o with Some a => a | None => d end.

(** The constants [check] computes from its options: the destructuring
    defaults, [srcDir] and [excludeDirs]. *)
Definition opt_onlyTemplate (options : Options) : bool :=
  or_default (onlyTemplate options) false.
Definition opt_onlyTypeScript (options : Options) : bool :=
  or_default (onlyTypeScript options) false.
Definition opt_failExit (options : Options) : bool :=
  or_default (failExit options) false.
Definition opt_files (options : Options) : list string :=
  or_default (files options) [].

Definition opt_srcDir (options : Options) : string :=
  match srcDir options with
  | Some d => if Str.eqb d [] then workspace options else d
  | None => workspace options
  end.

Definition opt_excludeDirs (options : Options) : option (list string) :=
  match excludeDir options with
  | Some (inl dir) => Some [dir]
  | Some (inr dirs) => Some dirs
  | None => None
  end.

Definition source_of (options : Options) (docs : list TextDocument) : Source :=
  {| docs := docs; src_workspace := workspace options;
     src_onlyTemplate := opt_onlyTemplate options;
     src_failExit := opt_failExit options |}.

(** [check]: its value is the exit code of the process; a throw is the
    rejection of the promise it returns. *)
Definition check (env : Env) (options : Options) : M Globals nat :=
  (if opt_onlyTypeScript options
   then put {| validLanguages := [js "ts"; js "tsx"; js "vue"] |}
   else ret tt);;
  docs <- traverse env (opt_srcDir options) (opt_onlyTypeScript options)
            (opt_files options) (opt_excludeDirs options);;
  getDiagnostics env (source_of options docs).

(* ================================================================== *)
(** * Reading a trace *)

Definition count (p : Event -> bool) (t : Trace) : nat := List.length (filter p t).

Definition is_dispose (c : Cache) (e : Event) : bool :=
  match e, c with
  | Dispose documentRegions, documentRegions => true
  | Dispose scriptRegionDocuments, scriptRegionDocuments => true
  | _, _ => false
  end.

Definition is_acquire (c : Cache) (e : Event) : bool :=
  match e, c with
  | GetLanguageModelCache documentRegions, documentRegions => true
  | GetLanguageModelCache scriptRegionDocuments, scriptRegionDocuments => true
  | _, _ => false
  end.

Definition is_cache_event (e : Event) : bool :=
  match e with
  | GetLanguageModelCache _ | Dispose _ => true
  | _ => false
  end.

Definition is_validation (e : Event) : bool :=
  match e with DoValidation _ _ => true | _ => false end.

Definition is_print_error (e : Event) : bool :=
  match e with PrintError _ => true | _ => false end.

Definition is_console_error (e : Event) : bool :=
  match e with ConsoleError _ => true | _ => false end.

Definition is_file_event (e : Event) : bool :=
  match e with GlobSync _ | ReadFile _ => true | _ => false end.

Definition is_glob (e : Event) : bool :=
  match e with GlobSync _ => true | _ => false end.

(** A line of output that starts the way the summary does. *)
Definition is_summary (e : Event) : bool :=
  match e with
  | PrintMessage s => Str.starts_with (js "Found: ") s
  | _ => false
  end.

Definition is_stop_notice (e : Event) : bool :=
  match e with
  | PrintMessage s => Str.eqb s stop_notice
  | _ => false
  end.

(** The documents handed to the template producer, in order. *)
Fixpoint validated (t : Trace) : list TextDocument :=
  match t with
  | [] => []
  | DoValidation vueMode doc :: t' => doc :: validated t'
  | _ :: t' => validated t'
  end.

(** The paths read from disk, in order. *)
Fixpoint loaded (t : Trace) : list string :=
  match t with
  | [] => []
  | ReadFile path :: t' => path :: loaded t'
  | _ :: t' => loaded t'
  end.

(* ================================================================== *)
(** * What one document yields

    The description of section 4.4: the template producer is asked
    unconditionally; the script producer unless [onlyTemplate] is set or it
    has no [doValidation]; template diagnostics come first. *)

Definition yields (modes : Modes) (onlyTemplate : bool) (doc : TextDocument)
  : Result (list Diagnostic) :=
  match vueMode_doValidation modes doc with
  | Throw e => Throw e
  | Ok tpl =>
      if onlyTemplate then Ok tpl
      else match scriptMode_doValidation modes with
           | None => Ok tpl
           | Some doValidation =>
               match doValidation doc with
               | Ok scr => Ok (tpl ++ scr)%list
               | Throw e => Throw e
               end
           end
  end.

(** Whether the loop asks the script producer about a document. *)
Definition asks_script (modes : Modes) (onlyTemplate : bool) (doc : TextDocument)
  : bool :=
  match vueMode_doValidation modes doc, scriptMode_doValidation modes with
  | Ok _, Some _ => negb onlyTemplate
  | _, _ => false
  end.

Definition producer_calls (modes : Modes) (onlyTemplate : bool) (doc : TextDocument)
  : Trace :=
  DoValidation vueMode doc
  :: (if asks_script modes onlyTemplate doc then [DoValidation scriptMode doc] else []).

(** The locals after a document that yielded [results]. *)
Definition account (results : list Diagnostic) (l : Locals) : Locals :=
  match results with
  | [] => l
  | _ :: _ => {| hasError := true; totalErrors := totalErrors l + List.length results |}
  end.

(** What the loop does for a document that yields nothing. *)
Definition quiet_events (modes : Modes) (onlyTemplate : bool) (doc : TextDocument)
  : Trace :=
  (producer_calls modes onlyTemplate doc ++ [Tick])%list.

Definition quiet (modes : Modes) (onlyTemplate : bool) (doc : TextDocument) : Prop :=
  yields modes onlyTemplate doc = Ok [].

(** A document the loop gets past: it yields without an exception, and
    yields nothing if [failExit] is set. *)
Definition passed (modes : Modes) (onlyTemplate failExit : bool)
    (doc : TextDocument) : Prop :=
  exists results,
    yields modes onlyTemplate doc = Ok results /\ (failExit = true -> results = []).

(** The events the loop over the documents can produce. *)
Definition loop_event (e : Event) : bool :=
  match e with
  | DoValidation _ _ | PrintError _ | PrintLog _ | Tick => true
  | PrintMessage s => negb (Str.starts_with (js "Found: ") s)
  | _ => false
  end.

(** The first two and the last two cache events of [getDiagnostics]. *)
Definition acquire_both : Trace :=
  [GetLanguageModelCache documentRegions; GetLanguageModelCache scriptRegionDocuments].

Definition dispose_both : Trace :=
  [Dispose documentRegions; Dispose scriptRegionDocuments].

Definition fresh_locals : Locals := {| hasError := false; totalErrors := 0 |}.

(** The summary line, when one is printed. *)
Definition summary (failExit : bool) (errors documents : nat) : Trace :=
  if failExit then [] else [PrintMessage (summary_line errors documents)].

(* ================================================================== *)
(** * The steps of [traverse] and [check] as values

    The module variable when [traverse] runs; the candidates and the trace
    of finding them; what the exclusion filter leaves of them; the records
    of the files read; the path a document was created for. *)

Definition globals_in_check (options : Options) (g : Globals) : Globals :=
  if opt_onlyTypeScript options then {| validLanguages := [js "ts"; js "tsx"; js "vue"] |}
  else g.

Definition candidates (env : Env) (root : string) (onlyTypeScript : bool)
    (changedFiles : list string) (g : Globals) : Trace * list string :=
  match changedFiles with
  | _ :: _ => ([], changedFiles)
  | [] =>
      let pattern :=
        Path.join root
          (if onlyTypeScript
           then js "**/*.{" ++ Str.join (js ",") (validLanguages g) ++ js "}"
           else js "**/*.vue") in
      ([GlobSync pattern], globSync env pattern)
  end.

Definition exclude (env : Env) (pattern : string) (targets : list string)
  : Result (list string) :=
  match targets with
  | [] => Ok []
  | _ :: _ =>
      match RegExp_new env pattern with
      | Ok re_test => Ok (filter (fun targetFile => negb (re_test targetFile)) targets)
      | Throw e => Throw e
      end
  end.

Definition select (env : Env) (excludeDirs : option (list string))
    (targets : list string) : Result (list string) :=
  match excludeDirs with
  | Some dirs => exclude env (exclusion_pattern env dirs) targets
  | None => Ok targets
  end.

Fixpoint read_records (env : Env) (targets : list string) : Result (list FileRecord) :=
  match targets with
  | [] => Ok []
  | absFilePath :: rest =>
      match readFile env absFilePath with
      | Ok src =>
          match read_records env rest with
          | Ok records =>
              Ok ({| absFilePath := absFilePath;
                     fileExt := extractTargetFileExtension env absFilePath;
                     src := src |} :: records)
          | Throw e => Throw e
          end
      | Throw e =>
          Throw (match read_records env rest with
                 | Ok _ => e
                 | Throw e' => if rejectsFirst env e e' then e else e'
                 end)
      end
  end.

(** The alternatives of the exclusion pattern: the resolved entries, or,
    when [excludeDirs] is the empty array, the one empty alternative that
    is left between the parentheses. *)
Definition pattern_entries (env : Env) (dirs : list string) : list string :=
  match dirs with
  | [] => [[]]
  | _ :: _ => map (Path.resolve (cwd env)) dirs
  end.

(** The path a document was created for. *)
Definition created_for (path : string) (doc : TextDocument) : Prop :=
  uri doc = js "file://" ++ path.

(* ================================================================== *)
(** * Patterns without special characters other than the dot *)

(** A character that stands for itself in a pattern. *)
Definition plain (c : N) : bool := negb (RegExp.is_syntax_char c).

(** A plain character or a dot. *)
Definition textual (c : N) : bool := plain c || N.eqb c (ch ".").

Definition plain_text (s : string) : bool := forallb plain s.
Definition dotted_text (s : string) : bool := forallb textual s.

(** The term a textual character parses to, and the expression a run of
    them parses to. *)
Definition atom (c : N) : RegExp.regex :=
  if N.eqb c (ch ".") then RegExp.Dot else RegExp.Chr c.

Definition lit (w : list N) : RegExp.regex :=
  RegExp.seq_of (map atom w).

(** No line terminator in [s]: what [.*$] accepts. *)
Definition one_line (s : list N) : bool :=
  forallb (fun c => negb (RegExp.is_line_terminator c)) s.

(** [t] starts with [p] and goes on to its end without a line terminator. *)
Definition prefix_on_line (p t : string) : bool :=
  match Str.strip_prefix p t with
  | Some rest => one_line rest
  | None => false
  end.

(** Like [Str.strip_prefix], with a dot of [p] standing for any character
    but a line terminator. *)
Fixpoint strip_wild (p a : list N) : option (list N) :=
  match p, a with
  | [], _ => Some a
  | c :: p', x :: a' =>
      if N.eqb c (ch ".") then
        if RegExp.is_line_terminator x then None else strip_wild p' a'
      else if N.eqb c x then strip_wild p' a' else None
  | _ :: _, [] => None
  end.

Definition matches_on_line (p t : string) : bool :=
  match strip_wild p t with
  | Some rest => one_line rest
  | None => false
  end.

(** The alternatives [e1|...|en] of texts, as the parser nests them. *)
Definition disjunction (entries : list string) : RegExp.regex :=
  fold_right RegExp.Alt
    (lit (last entries []))
    (map (fun e => lit e) (removelast entries)).

(** What [^(?:e1|...|en).*$] parses to. *)
Definition exclusion_regex (entries : list string) : RegExp.regex :=
  RegExp.Seq RegExp.Bol
    (RegExp.Seq (disjunction entries)
       (RegExp.Seq (RegExp.Star RegExp.Dot) (RegExp.Seq RegExp.Eol RegExp.Empty))).

(** The continuation of [.*] in [.*$]. *)
Definition at_end : RegExp.cont :=
  fun b s => RegExp.m (RegExp.Seq RegExp.Eol RegExp.Empty) RegExp.accept b s.

(** The expression for a word followed by [r]. *)
Definition chars_then (w : list N) (r : RegExp.regex) : RegExp.regex :=
  fold_right RegExp.Seq r (map RegExp.Chr w).

(** A matcher that answers [true] for a continuation answers [true] for
    every continuation that accepts more. *)
Definition monotone (mr : RegExp.cont -> RegExp.cont) : Prop :=
  forall k1 k2 : RegExp.cont,
    (forall b t, k1 b t = true -> k2 b t = true) ->
    forall b t, mr k1 b t = true -> mr k2 b t = true.

(* ================================================================== *)
(** * The three tag heuristics, in words

    A script tag is the text [<script] followed on the same line by [>];
    it names the strict dialect when [lang="ts"] or [lang="tsx"] stands
    between the two, and an external file when [src="..."] does. *)

Definition quote : list N := [Str.dquote].

Definition has_script_tag (src : string) : Prop :=
  exists a l b,
    src = (a ++ js "<script" ++ l ++ js ">" ++ b)%list
    /\ one_line l = true.

Definition has_typescript_tag (src : string) : Prop :=
  exists a l1 x l2 b,
    src
    = (a ++ js "<script" ++ l1 ++ js "lang=" ++ quote ++ js "ts" ++ x ++ quote
       ++ l2 ++ js ">" ++ b)%list
    /\ (x = [] \/ x = js "x")
    /\ one_line l1 = true /\ one_line l2 = true.

Definition has_external_script_tag (src : string) : Prop :=
  exists a l1 v l2 b,
    src
    = (a ++ js "<script" ++ l1 ++ js "src=" ++ quote ++ v ++ quote
       ++ l2 ++ js ">" ++ b)%list
    /\ one_line l1 = true /\ one_line v = true /\ one_line l2 = true.

(* ================================================================== *)
(** * The script that turns file arguments into [--excludeDir] options

    The executable next to [index.ts]: it walks [process.argv], keeps the
    arguments after the first two that end in [.vue], and prints one
    [--excludeDir] option for each of them on a single line. *)

(** [s.endsWith(suffix)]. *)
Definition ends_with (suffix s : string) : bool :=
  Nat.leb (List.length suffix) (List.length s)
  && Str.eqb (skipn (List.length s - List.length suffix) s) suffix.

Module Script.

(** The callback of [process.argv.forEach], on the array [finalCmd]. *)
Definition visit (finalCmd : list string) (val : string) (index : nat)
  : list string :=
  if Nat.ltb 1 index && ends_with (js ".vue") val
  then finalCmd ++ [js "--excludeDir " ++ val]
  else finalCmd.

Fixpoint forEach (argv : list string) (index : nat) (finalCmd : list string)
  : list string :=
  match argv with
  | [] => finalCmd
  | val :: rest => forEach rest (S index) (visit finalCmd val index)
  end.

(** What a run leaves behind: the argument of [console.log] and the code
    given to [process.exit]. *)
Record Outcome : Type := { console_log : string; exit_code : nat }.

Definition main (argv : list string) : Outcome :=
  let finalCmd := forEach argv 0 [] in
  {| console_log := Str.join (js " ") finalCmd; exit_code := 0 |}.

End Script.

(* ================================================================== *)
(** * More ways to read a trace *)

Definition is_tick (e : Event) : bool :=
  match e with Tick => true | _ => false end.

Definition is_script_validation (e : Event) : bool :=
  match e with DoValidation scriptMode _ => true | _ => false end.

(** A line of output on one of the three print channels. *)
Definition is_output (e : Event) : bool :=
  match e with PrintError _ | PrintMessage _ | PrintLog _ => true | _ => false end.

(** The workspaces the producers were constructed for, in order. *)
Fixpoint workspaces (t : Trace) : list string :=
  match t with
  | [] => []
  | SetupModes w :: t' => w :: workspaces t'
  | _ :: t' => workspaces t'
  end.

(** The totals of the progress bars created, in order. *)
Fixpoint progress_bars (t : Trace) : list nat :=
  match t with
  | [] => []
  | NewProgressBar n :: t' => n :: progress_bars t'
  | _ :: t' => progress_bars t'
  end.

(** The diagnostics of a document, none if a producer throws, and the
    number of them over a list of documents. *)
Definition diagnostics_of (modes : Modes) (onlyTemplate : bool) (doc : TextDocument)
  : list Diagnostic :=
  match yields modes onlyTemplate doc with
  | Ok results => results
  | Throw _ => []
  end.

Definition total_diagnostics (modes : Modes) (onlyTemplate : bool)
    (docs : list TextDocument) : nat :=
  list_sum (map (fun doc => List.length (diagnostics_of modes onlyTemplate doc)) docs).

(** A piece of text that satisfies [P] occurs in [src]. *)
Definition occurs (P : list N -> Prop) (src : string) : Prop :=
  exists a w b, src = (a ++ w ++ b)%list /\ P w.

(** The three kinds of tag, as pieces of text. *)
Definition script_tag (w : list N) : Prop :=
  exists l, w = (js "<script" ++ l ++ js ">")%list /\ one_line l = true.

Definition typescript_tag (w : list N) : Prop :=
  exists l1 x l2,
    w = (js "<script" ++ l1 ++ js "lang=" ++ quote ++ js "ts" ++ x ++ quote
         ++ l2 ++ js ">")%list
    /\ (x = [] \/ x = js "x")
    /\ one_line l1 = true /\ one_line l2 = true.

Definition external_script_tag (w : list N) : Prop :=
  exists l1 v l2,
    w = (js "<script" ++ l1 ++ js "src=" ++ quote ++ v ++ quote
         ++ l2 ++ js ">")%list
    /\ one_line l1 = true /\ one_line v = true /\ one_line l2 = true.

(* ================================================================== *)
(** * A small world to run the program in *)

Module Example.

(** The text after the last dot of a path. *)
Fixpoint extension (path : string) : string :=
  match path with
  | [] => []
  | c :: rest =>
      if N.eqb c (ch ".") then
        if existsb (N.eqb (ch ".")) rest then extension rest else rest
      else extension rest
  end.

Definition lookup (fs : list (string * string)) (path : string) : Result string :=
  match find (fun entry => Str.eqb (fst entry) path) fs with
  | Some entry => Ok (snd entry)
  | None => Throw (ExternalError (js "ENOENT: " ++ path))
  end.

Definition diagnostic_at (l c : nat) (msg : string) : Diagnostic :=
  {| range := {| start := {| line := l; character := c |};
                 end_ := {| line := l; character := c + 1 |} |};
     message := msg |}.

(** Files [fs] on disk, working directory [/w], a directory scan that finds
    [found], and producers built by [setup]. *)
Definition env (fs : list (string * string)) (found : list string)
    (setup : Result Modes) : Env :=
  {| cwd := js "/w";
     globSync := fun _ => found;
     readFile := lookup fs;
     extractTargetFileExtension := extension;
     rejectsFirst := fun _ _ => true;
     getLines := fun s e total => seq s (Nat.min (S e) total - s);
     formatLine := fun n code _ => Str.of_nat n ++ js " | " ++ code;
     formatCursor := fun _ => js "^";
     lineCount := fun _ => 1;
     getText := fun doc _ => text doc;
     setupModes := fun _ => setup;
     regexp_rest := fun _ => None |}.

(** A template producer that finds [msg] in every document whose text
    contains an interpolation, and a script producer that finds nothing. *)
Definition has_interpolation (doc : TextDocument) : bool :=
  RegExp.test (literal (js "\{\{")) (text doc).

Definition modes : Modes :=
  {| vueMode_doValidation := fun doc =>
       Ok (if has_interpolation doc then [diagnostic_at 0 0 (js "unknown property")] else []);
     scriptMode_doValidation := Some (fun _ => Ok []) |}.

Definition options (failFast : bool) (explicit : list string)
    (exclude : option (string + list string)) : Options :=
  {| workspace := js "/w"; srcDir := None; onlyTemplate := None;
     onlyTypeScript := None; excludeDir := exclude;
     failExit := Some failFast; files := Some explicit |}.

Definition fs : list (string * string) :=
  [(js "/w/src/a.vue", js "<template>{{ msg }}</template>");
   (js "/w/src/b.vue", js "<template>ok</template>");
   (js "/w/src/c.vue", js "<template>ok</template>");
   (js "/w/src/(old)/d.vue", js "<template>ok</template>")].

Definition document (path content : string) : TextDocument :=
  {| uri := js "file://" ++ path; languageId := js "vue"; version := 0; text := content |}.

Definition doc_a : TextDocument :=
  document (js "/w/src/a.vue") (js "<template>{{ msg }}</template>").
Definition doc_b : TextDocument := document (js "/w/src/b.vue") (js "<template>ok</template>").
Definition doc_c : TextDocument := document (js "/w/src/c.vue") (js "<template>ok</template>").
Definition doc_d : TextDocument :=
  document (js "/w/src/(old)/d.vue") (js "<template>ok</template>").

(** Producers whose template side throws on every document. *)
Definition broken_modes : Modes :=
  {| vueMode_doValidation := fun _ => Throw (ExternalError (js "validation failed"));
     scriptMode_doValidation := None |}.

(** A run of [getDiagnostics] over [documents]. *)
Definition source (failFast : bool) (documents : list TextDocument) : Source :=
  {| docs := documents; src_workspace := js "/w"; src_onlyTemplate := false;
     src_failExit := failFast |}.

(** Script sections, for the eligibility test of [onlyTypeScript]. *)
Definition quoted (s : string) : string :=
  [Str.dquote] ++ s ++ [Str.dquote].

Definition script_ts : string := js "<script lang=" ++ quoted (js "ts") ++ js ">".
Definition script_tsx : string := js "<script lang=" ++ quoted (js "tsx") ++ js ">".
Definition script_external : string :=
  js "<script src=" ++ quoted (js "./impl.ts") ++ js "></script>".
Definition script_plain : string := js "<script>export default {}</script>".
Definition template_only : string := js "<template><p>hello</p></template>".

End Example.

(* ================================================================== *)
(** * Counting events *)

Local Open Scope list_scope.
Unset Implicit Arguments.

Ltac subst_side E :=
  match type of E with
  | _ = ?y => is_var y; subst y
  | ?x = _ => is_var x; subst x
  | _ => idtac
  end.

(** Splits an equation between two outcomes [(trace, state, result)] into
    its three parts, without unfolding them. *)
Ltac triple H :=
  let Ht := fresh "Ht" in
  let Hr := fresh "Hr" in
  apply pair_equal_spec in H as [H Hr];
  apply pair_equal_spec in H as [Ht H];
  subst_side Ht; subst_side H; subst_side Hr.

Lemma string_eqb_eq (a b : string) : Str.eqb a b = true <-> a = b.
Proof.
  revert b. induction a as [|x a IH]; intros [|y b]; cbn [Str.eqb];
    try (split; [discriminate | congruence]); [tauto|].
  rewrite andb_true_iff, N.eqb_eq, IH. split; [intros [-> ->] | intros [= -> ->]]; auto.
Qed.

Lemma string_eqb_refl (a : string) : Str.eqb a a = true.
Proof. now apply string_eqb_eq. Qed.

Lemma string_eqb_neq (a b : string) : Str.eqb a b = false <-> a <> b.
Proof.
  rewrite <- string_eqb_eq. destruct (Str.eqb a b); split; congruence.
Qed.

Lemma string_eqb_spec (a b : string) : reflect (a = b) (Str.eqb a b).
Proof. apply iff_reflect. symmetry. apply string_eqb_eq. Qed.

Lemma count_app (p : Event -> bool) (t1 t2 : Trace) :
  count p (t1 ++ t2) = count p t1 + count p t2.
Proof. unfold count. now rewrite filter_app, length_app. Qed.

Lemma count_cons (p : Event -> bool) (e : Event) (t : Trace) :
  count p (e :: t) = (if p e then 1 else 0) + count p t.
Proof. unfold count. simpl. now destruct (p e). Qed.

Lemma count_none (p q : Event -> bool) (t : Trace) :
  (forall e, q e = true -> p e = false) ->
  forallb q t = true -> count p t = 0.
Proof.
  intros Hpq. induction t as [ | e t IH ]; simpl; intros H; [ reflexivity | ].
  apply andb_true_iff in H as [He Ht].
  rewrite count_cons, (Hpq e He), IH; auto.
Qed.

Lemma count_flat_map_const {A} (p : Event -> bool) (f : A -> Trace) (n : nat)
    (l : list A) :
  (forall a, count p (f a) = n) -> count p (flat_map f l) = n * List.length l.
Proof.
  intros Hf. induction l as [ | a l IH ]; simpl; [ now rewrite Nat.mul_0_r | ].
  rewrite count_app, Hf, IH, Nat.mul_succ_r. lia.
Qed.

Lemma count_positive (p : Event -> bool) (e : Event) (t : Trace) :
  In e t -> p e = true -> 0 < count p t.
Proof.
  induction t as [ | x t IH ]; simpl; intros Hin Hp; [ contradiction | ].
  rewrite count_cons. destruct Hin as [ -> | Hin ].
  - rewrite Hp. lia.
  - specialize (IH Hin Hp). lia.
Qed.

Lemma count_reads (p : Event -> bool) (l : list string) :
  (forall path, p (ReadFile path) = false) -> count p (map ReadFile l) = 0.
Proof.
  intros Hp. induction l as [ | x l IH ]; [ reflexivity | ].
  cbn [map]. now rewrite count_cons, Hp, IH.
Qed.

Lemma forallb_flat_map {A} (q : Event -> bool) (f : A -> Trace) (l : list A) :
  (forall a, forallb q (f a) = true) -> forallb q (flat_map f l) = true.
Proof.
  intros Hf. induction l as [ | a l IH ]; simpl; [ reflexivity | ].
  now rewrite forallb_app, Hf, IH.
Qed.

Lemma existsb_map {A B} (f : A -> B) (p : B -> bool) (l : list A) :
  existsb p (map f l) = existsb (fun a => p (f a)) l.
Proof. induction l as [ | a l IH ]; cbn; [ reflexivity | now rewrite IH ]. Qed.

Lemma validated_app (t1 t2 : Trace) :
  validated (t1 ++ t2) = (validated t1 ++ validated t2)%list.
Proof.
  induction t1 as [ | e t1 IH ]; simpl; [ reflexivity | ].
  destruct e as [ | | | | | | [ | ] doc | | | | | ]; simpl; now rewrite ?IH.
Qed.

Lemma validated_none (t : Trace) :
  count is_validation t = 0 -> validated t = [].
Proof.
  induction t as [ | e t IH ]; simpl; [ reflexivity | ].
  rewrite count_cons.
  destruct e as [ | | | | | | [ | ] doc | | | | | ]; simpl; intros H;
    try discriminate; auto.
Qed.

Lemma loaded_app (a b : Trace) : loaded (a ++ b) = loaded a ++ loaded b.
Proof. induction a as [ | [] a IH ]; cbn; now rewrite ?IH. Qed.

Lemma loaded_reads (l : list string) : loaded (map ReadFile l) = l.
Proof. induction l as [ | x l IH ]; cbn; now rewrite ?IH. Qed.

(** A decimal numeral starts with a digit, so a line that starts with one
    is neither the summary nor the stop notice. *)
Lemma loaded_none (t : Trace) : count is_file_event t = 0 -> loaded t = [].
Proof.
  induction t as [ | e t IH ]; [ reflexivity | ].
  rewrite count_cons. destruct e; cbn; intros H; try discriminate; auto.
Qed.

Lemma validated_files (t : Trace) : forallb is_file_event t = true -> validated t = [].
Proof.
  induction t as [ | e t IH ]; [ reflexivity | ].
  destruct e; cbn; try discriminate; auto.
Qed.

Lemma numeral_not_summary (n : nat) (rest : string) :
  Str.starts_with (js "Found: ") (Str.of_nat n ++ rest) = false.
Proof.
  unfold Str.of_nat, NilZero.string_of_uint.
  destruct (Nat.to_uint n); reflexivity.
Qed.

Lemma numeral_not_stop_notice (n : nat) (rest : string) :
  Str.eqb (Str.of_nat n ++ rest) stop_notice = false.
Proof.
  unfold Str.of_nat, NilZero.string_of_uint.
  destruct (Nat.to_uint n); reflexivity.
Qed.

Lemma loop_event_not_cache (e : Event) : loop_event e = true -> is_cache_event e = false.
Proof. now destruct e. Qed.

Lemma loop_event_not_console (e : Event) :
  loop_event e = true -> is_console_error e = false.
Proof. now destruct e. Qed.

Lemma loop_event_not_summary (e : Event) : loop_event e = true -> is_summary e = false.
Proof.
  destruct e; simpl; try reflexivity; try discriminate.
  now intros ->%negb_true_iff.
Qed.

Lemma loop_event_not_file (e : Event) : loop_event e = true -> is_file_event e = false.
Proof. now destruct e. Qed.

Lemma loop_event_not_dispose (c : Cache) (e : Event) :
  loop_event e = true -> is_dispose c e = false.
Proof. now destruct e, c. Qed.

Lemma loop_event_not_acquire (c : Cache) (e : Event) :
  loop_event e = true -> is_acquire c e = false.
Proof. now destruct e, c. Qed.

(* ================================================================== *)
(** * The loop, one document at a time *)

Section Loop.

Variable env : Env.
Variable modes : Modes.
Variables onlyTemplate failExit : bool.

Lemma check_document_eq (doc : TextDocument) (l : Locals) :
  check_document env modes onlyTemplate failExit doc l =
  match yields modes onlyTemplate doc with
  | Throw e => (producer_calls modes onlyTemplate doc, l, Throw e)
  | Ok results =>
      let l1 := account results l in
      let stop := hasError l1 && failExit in
      ((producer_calls modes onlyTemplate doc
        ++ flat_map (report env doc) results
        ++ Tick :: (if stop then [PrintMessage stop_notice] else []))%list,
       l1, Ok stop)
  end.
Proof.
  unfold check_document, yields, producer_calls, asks_script, account.
  unfold bind, emit, call, ret, get, put, emits.
  destruct (vueMode_doValidation modes doc) as [tpl | e]; [ | reflexivity ].
  destruct onlyTemplate, (scriptMode_doValidation modes) as [ f | ]; simpl;
    try (destruct (f doc) as [ scr | e ]; [ | reflexivity ]);
    rewrite ?app_nil_r;
    match goal with
    | |- context [ match ?rs with [] => _ | _ :: _ => _ end ] => destruct rs; simpl
    end;
    destruct failExit, (hasError l); simpl; rewrite ?app_nil_r; reflexivity.
Qed.

Lemma for_of_cons (doc : TextDocument) (rest : list TextDocument) (l : Locals) :
  for_of (doc :: rest) (check_document env modes onlyTemplate failExit) l =
  match check_document env modes onlyTemplate failExit doc l with
  | (t, l1, Ok true) => (t, l1, Ok tt)
  | (t, l1, Ok false) =>
      let '(t', l2, r) :=
        for_of rest (check_document env modes onlyTemplate failExit) l1 in
      ((t ++ t')%list, l2, r)
  | (t, l1, Throw e) => (t, l1, Throw e)
  end.
Proof.
  simpl. unfold bind at 1.
  destruct (check_document env modes onlyTemplate failExit doc l)
    as [[t l1] [ [ | ] | e ]]; simpl; try reflexivity.
  now rewrite app_nil_r.
Qed.

(** ** What a diagnostic's report consists of *)

Lemma report_loop_events (doc : TextDocument) (d : Diagnostic) :
  forallb loop_event (report env doc d) = true.
Proof.
  unfold report. cbn [forallb loop_event].
  rewrite numeral_not_summary. simpl.
  apply forallb_flat_map. intros ln.
  destruct (Nat.eqb ln _); reflexivity.
Qed.

Lemma report_print_errors (doc : TextDocument) (d : Diagnostic) :
  count is_print_error (report env doc d) = 1.
Proof.
  unfold report. rewrite !count_cons. simpl.
  rewrite (count_flat_map_const is_print_error _ 0).
  - lia.
  - intros ln. destruct (Nat.eqb ln _); reflexivity.
Qed.

Lemma report_no_stop_notice (doc : TextDocument) (d : Diagnostic) :
  count is_stop_notice (report env doc d) = 0.
Proof.
  unfold report. rewrite !count_cons. cbn [is_stop_notice].
  rewrite numeral_not_stop_notice.
  rewrite (count_flat_map_const is_stop_notice _ 0).
  - lia.
  - intros ln. destruct (Nat.eqb ln _); reflexivity.
Qed.

Lemma report_no_validation (doc : TextDocument) (d : Diagnostic) :
  count is_validation (report env doc d) = 0.
Proof.
  unfold report. rewrite !count_cons. simpl.
  rewrite (count_flat_map_const is_validation _ 0).
  - lia.
  - intros ln. destruct (Nat.eqb ln _); reflexivity.
Qed.

Lemma producer_calls_loop_events (doc : TextDocument) :
  forallb loop_event (producer_calls modes onlyTemplate doc) = true.
Proof. unfold producer_calls. now destruct (asks_script modes onlyTemplate doc). Qed.

Lemma producer_calls_print_errors (doc : TextDocument) :
  count is_print_error (producer_calls modes onlyTemplate doc) = 0.
Proof. unfold producer_calls. now destruct (asks_script modes onlyTemplate doc). Qed.

Lemma producer_calls_no_stop_notice (doc : TextDocument) :
  count is_stop_notice (producer_calls modes onlyTemplate doc) = 0.
Proof. unfold producer_calls. now destruct (asks_script modes onlyTemplate doc). Qed.

Lemma producer_calls_validated (doc : TextDocument) :
  validated (producer_calls modes onlyTemplate doc) = [doc].
Proof. unfold producer_calls. now destruct (asks_script modes onlyTemplate doc). Qed.

(** ** Invariants of the loop *)

Lemma account_totalErrors (rs : list Diagnostic) (l : Locals) :
  totalErrors (account rs l) = totalErrors l + List.length rs.
Proof. destruct rs; simpl; lia. Qed.

Lemma account_hasError (rs : list Diagnostic) (l : Locals) :
  hasError (account rs l) = hasError l || negb (Nat.eqb (List.length rs) 0).
Proof. destruct rs; simpl; now rewrite ?orb_false_r, ?orb_true_r. Qed.

Lemma loop_invariant (docs : list TextDocument) :
  forall l t l' r,
    for_of docs (check_document env modes onlyTemplate failExit) l = (t, l', r) ->
    forallb loop_event t = true /\
    totalErrors l' = totalErrors l + count is_print_error t /\
    hasError l' = hasError l || negb (Nat.eqb (count is_print_error t) 0) /\
    (failExit = false -> count is_stop_notice t = 0).
Proof.
  induction docs as [ | doc rest IH ]; intros l t l' r H.
  - cbv in H. inversion H; subst. cbn. rewrite orb_false_r. repeat split; lia.
  - rewrite for_of_cons, check_document_eq in H.
    destruct (yields modes onlyTemplate doc) as [ rs | e ].
    + cbv zeta in H.
      pose proof (account_totalErrors rs l) as Htot.
      pose proof (account_hasError rs l) as Herr.
      set (l1 := account rs l) in *.
      assert (Hcalls : forall tail,
                 count is_print_error
                   (producer_calls modes onlyTemplate doc
                    ++ flat_map (report env doc) rs ++ Tick :: tail)
                 = List.length rs + count is_print_error tail).
      { intros tail. rewrite !count_app, count_cons, producer_calls_print_errors.
        rewrite (count_flat_map_const is_print_error (report env doc) 1) by
            apply report_print_errors.
        simpl. lia. }
      assert (Hstop : forall tail,
                 count is_stop_notice
                   (producer_calls modes onlyTemplate doc
                    ++ flat_map (report env doc) rs ++ Tick :: tail)
                 = count is_stop_notice tail).
      { intros tail. rewrite !count_app, count_cons, producer_calls_no_stop_notice.
        rewrite (count_flat_map_const is_stop_notice (report env doc) 0) by
            apply report_no_stop_notice.
        simpl. lia. }
      assert (Hev : forall tail,
                 forallb loop_event
                   (producer_calls modes onlyTemplate doc
                    ++ flat_map (report env doc) rs ++ Tick :: tail)
                 = forallb loop_event tail).
      { intros tail. rewrite !forallb_app, producer_calls_loop_events.
        rewrite forallb_flat_map by apply report_loop_events. reflexivity. }
      destruct (hasError l1 && failExit) eqn:Hs.
      * cbv beta iota zeta in H. triple H.
        rewrite Hev, Hcalls, Hstop, Htot, Herr. cbn.
        apply andb_true_iff in Hs as [_ ->].
        repeat split; try lia; try discriminate.
        now rewrite Nat.add_0_r.
      * destruct (for_of rest (check_document env modes onlyTemplate failExit) l1)
          as [[t' l2] r'] eqn:Hrest.
        cbv beta iota zeta in H. triple H.
        destruct (IH _ _ _ _ Hrest) as (Ht' & Htot' & Herr' & Hst').
        replace ((producer_calls modes onlyTemplate doc
                  ++ flat_map (report env doc) rs ++ [Tick]) ++ t')
          with (producer_calls modes onlyTemplate doc
                ++ flat_map (report env doc) rs ++ Tick :: t')
          by (now rewrite <- !app_assoc).
        rewrite Hev, Hcalls, Hstop.
        rewrite Ht', Htot', Herr', Htot, Herr.
        repeat split; try lia.
        -- rewrite <- orb_assoc. f_equal.
           destruct (List.length rs), (count is_print_error t'); reflexivity.
        -- intros Hf. now rewrite Hst'.
    + triple H.
      rewrite producer_calls_loop_events, producer_calls_print_errors,
        producer_calls_no_stop_notice, orb_false_r.
      repeat split; lia.
Qed.

(** ** Runs of the loop *)

Lemma loop_quiet_prefix (pre rest : list TextDocument) (l : Locals) :
  Forall (quiet modes onlyTemplate) pre ->
  hasError l && failExit = false ->
  for_of (pre ++ rest) (check_document env modes onlyTemplate failExit) l =
  let '(t, l', r) := for_of rest (check_document env modes onlyTemplate failExit) l in
  (flat_map (quiet_events modes onlyTemplate) pre ++ t, l', r).
Proof.
  intros Hpre Hl. induction Hpre as [ | doc pre Hdoc _ IH ].
  - simpl. now destruct (for_of rest _ l) as [[t l'] r].
  - cbn [app]. rewrite for_of_cons, check_document_eq, Hdoc. cbn [account flat_map].
    cbv zeta. rewrite Hl. cbv beta iota. rewrite IH.
    destruct (for_of rest _ l) as [[t l'] r].
    unfold quiet_events. cbn [app]. now rewrite <- !app_assoc.
Qed.

Lemma loop_quiet (docs : list TextDocument) (l : Locals) :
  Forall (quiet modes onlyTemplate) docs ->
  hasError l && failExit = false ->
  for_of docs (check_document env modes onlyTemplate failExit) l =
  (flat_map (quiet_events modes onlyTemplate) docs, l, Ok tt).
Proof.
  intros Hq Hl.
  rewrite <- (app_nil_r docs) at 1.
  rewrite (loop_quiet_prefix docs [] l Hq Hl). simpl. now rewrite app_nil_r.
Qed.

Lemma loop_stops (doc : TextDocument) (post : list TextDocument)
    (r : Diagnostic) (rs : list Diagnostic) (l : Locals) :
  yields modes onlyTemplate doc = Ok (r :: rs) ->
  failExit = true ->
  for_of (doc :: post) (check_document env modes onlyTemplate failExit) l =
  (producer_calls modes onlyTemplate doc
   ++ flat_map (report env doc) (r :: rs) ++ [Tick; PrintMessage stop_notice],
   account (r :: rs) l, Ok tt).
Proof.
  intros Hy Hf. rewrite for_of_cons, check_document_eq, Hy, Hf. reflexivity.
Qed.

Lemma loop_throws (doc : TextDocument) (post : list TextDocument) (e : Error)
    (l : Locals) :
  yields modes onlyTemplate doc = Throw e ->
  for_of (doc :: post) (check_document env modes onlyTemplate failExit) l =
  (producer_calls modes onlyTemplate doc, l, Throw e).
Proof.
  intros Hy. now rewrite for_of_cons, check_document_eq, Hy.
Qed.

(** A loop that ends without an exception and without [hasError] has seen
    only documents that yield nothing. *)
Lemma loop_quiet_inv (docs : list TextDocument) :
  forall l t l' r,
    for_of docs (check_document env modes onlyTemplate failExit) l = (t, l', Ok r) ->
    hasError l' = false ->
    Forall (quiet modes onlyTemplate) docs.
Proof.
  induction docs as [ | doc rest IH ]; intros l t l' r H Hl'; [ constructor | ].
  rewrite for_of_cons, check_document_eq in H.
  destruct (yields modes onlyTemplate doc) as [ [ | d rs ] | e ] eqn:Hy.
  - cbn [account] in H. cbv zeta in H.
    destruct (hasError l && failExit) eqn:Hs; cbv beta iota in H.
    + triple H. apply andb_true_iff in Hs as [Hs _]. congruence.
    + destruct (for_of rest _ l) as [[t' l2] r'] eqn:Hrest.
      triple H. constructor; [ exact Hy | ]. eapply IH; eauto.
  - cbv zeta in H. cbn [account hasError andb] in H.
    destruct failExit eqn:Hf; cbv beta iota in H.
    + triple H. discriminate.
    + destruct (for_of rest _ _) as [[t' l2] r'] eqn:Hrest.
      triple H. rewrite <- Hf in Hrest.
      apply loop_invariant in Hrest as (_ & _ & Herr & _).
      rewrite Herr in Hl'. discriminate.
  - triple H. discriminate.
Qed.

(** The loop gets past a prefix of documents that are [passed]. *)
Lemma loop_passed_prefix (pre rest : list TextDocument) :
  Forall (passed modes onlyTemplate failExit) pre ->
  forall l,
    hasError l && failExit = false ->
    exists t0 l0,
      forallb loop_event t0 = true /\
      validated t0 = pre /\
      hasError l0 && failExit = false /\
      for_of (pre ++ rest) (check_document env modes onlyTemplate failExit) l =
      let '(t, l', r) :=
        for_of rest (check_document env modes onlyTemplate failExit) l0 in
      (t0 ++ t, l', r).
Proof.
  induction 1 as [ | doc pre (rs & Hy & Hrs) _ IH ]; intros l Hl.
  - exists [], l. repeat split; auto.
    simpl. now destruct (for_of rest _ l) as [[t l'] r].
  - assert (Hl1 : hasError (account rs l) && failExit = false).
    { destruct failExit; [ | now rewrite andb_false_r ].
      now rewrite (Hrs eq_refl). }
    destruct (IH _ Hl1) as (t0 & l0 & Hev & Hval & Hl0 & Hloop).
    exists (producer_calls modes onlyTemplate doc
            ++ flat_map (report env doc) rs ++ [Tick] ++ t0), l0.
    repeat split; auto.
    + rewrite !forallb_app, producer_calls_loop_events, Hev.
      now rewrite forallb_flat_map by apply report_loop_events.
    + rewrite !validated_app, producer_calls_validated, Hval.
      rewrite (validated_none (flat_map _ _)); [ reflexivity | ].
      rewrite (count_flat_map_const is_validation _ 0) by apply report_no_validation.
      reflexivity.
    + cbn [app]. rewrite for_of_cons, check_document_eq, Hy. cbv zeta.
      rewrite Hl1. cbv beta iota. rewrite Hloop.
      destruct (for_of rest _ l0) as [[t l'] r].
      now rewrite <- !app_assoc.
Qed.

End Loop.

(* ================================================================== *)
(** * [getDiagnostics] as a whole *)

Lemma getDiagnostics_eq {S} (env : Env) (source : Source) (s : S) :
  getDiagnostics env source s =
  let ws := src_workspace source in
  let n := List.length (docs source) in
  let fe := src_failExit source in
  match setupModes env ws with
  | Throw e =>
      (acquire_both ++ [SetupModes ws; ConsoleError e] ++ dispose_both
       ++ summary fe 0 n, s, Ok 1)
  | Ok modes =>
      let '(t, l, r) :=
        for_of (docs source) (check_document env modes (src_onlyTemplate source) fe)
          fresh_locals in
      (acquire_both ++ [SetupModes ws; NewProgressBar n] ++ t
       ++ match r with Ok _ => [] | Throw e => [ConsoleError e] end
       ++ dispose_both ++ summary fe (totalErrors l) n,
       s,
       Ok (match r with
           | Ok _ => if hasError l then 1 else 0
           | Throw _ => 1
           end))
  end.
Proof.
  unfold getDiagnostics, getDiagnostics_body, scoped, try_catch.
  unfold bind, emit, call, get, put, ret, summary.
  cbv zeta. simpl.
  destruct (setupModes env (src_workspace source)) as [ modes | e ]; simpl.
  - fold fresh_locals.
    destruct (for_of (docs source) _ fresh_locals) as [[t l] [ [] | e ]]; simpl.
    + destruct (src_failExit source); simpl; rewrite ?app_nil_r; reflexivity.
    + destruct (src_failExit source); simpl; rewrite <- ?app_assoc; reflexivity.
  - destruct (src_failExit source); reflexivity.
Qed.

Lemma getDiagnostics_exit_code {S} (env : Env) (source : Source) (s : S) :
  exists t code,
    getDiagnostics env source s = (t, s, Ok code) /\
    (code = 0 \/ code = 1) /\
    (code = 0 <->
     count is_print_error t = 0 /\ count is_console_error t = 0) /\
    (code = 0 <->
     exists modes,
       setupModes env (src_workspace source) = Ok modes /\
       Forall (quiet modes (src_onlyTemplate source)) (docs source)).
Proof.
  rewrite getDiagnostics_eq. cbv zeta.
  destruct (setupModes env (src_workspace source)) as [ modes | e ].
  - destruct (for_of (docs source) _ fresh_locals) as [[t l] r] eqn:Hloop.
    pose proof (loop_invariant _ _ _ _ _ _ _ _ _ Hloop) as (Hev & _ & Herr & _).
    pose proof (count_none is_console_error loop_event t loop_event_not_console Hev)
      as Hcons.
    assert (Hsum : forall p, p = is_print_error \/ p = is_console_error ->
                     count p (summary (src_failExit source) (totalErrors l)
                                (List.length (docs source))) = 0).
    { intros p [-> | ->]; unfold summary; now destruct (src_failExit source). }
    eexists; eexists; split; [ reflexivity | ].
    rewrite !count_app, !Hsum, Hcons by auto. cbn [fresh_locals hasError orb] in Herr.
    destruct r as [ [] | e ].
    + destruct (hasError l) eqn:Hl.
      * repeat split; auto; try discriminate.
        -- intros [Hp _]. cbn in Hp.
           destruct (count is_print_error t); [ discriminate | lia ].
        -- intros (modes' & Hm & Hq). injection Hm as <-.
           rewrite (loop_quiet _ _ _ _ _ _ Hq) in Hloop by reflexivity.
           triple Hloop. discriminate.
      * repeat split; auto.
        -- cbn. destruct (count is_print_error t); [ lia | discriminate ].
        -- exists modes. split; [ reflexivity | ].
           eapply loop_quiet_inv; eauto.
    + repeat split; auto; try discriminate.
      * intros [_ Hc]. cbn in Hc. lia.
      * intros (modes' & Hm & Hq). injection Hm as <-.
        rewrite (loop_quiet _ _ _ _ _ _ Hq) in Hloop by reflexivity.
        triple Hloop. discriminate.
  - eexists; eexists; split; [ reflexivity | ].
    repeat split; auto; try discriminate.
    + intros [_ Hc]. rewrite !count_app in Hc. cbn in Hc. lia.
    + intros (modes & Hm & _). discriminate.
Qed.

(** The exit code is computed from [hasError]. *)
Lemma getDiagnostics_hasError {S} (env : Env) (source : Source) (s : S) :
  exists t l code,
    getDiagnostics_body env source fresh_locals = (t, l, Ok code) /\
    getDiagnostics env source s = (t, s, Ok code) /\
    code = (if hasError l then 1 else 0).
Proof.
  unfold getDiagnostics, scoped. fold fresh_locals.
  unfold getDiagnostics_body, try_catch, bind, emit, call, get, put, ret.
  cbv zeta. simpl.
  destruct (setupModes env (src_workspace source)) as [ modes | e ]; simpl.
  - destruct (for_of (docs source) _ fresh_locals) as [[t l] [ [] | e ]]; simpl;
      destruct (src_failExit source); simpl; do 3 eexists; repeat split.
  - destruct (src_failExit source); simpl; do 3 eexists; repeat split.
Qed.

(** [getDiagnostics] touches no file, and the loop no cache. *)
Lemma getDiagnostics_no_file_events {S} (env : Env) (source : Source) (s s' : S)
    (t : Trace) (r : Result nat) :
  getDiagnostics env source s = (t, s', r) -> count is_file_event t = 0.
Proof.
  rewrite getDiagnostics_eq. cbv zeta.
  assert (Hsum : forall n k, count is_file_event (summary (src_failExit source) n k) = 0)
    by (intros n k; unfold summary; now destruct (src_failExit source)).
  destruct (setupModes env (src_workspace source)) as [ modes | e ].
  - destruct (for_of (docs source) _ fresh_locals) as [[t1 l] r1] eqn:Hloop.
    apply loop_invariant in Hloop as (Hev & _).
    intros H. triple H.
    rewrite !count_app, Hsum, (count_none _ _ _ loop_event_not_file Hev).
    now destruct r1.
  - intros H. triple H. now rewrite !count_app, Hsum.
Qed.

Lemma quiet_events_validated (modes : Modes) (onlyTemplate : bool)
    (l : list TextDocument) :
  validated (flat_map (quiet_events modes onlyTemplate) l) = l.
Proof.
  induction l as [ | doc l IH ]; [ reflexivity | ].
  cbn [flat_map]. unfold quiet_events at 1.
  rewrite !validated_app, producer_calls_validated, IH. reflexivity.
Qed.

Lemma quiet_events_no_stop_notice (modes : Modes) (onlyTemplate : bool)
    (l : list TextDocument) :
  count is_stop_notice (flat_map (quiet_events modes onlyTemplate) l) = 0.
Proof.
  rewrite (count_flat_map_const is_stop_notice _ 0); [ reflexivity | ].
  intros doc. unfold quiet_events.
  now rewrite count_app, producer_calls_no_stop_notice.
Qed.

(* ================================================================== *)
(** * [traverse] and [check], step by step *)

Lemma filterM_not_excluded (env : Env) (pattern : string) (targets : list string)
    (g : Globals) :
  filterM (not_excluded env pattern) targets g = ([], g, exclude env pattern targets).
Proof.
  unfold exclude.
  destruct targets as [ | x rest ]; [ reflexivity | ].
  destruct (RegExp_new env pattern) as [ re_test | e ] eqn:Hre.
  - generalize (x :: rest). intros l. induction l as [ | y l IH ]; [ reflexivity | ].
    cbn [filterM filter]. unfold bind at 1. unfold not_excluded at 1.
    unfold bind at 1, call, ret. rewrite Hre. cbn.
    unfold bind at 1. rewrite IH. cbn. now destruct (re_test y).
  - cbn [filterM]. unfold bind at 1. unfold not_excluded at 1.
    unfold bind at 1, call. now rewrite Hre.
Qed.

Lemma Promise_all_read (env : Env) (targets : list string) (g : Globals) :
  Promise_all (rejectsFirst env) (map (read_record env) targets) g
  = (map ReadFile targets, g, read_records env targets).
Proof.
  induction targets as [ | x rest IH ]; [ reflexivity | ].
  cbn [map Promise_all read_records].
  unfold read_record at 1. unfold bind, emit, call, ret.
  destruct (readFile env x) as [ src | e ]; cbn; rewrite IH;
    destruct (read_records env rest); reflexivity.
Qed.

Lemma traverse_eq (env : Env) (root : string) (onlyTypeScript : bool)
    (changedFiles : list string) (excludeDirs : option (list string)) (g : Globals) :
  traverse env root onlyTypeScript changedFiles excludeDirs g =
  let '(t0, targets) := candidates env root onlyTypeScript changedFiles g in
  match select env excludeDirs targets with
  | Throw e => (t0, g, Throw e)
  | Ok selected =>
      (t0 ++ map ReadFile selected, g,
       match read_records env selected with
       | Ok records =>
           Ok (map create_document
                 (if onlyTypeScript then filter keep_typescript records else records))
       | Throw e => Throw e
       end)
  end.
Proof.
  unfold traverse, candidates, select, bind, ret, get, emit.
  destruct changedFiles as [ | f fs ], excludeDirs as [ dirs | ];
    rewrite ?filterM_not_excluded;
    try (destruct (exclude env _ _) as [ selected | e ]; [ | reflexivity ]);
    rewrite Promise_all_read;
    match goal with
    | |- context [ read_records env ?l ] => destruct (read_records env l)
    end;
    cbn; rewrite ?app_nil_r; reflexivity.
Qed.

(** [traverse] only scans and reads. *)
Lemma traverse_file_events (env : Env) (root : string) (onlyTypeScript : bool)
    (changedFiles : list string) (excludeDirs : option (list string))
    (g g' : Globals) (t : Trace) (r : Result (list TextDocument)) :
  traverse env root onlyTypeScript changedFiles excludeDirs g = (t, g', r) ->
  forallb is_file_event t = true /\ g' = g.
Proof.
  rewrite traverse_eq. unfold candidates.
  assert (Hreads : forall l, forallb is_file_event (map ReadFile l) = true)
    by (induction l; cbn; auto).
  destruct changedFiles; destruct (select env excludeDirs _);
    intros H; triple H; cbn; auto.
Qed.

Lemma candidates_explicit (env : Env) (root : string) (onlyTypeScript : bool)
    (first : string) (others : list string) (g : Globals) :
  candidates env root onlyTypeScript (first :: others) g = ([], first :: others).
Proof. reflexivity. Qed.

Lemma candidates_loaded (env : Env) (root : string) (onlyTypeScript : bool)
    (changedFiles : list string) (g : Globals) :
  loaded (fst (candidates env root onlyTypeScript changedFiles g)) = [].
Proof. unfold candidates. now destruct changedFiles. Qed.

Lemma read_records_paths (env : Env) (selected : list string) :
  forall records,
    read_records env selected = Ok records ->
    map absFilePath records = selected.
Proof.
  induction selected as [ | p selected IH ]; cbn; intros records H.
  - now injection H as <-.
  - destruct (readFile env p) as [ src | e ]; [ | discriminate ].
    destruct (read_records env selected) as [ rs | e ]; [ | discriminate ].
    injection H as <-. cbn. now rewrite (IH rs eq_refl).
Qed.

Lemma read_records_ok (env : Env) (targets : list string) :
  Forall (fun x => exists src, readFile env x = Ok src) targets ->
  exists records, read_records env targets = Ok records.
Proof.
  induction 1 as [ | x rest (src & Hx) _ (records & IH) ]; cbn [read_records].
  - now exists [].
  - rewrite Hx, IH. eauto.
Qed.

(** One unreadable file among readable ones: its error is the reason. *)
Lemma read_records_throw (env : Env) (pre post : list string) (p : string) (e : Error) :
  Forall (fun x => exists src, readFile env x = Ok src) pre ->
  readFile env p = Throw e ->
  Forall (fun x => exists src, readFile env x = Ok src) post ->
  read_records env (pre ++ p :: post) = Throw e.
Proof.
  intros Hpre Hp Hpost. induction Hpre as [ | x pre (src & Hx) _ IH ]; cbn.
  - rewrite Hp. now destruct (read_records_ok env post Hpost) as [records ->].
  - now rewrite Hx, IH.
Qed.

(** Unreadable files: the reason is the error of one of them. *)
Lemma read_records_throw_some (env : Env) (targets : list string) :
  Exists (fun x => exists e, readFile env x = Throw e) targets ->
  exists p e,
    In p targets /\ readFile env p = Throw e /\ read_records env targets = Throw e.
Proof.
  induction targets as [ | x rest IH ]; intros H; [ inversion H | ].
  cbn [read_records].
  destruct (readFile env x) as [ src | e ] eqn:Hx.
  - inversion H as [ ? ? (e & He) | ? ? Hrest ]; subst; [ congruence | ].
    destruct (IH Hrest) as (p & e & Hin & Hp & ->).
    exists p, e. split; [ now right | now split ].
  - destruct (read_records env rest) as [ records | e' ] eqn:Hrest.
    + exists x, e. split; [ now left | now split ].
    + destruct (rejectsFirst env e e').
      * exists x, e. split; [ now left | now split ].
      * assert (Hex : Exists (fun x => exists e, readFile env x = Throw e) rest).
        { clear - Hrest. revert e' Hrest.
          induction rest as [ | y rest IH ]; intros e' Hrest; [ discriminate | ].
          cbn [read_records] in Hrest.
          destruct (readFile env y) as [ src | ey ] eqn:Hy.
          - destruct (read_records env rest) as [ rs | er ]; [ discriminate | ].
            right. now apply (IH er).
          - left. eauto. }
        destruct (IH Hex) as (p & e0 & Hin & Hp & Heq).
        exists p, e0. split; [ now right | ]. split; [ exact Hp | ]. congruence.
Qed.

Lemma created_for_records (env : Env) (selected : list string) :
  forall records,
    read_records env selected = Ok records ->
    Forall2 created_for selected (map create_document records).
Proof.
  induction selected as [ | p selected IH ]; cbn; intros records H.
  - injection H as <-. constructor.
  - destruct (readFile env p) as [ src | e ]; [ | discriminate ].
    destruct (read_records env selected) as [ rs | e ]; [ | discriminate ].
    injection H as <-. cbn [map]. constructor; [ reflexivity | now apply IH ].
Qed.

Lemma create_document_injective (f f' : FileRecord) :
  create_document f = create_document f' -> f = f'.
Proof.
  destruct f as [p e s], f' as [p' e' s']. unfold create_document. cbn.
  intros H. injection H as Hp He Hs. now subst.
Qed.

(** What [traverse] returns, when it returns: the documents of the records
    read for the selected candidates. *)
Lemma traverse_ok (env : Env) (root : string) (onlyTypeScript : bool)
    (changedFiles : list string) (excludeDirs : option (list string))
    (g g' : Globals) (t : Trace) (documents : list TextDocument) :
  traverse env root onlyTypeScript changedFiles excludeDirs g = (t, g', Ok documents) ->
  exists selected records,
    select env excludeDirs
      (snd (candidates env root onlyTypeScript changedFiles g)) = Ok selected /\
    read_records env selected = Ok records /\
    loaded t = selected /\
    documents
    = map create_document
        (if onlyTypeScript then filter keep_typescript records else records).
Proof.
  rewrite traverse_eq.
  pose proof (candidates_loaded env root onlyTypeScript changedFiles g) as Ht0.
  destruct (candidates env root onlyTypeScript changedFiles g) as [t0 cands].
  cbn [fst snd] in *.
  destruct (select env excludeDirs cands) as [ selected | e ] eqn:Hsel;
    [ | intros H; triple H; discriminate ].
  destruct (read_records env selected) as [ records | e ] eqn:Hread;
    [ | intros H; triple H; discriminate ].
  intros H. apply pair_equal_spec in H as [H Hdocs].
  apply pair_equal_spec in H as [Ht _]. injection Hdocs as <-. subst t.
  exists selected, records.
  split; [ reflexivity | split; [ exact Hread | split; [ | reflexivity ] ] ].
  now rewrite loaded_app, Ht0, loaded_reads.
Qed.

Lemma check_eq (env : Env) (options : Options) (g : Globals) :
  check env options g =
  match traverse env (opt_srcDir options) (opt_onlyTypeScript options)
          (opt_files options) (opt_excludeDirs options) (globals_in_check options g)
  with
  | (t0, g', Throw e) => (t0, g', Throw e)
  | (t0, g', Ok docs) =>
      let '(t1, _, r) := getDiagnostics env (source_of options docs) g' in
      (t0 ++ t1, g', r)
  end.
Proof.
  unfold check, globals_in_check.
  destruct (opt_onlyTypeScript options); unfold bind, put, ret; cbn;
    destruct (traverse env _ _ _ _ _) as [[t0 g'] [ docs | e ]]; try reflexivity.
  all: rewrite getDiagnostics_eq; cbv zeta;
    destruct (setupModes env _); [ destruct (for_of _ _ _) as [[? ?] ?] | ];
    reflexivity.
Qed.

(* ================================================================== *)
(** * The matcher and what an expression matches *)

Import RegExp.

Lemma star_loop_mono (mr : cont -> cont) :
  monotone mr ->
  forall k1 k2 : cont,
    (forall b t, k1 b t = true -> k2 b t = true) ->
    forall n n', n <= n' ->
    forall b t, star_loop mr k1 n b t = true -> star_loop mr k2 n' b t = true.
Proof.
  intros Hmr k1 k2 Hk. induction n as [ | n IH ]; intros n' Hn b t H.
  - cbn in H. apply Hk in H. destruct n'; cbn; [ exact H | ].
    rewrite H. apply orb_true_r.
  - destruct n' as [ | n' ]; [ lia | ]. cbn [star_loop] in H |- *.
    apply orb_true_iff in H as [ H | H ]; apply orb_true_iff.
    + left. revert H. apply Hmr. intros b' t'.
      destruct (Nat.ltb (List.length t') (List.length t)); [ | trivial ].
      apply IH. lia.
    + right. now apply Hk.
Qed.

Lemma m_mono (r : regex) : monotone (m r).
Proof.
  induction r as [ | c | | | | r1 IH1 r2 IH2 | r1 IH1 r2 IH2 | r IH ];
    intros k1 k2 Hk b s; cbn [m].
  - apply Hk.
  - destruct s as [ | x s ]; [ trivial | ]. destruct (N.eqb c x); auto.
  - destruct s as [ | x s ]; [ trivial | ]. destruct (is_line_terminator x); auto.
  - destruct b; auto.
  - destruct s; auto.
  - apply IH1. intros b' t'. now apply IH2.
  - rewrite !orb_true_iff. intros [ H | H ]; [ left | right ].
    + revert H. now apply IH1.
    + revert H. now apply IH2.
  - now apply star_loop_mono.
Qed.

Lemma at_start_nil (b : bool) : at_start b [] = b.
Proof. apply andb_true_r. Qed.

Lemma at_start_app (b : bool) (w1 w2 : list N) :
  at_start b (w1 ++ w2) = at_start (at_start b w1) w2.
Proof. destruct b, w1, w2; reflexivity. Qed.

Lemma at_start_cons (b : bool) (x : N) (w : list N) :
  at_start b (x :: w) = false.
Proof. apply andb_false_r. Qed.

Lemma star_loop_sound (mr : cont -> cont) (P : bool -> list N -> list N -> Prop)
    (k : cont) :
  (forall (k' : cont) b s,
      mr k' b s = true ->
      exists w rest, s = w ++ rest /\ P b w rest /\ k' (at_start b w) rest = true) ->
  forall n b s,
    star_loop mr k n b s = true ->
    exists w rest, s = w ++ rest /\ iter P b w rest /\ k (at_start b w) rest = true.
Proof.
  intros Hmr. induction n as [ | n IH ]; intros b s H.
  - exists [], s. rewrite at_start_nil. repeat split; [ constructor | exact H ].
  - cbn [star_loop] in H. apply orb_true_iff in H as [ H | H ].
    + apply Hmr in H as (w1 & rest1 & -> & Hw1 & H).
      destruct (Nat.ltb (List.length rest1) (List.length (w1 ++ rest1))) eqn:Hlt;
        [ | discriminate ].
      apply Nat.ltb_lt in Hlt. rewrite length_app in Hlt.
      assert (Hne : w1 <> []) by (intros ->; cbn in Hlt; lia).
      assert (Hb : at_start b w1 = false) by (destruct w1; [ congruence | apply at_start_cons ]).
      rewrite Hb in H.
      apply IH in H as (w2 & rest & -> & Hw2 & H).
      exists (w1 ++ w2), rest. rewrite <- app_assoc.
      split; [ reflexivity | ]. split; [ now constructor | ].
      now rewrite at_start_app, Hb.
    + exists [], s. rewrite at_start_nil. repeat split; [ constructor | exact H ].
Qed.

(** Every answer [true] of the matcher comes from a match. *)
Lemma m_sound (r : regex) :
  forall (k : cont) b s,
    m r k b s = true ->
    exists w rest, s = w ++ rest /\ denote r b w rest /\ k (at_start b w) rest = true.
Proof.
  induction r as [ | c | | | | r1 IH1 r2 IH2 | r1 IH1 r2 IH2 | r IH ];
    intros k b s H; cbn [m] in H.
  - exists [], s. rewrite at_start_nil. now repeat split.
  - destruct s as [ | x s ]; [ discriminate | ].
    destruct (N.eqb c x) eqn:Hc; [ | discriminate ].
    apply N.eqb_eq in Hc as <-.
    exists [c], s. rewrite at_start_cons. now repeat split.
  - destruct s as [ | x s ]; [ discriminate | ].
    destruct (is_line_terminator x) eqn:Hx; [ discriminate | ].
    exists [x], s. rewrite at_start_cons. repeat split; eauto. cbn. eauto.
  - destruct b; [ | discriminate ].
    exists [], s. now repeat split.
  - destruct s; [ | discriminate ].
    exists [], []. rewrite at_start_nil. now repeat split.
  - apply IH1 in H as (w1 & rest1 & -> & Hw1 & H).
    apply IH2 in H as (w2 & rest & -> & Hw2 & H).
    exists (w1 ++ w2), rest. rewrite <- app_assoc, at_start_app.
    split; [ reflexivity | ]. split; [ | exact H ].
    cbn. now exists w1, w2.
  - apply orb_true_iff in H as [ H | H ].
    + apply IH1 in H as (w & rest & -> & Hw & H).
      exists w, rest. repeat split; auto. now left.
    + apply IH2 in H as (w & rest & -> & Hw & H).
      exists w, rest. repeat split; auto. now right.
  - apply (star_loop_sound (m r) (denote r) k IH) in H. exact H.
Qed.

Lemma star_loop_continue (mr : cont -> cont) (k : cont) (n : nat) (b : bool)
    (s : list N) :
  k b s = true -> star_loop mr k n b s = true.
Proof. intros H. destruct n; cbn; [ exact H | ]. rewrite H. apply orb_true_r. Qed.

(** Every match makes the matcher answer [true]. *)
Lemma m_complete (r : regex) :
  forall b w rest,
    denote r b w rest ->
    forall k : cont, k (at_start b w) rest = true -> m r k b (w ++ rest) = true.
Proof.
  induction r as [ | c | | | | r1 IH1 r2 IH2 | r1 IH1 r2 IH2 | r IH ];
    intros b w rest Hw k Hk; cbn [denote] in Hw; cbn [m].
  - subst w. now rewrite at_start_nil in Hk.
  - subst w. cbn. rewrite N.eqb_refl. now rewrite at_start_cons in Hk.
  - destruct Hw as (x & -> & Hx). cbn. rewrite Hx. now rewrite at_start_cons in Hk.
  - destruct Hw as (-> & ->). exact Hk.
  - destruct Hw as (-> & ->). now rewrite at_start_nil in Hk.
  - destruct Hw as (w1 & w2 & -> & Hw1 & Hw2). rewrite <- app_assoc.
    apply IH1; [ exact Hw1 | ]. apply IH2; [ exact Hw2 | ].
    now rewrite <- at_start_app.
  - apply orb_true_iff. destruct Hw as [ Hw | Hw ]; [ left | right ].
    + now apply IH1.
    + now apply IH2.
  - revert k Hk. induction Hw as [ b rest | b w1 w2 rest Hne Hw1 _ IHiter ];
      intros k Hk.
    + rewrite at_start_nil in Hk. now apply star_loop_continue.
    + assert (Hb : at_start b w1 = false)
        by (destruct w1; [ congruence | apply at_start_cons ]).
      rewrite at_start_app, Hb in Hk.
      specialize (IHiter k Hk).
      rewrite <- app_assoc.
      destruct (List.length (w1 ++ w2 ++ rest)) as [ | n ] eqn:Hlen.
      { destruct w1; [ congruence | discriminate ]. }
      cbn [star_loop]. apply orb_true_iff. left.
      apply IH; [ exact Hw1 | ].
      assert (Hlt : List.length (w2 ++ rest) < List.length (w1 ++ w2 ++ rest)).
      { rewrite (length_app w1). destruct w1; [ congruence | cbn; lia ]. }
      rewrite (proj2 (Nat.ltb_lt _ _) Hlt), Hb.
      revert IHiter. apply star_loop_mono; auto using m_mono. lia.
Qed.

(** [test] finds a match somewhere in the string. *)
Lemma search_correct (r : regex) (s : list N) :
  forall b,
    search r b s = true <->
    exists pre w rest, s = pre ++ w ++ rest /\ denote r (at_start b pre) w rest.
Proof.
  induction s as [ | x s IH ]; intros b; cbn [search]; rewrite orb_true_iff; split.
  - intros [ H | H ]; [ | discriminate ].
    apply m_sound in H as (w & rest & -> & Hw & _).
    exists [], w, rest. now rewrite at_start_nil.
  - intros (pre & w & rest & Hs & Hw).
    destruct pre; [ | discriminate ]. cbn in Hs. rewrite at_start_nil in Hw.
    left. rewrite Hs. now apply m_complete.
  - intros [ H | H ].
    + apply m_sound in H as (w & rest & -> & Hw & _).
      exists [], w, rest. now rewrite at_start_nil.
    + apply IH in H as (pre & w & rest & -> & Hw).
      exists (x :: pre), w, rest. now rewrite at_start_cons.
  - intros (pre & w & rest & Hs & Hw). destruct pre as [ | y pre ].
    + cbn in Hs. rewrite at_start_nil in Hw. left. rewrite Hs. now apply m_complete.
    + injection Hs as <- ->. right. apply IH.
      exists pre, w, rest. now rewrite at_start_cons in Hw.
Qed.

Lemma test_correct (r : regex) (s : string) :
  test r s = true <->
  exists pre w rest, s = pre ++ w ++ rest /\ denote r (at_start true pre) w rest.
Proof. unfold test. apply search_correct. Qed.

(* ================================================================== *)
(** * The three literals *)

Lemma literals_parse :
  RegExp.parse hasScriptTag_source = Parsed hasScriptTag_re /\
  RegExp.parse isTs_source = Parsed isTs_re /\
  RegExp.parse isImportOtherTs_source = Parsed isImportOtherTs_re.
Proof. repeat split. Qed.

Lemma denote_chars_then (word : list N) (r : regex) :
  forall b w rest,
    denote (chars_then word r) b w rest <->
    exists w', w = word ++ w' /\ denote r (at_start b word) w' rest.
Proof.
  induction word as [ | c word IH ]; intros b w rest.
  - cbn [chars_then map fold_right app]. rewrite at_start_nil. split.
    + intros H. now exists w.
    + now intros (w' & -> & H).
  - change (chars_then (c :: word) r) with (Seq (Chr c) (chars_then word r)).
    cbn [denote]. split.
    + intros (w1 & w2 & -> & -> & H). rewrite at_start_cons in H.
      apply IH in H as (w' & -> & H).
      exists w'. split; [ reflexivity | ]. now rewrite at_start_cons.
    + intros (w' & -> & H). rewrite at_start_cons in H.
      exists [c], (word ++ w'). split; [ reflexivity | ]. split; [ reflexivity | ].
      rewrite at_start_cons. apply IH. now exists w'.
Qed.

Lemma denote_star_dot (w : list N) :
  forall b rest, denote (Star Dot) b w rest <-> one_line w = true.
Proof.
  intros b rest. cbn [denote]. split.
  - induction 1 as [ | b w1 w2 rest _ (x & -> & Hx) _ IH ]; [ reflexivity | ].
    cbn. now rewrite Hx.
  - revert b. induction w as [ | x w IH ]; intros b H; [ constructor | ].
    cbn in H. apply andb_true_iff in H as [Hx Hw]. apply negb_true_iff in Hx.
    apply (@iter_more (denote Dot) b [x] w rest); [ discriminate | | now apply IH ].
    cbn. eauto.
Qed.

Lemma denote_dots_then (r : regex) (b : bool) (w rest : list N) :
  denote (Seq (Star Dot) r) b w rest <->
  exists l w', w = l ++ w' /\ one_line l = true /\ denote r (at_start b l) w' rest.
Proof.
  change (denote (Seq (Star Dot) r) b w rest)
    with (exists w1 w2,
             w = w1 ++ w2 /\ denote (Star Dot) b w1 (w2 ++ rest)
             /\ denote r (at_start b w1) w2 rest).
  split; intros (l & w' & -> & Hl & H); exists l, w';
    (split; [ reflexivity | split; [ | exact H ] ]).
  - now apply denote_star_dot in Hl.
  - now apply denote_star_dot.
Qed.

Lemma denote_optional_x_then (r : regex) (b : bool) (w rest : list N) :
  denote (Seq (Alt (Chr (ch "x")) Empty) r) b w rest <->
  exists x w', w = x ++ w' /\ (x = [] \/ x = js "x") /\ denote r (at_start b x) w' rest.
Proof.
  cbn [denote]. split.
  - intros (x & w' & -> & [ -> | -> ] & H).
    + exists (js "x"), w'. auto.
    + exists [], w'. auto.
  - intros (x & w' & -> & [ -> | -> ] & H).
    + exists [], w'. auto.
    + exists (js "x"), w'. split; [ reflexivity | ]. split; [ now left | exact H ].
Qed.

Lemma hasScriptTag_re_shape :
  hasScriptTag_re
  = Seq (Star Dot)
      (chars_then (js "<script") (Seq (Star Dot) (chars_then (js ">") Empty))).
Proof. reflexivity. Qed.

Lemma isTs_re_shape :
  isTs_re
  = Seq (Star Dot)
      (chars_then (js "<script")
         (Seq (Star Dot)
            (chars_then (js "lang=" ++ quote ++ js "ts")
               (Seq (Alt (Chr (ch "x")) Empty)
                  (chars_then quote
                     (Seq (Star Dot) (chars_then (js ">") Empty))))))).
Proof. reflexivity. Qed.

Lemma isImportOtherTs_re_shape :
  isImportOtherTs_re
  = Seq (Star Dot)
      (chars_then (js "<script")
         (Seq (Star Dot)
            (chars_then (js "src=" ++ quote)
               (Seq (Star Dot)
                  (chars_then quote
                     (Seq (Star Dot) (chars_then (js ">") Empty))))))).
Proof. reflexivity. Qed.

(** Takes a hypothesis about one of the three literals apart. *)
Ltac take_apart :=
  repeat match goal with
    | H : denote (Seq (Star Dot) _) _ _ _ |- _ =>
        let l := fresh "l" in
        let Hl := fresh "Hl" in
        apply denote_dots_then in H as (l & ? & -> & Hl & H)
    | H : denote (chars_then _ _) _ _ _ |- _ =>
        apply denote_chars_then in H as (? & -> & H)
    | H : denote (Seq (Alt (Chr (ch "x")) Empty) _) _ _ _ |- _ =>
        let x := fresh "x" in
        let Hx := fresh "Hx" in
        apply denote_optional_x_then in H as (x & ? & -> & Hx & H)
    | H : denote Empty _ _ _ |- _ => cbn [denote] in H; subst
    end.

(** Puts a match of one of the three literals together. *)
Ltac put_together :=
  repeat first
    [ apply denote_dots_then; do 2 eexists;
      split; [ reflexivity | split; [ eassumption || reflexivity | ] ]
    | apply denote_chars_then; eexists; split; [ reflexivity | ]
    | apply denote_optional_x_then; do 2 eexists;
      split; [ reflexivity | split; [ eassumption | ] ]
    | reflexivity ].

Lemma hasScriptTag_spec (src : string) :
  hasScriptTag src = true <-> has_script_tag src.
Proof.
  unfold hasScriptTag, has_script_tag. rewrite test_correct, hasScriptTag_re_shape.
  split.
  - intros (pre & w & rest & Hs & H). take_apart.
    exists (pre ++ l), l0, rest. split; [ | assumption ].
    subst; rewrite <- !app_assoc; reflexivity.
  - intros (a & l & b & Hs & Hl).
    exists a, ([] ++ js "<script" ++ l ++ js ">" ++ []), b.
    split; [ subst; rewrite <- !app_assoc; reflexivity | ].
    put_together.
Qed.

Lemma isTs_spec (src : string) :
  isTs src = true <-> has_typescript_tag src.
Proof.
  unfold isTs, has_typescript_tag. rewrite test_correct, isTs_re_shape.
  split.
  - intros (pre & w & rest & Hs & H). take_apart.
    exists (pre ++ l), l0, x, l1, rest.
    split; [ | now repeat split ].
    subst; rewrite <- !app_assoc; reflexivity.
  - intros (a & l1 & x & l2 & b & Hs & Hx & Hl1 & Hl2).
    exists a, ([] ++ js "<script" ++ l1 ++ (js "lang=" ++ quote ++ js "ts")
                ++ x ++ quote ++ l2 ++ js ">" ++ []), b.
    split; [ subst; rewrite <- !app_assoc; reflexivity | ].
    put_together.
Qed.

Lemma isImportOtherTs_spec (src : string) :
  isImportOtherTs src = true <-> has_external_script_tag src.
Proof.
  unfold isImportOtherTs, has_external_script_tag.
  rewrite test_correct, isImportOtherTs_re_shape.
  split.
  - intros (pre & w & rest & Hs & H). take_apart.
    exists (pre ++ l), l0, l1, l2, rest.
    split; [ | now repeat split ].
    subst; rewrite <- !app_assoc; reflexivity.
  - intros (a & l1 & v & l2 & b & Hs & Hl1 & Hv & Hl2).
    exists a, ([] ++ js "<script" ++ l1 ++ (js "src=" ++ quote)
                ++ v ++ quote ++ l2 ++ js ">" ++ []), b.
    split; [ subst; rewrite <- !app_assoc; reflexivity | ].
    put_together.
Qed.

(* ================================================================== *)
(** * Patterns made of text *)

Lemma plain_not_special (c : N) :
  plain c = true ->
  N.eqb c (ch "(") = false /\ N.eqb c (ch ")") = false /\ N.eqb c (ch "|") = false /\
  N.eqb c (ch "*") = false /\ N.eqb c (ch "+") = false /\ N.eqb c (ch "?") = false /\
  N.eqb c (ch ".") = false /\ N.eqb c (ch "^") = false /\ N.eqb c (ch "$") = false /\
  N.eqb c (ch "\") = false /\ is_syntax_char c = false.
Proof.
  unfold plain. intros H%negb_true_iff. pose proof H as H'.
  unfold is_syntax_char in H'. cbn [existsb map] in H'.
  repeat match type of H' with
         | (_ || _)%bool = false => apply orb_false_iff in H' as [? H']
         end.
  repeat split; assumption.
Qed.

Lemma parse_go_textual_char (c : N) (rest : list N) (stack : list frame)
    (top : frame) (last : last_term) :
  textual c = true ->
  parse_go (c :: rest) stack top last
  = parse_go rest stack (push_term (atom c) top) Atom.
Proof.
  unfold textual, atom. destruct (N.eqb c (ch ".")) eqn:Hdot.
  - apply N.eqb_eq in Hdot as ->. reflexivity.
  - rewrite orb_false_r.
    intros (H1 & H2 & H3 & H4 & H5 & H6 & H7 & H8 & H9 & H10 & H11)%plain_not_special.
    cbn [parse_go]. unfold is_char.
    now rewrite H1, H2, H3, H4, H5, H6, H7, H8, H9, H10, H11.
Qed.

Lemma parse_go_text (w rest : list N) (stack : list frame) :
  forallb textual w = true ->
  forall alternatives terms last,
    parse_go (w ++ rest) stack (Frame alternatives terms) last
    = parse_go rest stack (Frame alternatives (rev (map atom w) ++ terms))
        (match w with [] => last | _ :: _ => Atom end).
Proof.
  induction w as [ | c w IH ]; intros Hw alternatives terms last; [ reflexivity | ].
  cbn [forallb] in Hw. apply andb_true_iff in Hw as [Hc Hw].
  cbn [app]. rewrite parse_go_textual_char by assumption.
  unfold push_term. cbn [alts cur]. rewrite IH by assumption.
  cbn [map rev]. rewrite <- app_assoc. cbn [app].
  now destruct w.
Qed.

Lemma lit_rev_rev (w : list N) : seq_of (rev (rev (map atom w))) = lit w.
Proof. now rewrite rev_involutive. Qed.

Lemma parse_go_alternatives (entries : list string) (rest : list N)
    (stack : list frame) :
  entries <> [] ->
  Forall (fun e => dotted_text e = true) entries ->
  forall alternatives,
    parse_go ((Str.join (js "|") entries) ++ rest) stack
      (Frame alternatives []) NoTerm
    = parse_go rest stack
        (Frame (rev (map (fun e => lit e) (removelast entries))
                ++ alternatives)
           (rev (map atom (last entries []))))
        (match (last entries []) with
         | [] => NoTerm
         | _ :: _ => Atom
         end).
Proof.
  intros Hne Htext. induction Htext as [ | x entries Hx Hrest IH ];
    [ congruence | ]. intros alternatives.
  destruct entries as [ | y entries ].
  - cbn [Str.join removelast last map rev app].
    rewrite parse_go_text by exact Hx. now rewrite app_nil_r.
  - change (Str.join (js "|") (x :: y :: entries))
      with (x ++ js "|" ++ Str.join (js "|") (y :: entries)).
    rewrite <- !app_assoc.
    rewrite parse_go_text by exact Hx. rewrite app_nil_r.
    change ((js "|") ++ ?a) with ((ch "|") :: a).
    assert (Hbar : forall p st top l,
               parse_go ((ch "|") :: p) st top l
               = parse_go p st (Frame (seq_of (rev (cur top)) :: alts top) []) NoTerm)
      by reflexivity.
    rewrite Hbar. cbn [cur alts]. rewrite lit_rev_rev.
    rewrite IH by discriminate.
    change (removelast (x :: y :: entries)) with (x :: removelast (y :: entries)).
    change (last (x :: y :: entries) []) with (last (y :: entries) []).
    cbn [map rev]. now rewrite <- app_assoc.
Qed.

Lemma close_alternatives (entries : list string) :
  close_frame
    (Frame (rev (map (fun e => lit e) (removelast entries)) ++ [])
       (rev (map atom (last entries []))))
  = disjunction entries.
Proof.
  unfold close_frame, disjunction. cbn [alts cur].
  rewrite app_nil_r, lit_rev_rev.
  generalize (lit (last entries [])) as final.
  generalize (map (fun e => lit e) (removelast entries)) as l.
  intros l final. rewrite <- (rev_involutive l) at 2.
  now rewrite fold_left_rev_right.
Qed.

(** The exclusion pattern over texts parses, to [exclusion_regex]. *)
Lemma parse_exclusion (entries : list string) :
  entries <> [] ->
  Forall (fun e => dotted_text e = true) entries ->
  parse (js "^(?:" ++ Str.join (js "|") entries ++ js ").*$")
  = Parsed (exclusion_regex entries).
Proof.
  intros Hne Htext. unfold parse.
  change (js "^(?:") with [ch "^"; ch "("; ch "?"; ch ":"].
  cbn [app].
  assert (Hopen : forall p,
             parse_go (ch "^" :: ch "(" :: ch "?" :: ch ":" :: p) [] empty_frame NoTerm
             = parse_go p [Frame [] [Bol]] (Frame [] []) NoTerm) by reflexivity.
  rewrite Hopen, (parse_go_alternatives entries _ _ Hne Htext).
  change (js ").*$") with [ch ")"; ch "."; ch "*"; ch "$"].
  assert (Hclose : forall top l,
             parse_go [ch ")"; ch "."; ch "*"; ch "$"] [Frame [] [Bol]] top l
             = Parsed (Seq Bol (Seq (close_frame top)
                                  (Seq (Star Dot) (Seq Eol Empty))))) by reflexivity.
  rewrite Hclose, close_alternatives. reflexivity.
Qed.

Lemma m_lit (w : list N) (k : cont) :
  forall b s,
    m (lit w) k b s =
    match strip_wild w s with
    | Some rest => k (match w with [] => b | _ :: _ => false end) rest
    | None => false
    end.
Proof.
  induction w as [ | c w IH ]; intros b s; [ reflexivity | ].
  change (lit (c :: w)) with (Seq (atom c) (lit w)).
  cbn [m strip_wild]. unfold atom.
  destruct s as [ | x s ]; [ now destruct (N.eqb c (ch ".")) | ].
  destruct (N.eqb c (ch ".")); cbn [m].
  - destruct (is_line_terminator x); [ reflexivity | ].
    rewrite IH. destruct (strip_wild w s); [ | reflexivity ]. now destruct w.
  - destruct (N.eqb c x); [ | reflexivity ].
    rewrite IH. destruct (strip_wild w s); [ | reflexivity ]. now destruct w.
Qed.

Lemma m_disjunction (entries : list string) (k : cont) (b : bool) (s : list N) :
  entries <> [] ->
  m (disjunction entries) k b s
  = existsb (fun e => m (lit e) k b s) entries.
Proof.
  intros Hne. unfold disjunction.
  induction entries as [ | x entries IH ]; [ congruence | ].
  destruct entries as [ | y entries ].
  - cbn. now rewrite orb_false_r.
  - change (removelast (x :: y :: entries)) with (x :: removelast (y :: entries)).
    change (last (x :: y :: entries) []) with (last (y :: entries) []).
    cbn [map fold_right m existsb]. now rewrite IH by discriminate.
Qed.

(** [.*$] accepts what is left exactly when no line terminator is left. *)
Lemma star_dot_at_end (fuel : nat) :
  forall b s,
    List.length s <= fuel ->
    star_loop (m Dot) at_end fuel b s = one_line s.
Proof.
  induction fuel as [ | fuel IH ]; intros b s Hlen.
  - destruct s; [ reflexivity | cbn in Hlen; lia ].
  - destruct s as [ | x s ]; [ reflexivity | ].
    cbn [star_loop m one_line forallb List.length].
    destruct (is_line_terminator x); [ reflexivity | ].
    assert (Hlt : Nat.ltb (List.length s) (S (List.length s)) = true)
      by (apply Nat.ltb_lt; lia).
    rewrite Hlt, IH by (cbn in Hlen; lia).
    cbn. now rewrite orb_false_r.
Qed.

Lemma search_anchored (r : regex) (s : list N) :
  search (Seq Bol r) false s = false.
Proof. induction s as [ | x s IH ]; cbn; [ reflexivity | exact IH ]. Qed.

Lemma test_anchored (r : regex) (s : string) :
  test (Seq Bol r) s = m r accept true s.
Proof.
  unfold test. destruct s as [ | x cs ]; cbn.
  - now rewrite orb_false_r.
  - now rewrite search_anchored, orb_false_r.
Qed.

(** The exclusion pattern over texts: some entry matches the start of the
    target, and the target has no line terminator after it. *)
Lemma test_exclusion (entries : list string) (target : string) :
  entries <> [] ->
  test (exclusion_regex entries) target
  = existsb (fun e => matches_on_line e target) entries.
Proof.
  intros Hne. unfold exclusion_regex. rewrite test_anchored.
  cbn [m]. rewrite m_disjunction by assumption.
  induction entries as [ | e entries IH ]; [ reflexivity | ].
  cbn [existsb]. f_equal.
  - rewrite m_lit. unfold matches_on_line.
    destruct (strip_wild _ _) as [ rest | ]; [ | reflexivity ].
    apply (star_dot_at_end (List.length rest)). lia.
  - destruct entries; [ reflexivity | ]. apply IH. discriminate.
Qed.

(** A dot in the pattern also matches a dot: a literal prefix is matched. *)
Lemma strip_prefix_wild (p a : list N) :
  forall rest, Str.strip_prefix p a = Some rest -> strip_wild p a = Some rest.
Proof.
  revert a. induction p as [ | c p IH ]; intros a rest; [ trivial | ].
  destruct a as [ | x a ]; [ discriminate | ]. cbn [Str.strip_prefix strip_wild].
  destruct (N.eqb c x) eqn:Hcx; [ | discriminate ].
  apply N.eqb_eq in Hcx as <-.
  destruct (N.eqb c (ch ".")) eqn:Hdot; [ | apply IH ].
  apply N.eqb_eq in Hdot as ->. apply IH.
Qed.

(** Without a dot the pattern is matched by a literal prefix only. *)
Lemma strip_wild_plain (p : list N) :
  forallb plain p = true ->
  forall a, strip_wild p a = Str.strip_prefix p a.
Proof.
  induction p as [ | c p IH ]; intros Hp a; [ reflexivity | ].
  cbn [forallb] in Hp. apply andb_true_iff in Hp as [Hc Hp].
  destruct a as [ | x a ]; [ reflexivity | ]. cbn [Str.strip_prefix strip_wild].
  apply plain_not_special in Hc as (_ & _ & _ & _ & _ & _ & -> & _).
  now rewrite IH.
Qed.

Lemma prefix_is_matched (p t : string) :
  prefix_on_line p t = true -> matches_on_line p t = true.
Proof.
  unfold prefix_on_line, matches_on_line.
  destruct (Str.strip_prefix _ _) as [ rest | ] eqn:H; [ | discriminate ].
  now rewrite (strip_prefix_wild _ _ _ H).
Qed.

Lemma RegExp_new_exclusion (env : Env) (entries : list string) :
  entries <> [] ->
  Forall (fun e => dotted_text e = true) entries ->
  RegExp_new env (js "^(?:" ++ Str.join (js "|") entries ++ js ").*$")
  = Ok (test (exclusion_regex entries)).
Proof.
  intros Hne Htext. unfold RegExp_new. now rewrite parse_exclusion.
Qed.

(* ================================================================== *)
(** * Stopping at the first document with a diagnostic *)

(** The validation calls for a document are about that document. *)
Lemma producer_calls_about (modes : Modes) (onlyTemplate : bool)
    (doc d : TextDocument) (p : Producer) :
  In (DoValidation p d) (producer_calls modes onlyTemplate doc) -> d = doc.
Proof.
  unfold producer_calls. intros [H | H]; [ congruence | ].
  destruct (asks_script _ _ _); [ | destruct H ].
  destruct H as [H | []]. congruence.
Qed.

Lemma no_validations (l : list TextDocument) (t : Trace) :
  count is_validation t = 0 ->
  forall p d, In (DoValidation p d) t -> In d l.
Proof.
  intros Hnone p d Hin.
  pose proof (count_positive is_validation _ t Hin eq_refl) as Hpos.
  rewrite Hnone in Hpos. inversion Hpos.
Qed.

Lemma validations_app (l : list TextDocument) (t1 t2 : Trace) :
  (forall p d, In (DoValidation p d) t1 -> In d l) ->
  (forall p d, In (DoValidation p d) t2 -> In d l) ->
  forall p d, In (DoValidation p d) (t1 ++ t2) -> In d l.
Proof. intros H1 H2 p d Hin. apply in_app_or in Hin as [Hin | Hin]; eauto. Qed.

(** With [failExit] set, the loop stops after the first document that
    yields a diagnostic: the events of the run. *)
Lemma getDiagnostics_stops {S}
    (env : Env) (source : Source) (s : S) (modes : Modes)
    (pre post : list TextDocument) (doc : TextDocument)
    (r : Diagnostic) (rs : list Diagnostic) :
  src_failExit source = true ->
  setupModes env (src_workspace source) = Ok modes ->
  docs source = pre ++ doc :: post ->
  Forall (quiet modes (src_onlyTemplate source)) pre ->
  yields modes (src_onlyTemplate source) doc = Ok (r :: rs) ->
  let t :=
    acquire_both
    ++ [SetupModes (src_workspace source);
        NewProgressBar (List.length (pre ++ doc :: post))]
    ++ flat_map (quiet_events modes (src_onlyTemplate source)) pre
    ++ producer_calls modes (src_onlyTemplate source) doc
    ++ flat_map (report env doc) (r :: rs)
    ++ [Tick; PrintMessage stop_notice] ++ dispose_both in
  getDiagnostics env source s = (t, s, Ok 1) /\
  validated t = pre ++ [doc] /\
  (forall p d, In (DoValidation p d) t -> In d (pre ++ [doc])) /\
  count is_stop_notice t = 1.
Proof.
  intros Hfe Hm Hdocs Hpre Hy.
  set (before := flat_map (quiet_events modes (src_onlyTemplate source)) pre).
  set (calls := producer_calls modes (src_onlyTemplate source) doc).
  set (reports := flat_map (report env doc) (r :: rs)).
  cbv zeta.
  assert (Hrep : count is_validation reports = 0).
  { subst reports.
    now rewrite (count_flat_map_const is_validation _ 0) by apply report_no_validation. }
  assert (Hrep_stop : count is_stop_notice reports = 0).
  { subst reports.
    now rewrite (count_flat_map_const is_stop_notice _ 0) by apply report_no_stop_notice. }
  split; [ | split; [ | split ] ].
  - rewrite getDiagnostics_eq. cbv zeta. rewrite Hm, Hdocs, Hfe.
    rewrite (loop_quiet_prefix env modes _ true pre (doc :: post) fresh_locals Hpre)
      by reflexivity.
    rewrite (loop_stops env modes _ true doc post r rs fresh_locals Hy eq_refl).
    cbv beta iota. cbn [account hasError summary].
    fold before calls reports.
    cbn [app]. rewrite <- !app_assoc. reflexivity.
  - rewrite !validated_app. subst before calls.
    rewrite quiet_events_validated, producer_calls_validated,
      (validated_none reports Hrep).
    reflexivity.
  - apply validations_app; [ now apply no_validations | ].
    apply validations_app; [ now apply no_validations | ].
    apply validations_app.
    { subst before. intros p d Hin. apply in_flat_map in Hin as (d' & Hd' & Hin).
      unfold quiet_events in Hin. apply in_app_or in Hin as [Hin | Hin].
      - apply producer_calls_about in Hin as ->. apply in_or_app. now left.
      - destruct Hin as [Hin | []]. discriminate. }
    apply validations_app.
    { subst calls. intros p d Hin. apply producer_calls_about in Hin as ->.
      apply in_or_app. right. now left. }
    apply validations_app; [ now apply no_validations | ].
    apply validations_app; now apply no_validations.
  - rewrite !count_app. subst before calls.
    rewrite quiet_events_no_stop_notice, producer_calls_no_stop_notice, Hrep_stop.
    reflexivity.
Qed.

(** C1, as the code has it.  With [failExit] set, when the documents before
    [doc] yield nothing and [doc] yields at least one diagnostic, the run
    is: the reads of [traverse]; then the producers are asked about the
    documents up to [doc], in order, and about no later one - neither the
    template producer nor the script producer; the diagnostics of [doc]
    are printed; the stop notice is printed once, right after the tick of
    [doc] and right before the caches are disposed; and the exit code
    is 1.  No file is read once validation has started; every document of
    the run, those after [doc] too, was created from a file that
    [traverse] had read before. *)
Theorem failFast_validates_nothing_after_first_diagnostic
    (env : Env) (options : Options) (g g' : Globals) (t0 : Trace) (modes : Modes)
    (pre post : list TextDocument) (doc : TextDocument)
    (r : Diagnostic) (rs : list Diagnostic) :
  opt_failExit options = true ->
  traverse env (opt_srcDir options) (opt_onlyTypeScript options)
    (opt_files options) (opt_excludeDirs options) (globals_in_check options g)
  = (t0, g', Ok (pre ++ doc :: post)) ->
  setupModes env (workspace options) = Ok modes ->
  Forall (quiet modes (opt_onlyTemplate options)) pre ->
  yields modes (opt_onlyTemplate options) doc = Ok (r :: rs) ->
  let t :=
    t0 ++ acquire_both
    ++ [SetupModes (workspace options);
        NewProgressBar (List.length (pre ++ doc :: post))]
    ++ flat_map (quiet_events modes (opt_onlyTemplate options)) pre
    ++ producer_calls modes (opt_onlyTemplate options) doc
    ++ flat_map (report env doc) (r :: rs)
    ++ [Tick; PrintMessage stop_notice] ++ dispose_both in
  check env options g = (t, g', Ok 1) /\
  validated t = pre ++ [doc] /\
  (forall p d, In (DoValidation p d) t -> In d (pre ++ [doc])) /\
  count is_stop_notice t = 1 /\
  loaded t = loaded t0 /\
  Forall (fun d => exists path, created_for path d /\ In path (loaded t0))
    (pre ++ doc :: post).
Proof.
  intros Hfe Htr Hm Hpre Hy.
  destruct (getDiagnostics_stops env (source_of options (pre ++ doc :: post)) g'
              modes pre post doc r rs Hfe Hm eq_refl Hpre Hy)
    as (Hrun & Hval & Habout & Hstop).
  cbn [source_of src_workspace src_onlyTemplate] in Hrun, Hval, Habout, Hstop.
  set (t' := acquire_both ++ _) in Hrun, Hval, Habout, Hstop |- *.
  cbv zeta.
  pose proof (traverse_file_events _ _ _ _ _ _ _ _ _ Htr) as [Hfiles _].
  split; [ now rewrite check_eq, Htr, Hrun | ].
  split; [ now rewrite validated_app, (validated_files _ Hfiles), Hval | ].
  split.
  { intros p d Hin. apply in_app_or in Hin as [Hin | Hin]; [ | now apply (Habout p) ].
    rewrite forallb_forall in Hfiles. now specialize (Hfiles _ Hin). }
  split.
  { rewrite count_app, Hstop, (count_none is_stop_notice is_file_event); auto.
    now destruct e. }
  split.
  { rewrite loaded_app, (loaded_none t'), app_nil_r; [ reflexivity | ].
    eapply getDiagnostics_no_file_events; eauto. }
  apply traverse_ok in Htr as (selected & records & _ & Hread & Hloaded & Hdocs).
  rewrite Hdocs, Hloaded. apply read_records_paths in Hread.
  apply Forall_forall. intros d (f & <- & Hf)%in_map_iff.
  exists (absFilePath f). split; [ reflexivity | ].
  rewrite <- Hread. apply in_map.
  destruct (opt_onlyTypeScript options); [ now apply filter_In in Hf | exact Hf ].
Qed.

(** [traverse] reads every selected file before [getDiagnostics] starts:
    with [failExit] set and a diagnostic in the first document, the second
    file has been read all the same, though its document is not validated.
    (C1 as stated fails here: a document after the failing one is
    loaded.) *)
Lemma failFast_run_has_read_later_files :
  let env := Example.env Example.fs [] (Ok Example.modes) in
  let options := Example.options true [js "/w/src/a.vue"; js "/w/src/b.vue"] None in
  opt_failExit options = true /\
  yields Example.modes (opt_onlyTemplate options) Example.doc_a
  = Ok [Example.diagnostic_at 0 0 (js "unknown property")] /\
  exists t g,
    check env options initial_globals = (t, g, Ok 1) /\
    loaded t = [js "/w/src/a.vue"; js "/w/src/b.vue"] /\
    validated t = [Example.doc_a].
Proof.
  intros env options. split; [ reflexivity | ]. split; [ reflexivity | ].
  do 2 eexists. repeat split.
Qed.

(** A run over three listed files of which the second is the first with a
    diagnostic. *)
Lemma failFast_witness :
  let env := Example.env Example.fs [] (Ok Example.modes) in
  let options :=
    Example.options true [js "/w/src/b.vue"; js "/w/src/a.vue"; js "/w/src/c.vue"] None in
  let t0 := map ReadFile [js "/w/src/b.vue"; js "/w/src/a.vue"; js "/w/src/c.vue"] in
  let found := Example.diagnostic_at 0 0 (js "unknown property") in
  let t :=
    t0 ++ acquire_both
    ++ [SetupModes (js "/w"); NewProgressBar 3]
    ++ [DoValidation vueMode Example.doc_b; DoValidation scriptMode Example.doc_b; Tick]
    ++ [DoValidation vueMode Example.doc_a; DoValidation scriptMode Example.doc_a]
    ++ report env Example.doc_a found
    ++ [Tick; PrintMessage stop_notice] ++ dispose_both in
  opt_failExit options = true /\
  Forall (quiet Example.modes (opt_onlyTemplate options)) [Example.doc_b] /\
  check env options initial_globals = (t, initial_globals, Ok 1) /\
  validated t = [Example.doc_b] ++ [Example.doc_a] /\
  (forall p d, In (DoValidation p d) t -> In d ([Example.doc_b] ++ [Example.doc_a])) /\
  count is_stop_notice t = 1 /\
  loaded t = loaded t0 /\
  Forall (fun d => exists path, created_for path d /\ In path (loaded t0))
    ([Example.doc_b] ++ Example.doc_a :: [Example.doc_c]).
Proof.
  intros env options t0 found t.
  assert (Hquiet : Forall (quiet Example.modes (opt_onlyTemplate options))
                     [Example.doc_b]) by (repeat constructor).
  split; [ reflexivity | ]. split; [ exact Hquiet | ].
  exact (failFast_validates_nothing_after_first_diagnostic env options
           initial_globals initial_globals t0 Example.modes
           [Example.doc_b] [Example.doc_c] Example.doc_a found []
           eq_refl eq_refl eq_refl Hquiet eq_refl).
Defined.

(* ================================================================== *)
(** * An explicit list of files *)

(** C2, as the code has it.  A non-empty explicit list replaces the
    directory scan: [globSync] is not called, whatever the root and the
    [onlyTypeScript] setting, and only listed files are read.  The
    [excludeDirs] filter is still applied to the list: the files read are
    the listed ones that the exclusion pattern does not match.  Without
    [excludeDirs] and without [onlyTypeScript], when every listed file can
    be read, the documents are exactly those of the list, in its order. *)
Theorem explicit_files_bypass_scan_but_not_exclusion
    (env : Env) (root : string) (onlyTypeScript : bool)
    (first : string) (others : list string)
    (excludeDirs : option (list string)) (g : Globals) :
  let explicit := first :: others in
  (exists t r,
      traverse env root onlyTypeScript explicit excludeDirs g = (t, g, r) /\
      count is_glob t = 0 /\
      forall path, In path (loaded t) -> In path explicit) /\
  (forall dirs re_test t g' documents,
      excludeDirs = Some dirs ->
      RegExp_new env (exclusion_pattern env dirs) = Ok re_test ->
      traverse env root onlyTypeScript explicit excludeDirs g = (t, g', Ok documents) ->
      loaded t = filter (fun path => negb (re_test path)) explicit) /\
  (forall records,
      excludeDirs = None ->
      onlyTypeScript = false ->
      read_records env explicit = Ok records ->
      traverse env root onlyTypeScript explicit excludeDirs g
      = (map ReadFile explicit, g, Ok (map create_document records)) /\
      Forall2 created_for explicit (map create_document records)).
Proof.
  cbv zeta. split; [ | split ].
  - rewrite traverse_eq, candidates_explicit.
    assert (Hsub : forall selected,
               select env excludeDirs (first :: others) = Ok selected ->
               forall path, In path selected -> In path (first :: others)).
    { intros selected Hsel path Hin. unfold select, exclude in Hsel.
      destruct excludeDirs as [ dirs | ]; [ | now injection Hsel as <- ].
      destruct (RegExp_new env _) as [ re_test | e ]; [ | discriminate ].
      apply (f_equal (fun r => match r with Ok l => l | Throw _ => [] end)) in Hsel.
      cbv beta iota in Hsel. rewrite <- Hsel in Hin. now apply filter_In in Hin. }
    destruct (select env excludeDirs (first :: others)) as [ selected | e ].
    + do 2 eexists. split; [ reflexivity | ]. cbn [app]. split.
      * now apply count_reads.
      * rewrite loaded_reads. now apply Hsub.
    + do 2 eexists. split; [ reflexivity | ]. split; [ reflexivity | ].
      intros path [].
  - intros dirs re_test t g' documents -> Hre Htr.
    apply traverse_ok in Htr as (selected & records & Hsel & _ & Hloaded & _).
    rewrite candidates_explicit in Hsel. cbn [snd select exclude] in Hsel.
    rewrite Hre in Hsel.
    apply (f_equal (fun r => match r with Ok l => l | Throw _ => [] end)) in Hsel.
    cbv beta iota in Hsel. now rewrite Hsel.
  - intros records -> -> Hread. split.
    + rewrite traverse_eq, candidates_explicit. cbn [select]. now rewrite Hread.
    + now apply created_for_records with (env := env).
Qed.

(** The explicit list is filtered by [excludeDirs]: a listed file under an
    excluded directory yields no document.  (C2 as stated fails here.) *)
Lemma explicit_file_under_excluded_directory_is_dropped :
  let env := Example.env Example.fs [] (Ok Example.modes) in
  readFile env (js "/w/src/a.vue") = Ok (js "<template>{{ msg }}</template>") /\
  traverse env (js "/w") false [js "/w/src/a.vue"] (Some [js "src"]) initial_globals
  = ([], initial_globals, Ok []).
Proof. split; reflexivity. Qed.

(** Two listed files, no [excludeDirs]: their two documents, in the order
    of the list. *)
Lemma explicit_files_witness :
  let env := Example.env Example.fs [] (Ok Example.modes) in
  traverse env (js "/w") false [js "/w/src/b.vue"; js "/w/src/a.vue"] None initial_globals
  = ([ReadFile (js "/w/src/b.vue"); ReadFile (js "/w/src/a.vue")], initial_globals,
     Ok [Example.doc_b; Example.doc_a])
  /\ Forall2 created_for [js "/w/src/b.vue"; js "/w/src/a.vue"]
       [Example.doc_b; Example.doc_a].
Proof.
  intros env.
  exact (proj2 (proj2 (explicit_files_bypass_scan_but_not_exclusion env (js "/w") false
                         (js "/w/src/b.vue") [js "/w/src/a.vue"] None initial_globals))
           _ eq_refl eq_refl eq_refl).
Defined.

(* ================================================================== *)
(** * The exit code *)

(** C3, as the code has it.  [getDiagnostics] always ends in
    [process.exit], with code 0 or 1: 0 exactly when [hasError] is false at
    the end.  That is exactly when no diagnostic was reported and no
    exception was caught by its [try] block, which is exactly when the
    producers were constructed and every document of the run yields no
    diagnostic; otherwise the code is 1.  For [check] as a whole: it exits
    exactly when [traverse] has returned its documents, with code 0 or 1,
    and with code 0 exactly when moreover the producers were constructed
    and every document yields no diagnostic.  An exception of [traverse],
    which nothing guards, makes [check] reject with it: then the program
    sets no exit code at all. *)
Theorem exit_code_zero_iff_no_error
    (env : Env) (source : Source) (options : Options) (g : Globals) :
  (exists t l code,
      getDiagnostics_body env source fresh_locals = (t, l, Ok code) /\
      getDiagnostics env source g = (t, g, Ok code) /\
      (code = 0 \/ code = 1) /\
      (code = 0 <-> hasError l = false) /\
      (code = 0 <->
       count is_print_error t = 0 /\ count is_console_error t = 0) /\
      (code = 0 <->
       exists modes,
         setupModes env (src_workspace source) = Ok modes /\
         Forall (quiet modes (src_onlyTemplate source)) (docs source))) /\
  (exists t g' r,
      check env options g = (t, g', r) /\
      (forall code, r = Ok code -> code = 0 \/ code = 1) /\
      (r = Ok 0 <->
       exists t0 documents modes,
         traverse env (opt_srcDir options) (opt_onlyTypeScript options)
           (opt_files options) (opt_excludeDirs options) (globals_in_check options g)
         = (t0, g', Ok documents) /\
         setupModes env (workspace options) = Ok modes /\
         Forall (quiet modes (opt_onlyTemplate options)) documents) /\
      ((exists code, r = Ok code) <->
       exists t0 documents,
         traverse env (opt_srcDir options) (opt_onlyTypeScript options)
           (opt_files options) (opt_excludeDirs options) (globals_in_check options g)
         = (t0, g', Ok documents)) /\
      (forall e,
          r = Throw e <->
          traverse env (opt_srcDir options) (opt_onlyTypeScript options)
            (opt_files options) (opt_excludeDirs options) (globals_in_check options g)
          = (t, g', Throw e))).
Proof.
  split.
  { destruct (getDiagnostics_hasError env source g) as (t & l & code & Hbody & Hrun & Hl).
    destruct (getDiagnostics_exit_code env source g)
      as (t' & code' & Hrun' & Hcode & Hcount & Hquiet).
    rewrite Hrun in Hrun'. injection Hrun' as <- <-.
    exists t, l, code. repeat split; auto.
    - intros ->. now destruct (hasError l).
    - intros Hf. now rewrite Hl, Hf.
    - now apply Hcount.
    - now apply Hcount.
    - now apply Hcount.
    - now apply Hquiet.
    - now apply Hquiet. }
  rewrite check_eq.
  destruct (traverse env _ _ _ _ _) as [[t0 g'] [ documents | e ]] eqn:Htr.
  - destruct (getDiagnostics_exit_code env (source_of options documents) g')
      as (t1 & code & Hrun & Hcode & _ & Hzero).
    rewrite Hrun. exists (t0 ++ t1), g', (Ok code).
    split; [ reflexivity | ]. split.
    + intros code' [= <-]. exact Hcode.
    + split; [ split | split ].
      * intros [= ->]. destruct (proj1 Hzero eq_refl) as (modes & Hm & Hq).
        now exists t0, documents, modes.
      * intros (t0' & documents' & modes & [= <- <-] & Hm & Hq).
        f_equal. apply Hzero. now exists modes.
      * split; [ intros _; now exists t0, documents | intros _; now exists code ].
      * intros e. split; discriminate.
  - exists t0, g', (Throw e).
    split; [ reflexivity | ]. split; [ discriminate | ].
    split; [ split; [ discriminate | ] | split ].
    + intros (t0' & documents' & modes & [=] & _).
    + split; [ intros [code [=]] | intros (t0' & documents' & [=]) ].
    + intros e'. split; [ now intros [= ->] | now intros [= ->] ].
Qed.

(** An exception that is guarded: the template producer throws on the only
    document.  No diagnostic is produced and no exception is left
    unguarded - [check] does not reject - yet the exit code is 1.  (C3 as
    stated fails here.) *)
Lemma caught_exception_exits_with_code_1 :
  let env := Example.env Example.fs [] (Ok Example.broken_modes) in
  let options := Example.options false [js "/w/src/b.vue"] None in
  check env options initial_globals
  = ([ReadFile (js "/w/src/b.vue");
      GetLanguageModelCache documentRegions;
      GetLanguageModelCache scriptRegionDocuments;
      SetupModes (js "/w"); NewProgressBar 1;
      DoValidation vueMode Example.doc_b;
      ConsoleError (ExternalError (js "validation failed"));
      Dispose documentRegions; Dispose scriptRegionDocuments;
      PrintMessage (js "Found: 0 errors in 1 file(s)")],
     initial_globals, Ok 1).
Proof. reflexivity. Qed.

(* ================================================================== *)
(** * Eligibility under [onlyTypeScript] *)

(** C4, as the code has it.  Under [onlyTypeScript] a file is kept when
    its extension is not [vue], or its text has no script tag - the text
    [<script] followed on the same line by [>] -, or it has one with
    [lang="ts"] or [lang="tsx"] between the two, or it has one with
    [src="..."] between the two, the attribute value in double quotes and
    on that line; a [vue] file with a script tag and none of either kind is
    dropped.  The documents [traverse] returns are created from the kept
    files only. *)
Theorem strict_only_eligibility
    (env : Env) (root : string) (changedFiles : list string)
    (excludeDirs : option (list string)) (g : Globals) :
  (forall f,
      keep_typescript f = true <->
      fileExt f <> js "vue" \/ ~ has_script_tag (src f)
      \/ has_typescript_tag (src f) \/ has_external_script_tag (src f)) /\
  (forall f,
      keep_typescript f = false <->
      fileExt f = js "vue" /\ has_script_tag (src f)
      /\ ~ has_typescript_tag (src f) /\ ~ has_external_script_tag (src f)) /\
  (forall t g' documents,
      traverse env root true changedFiles excludeDirs g = (t, g', Ok documents) ->
      exists records,
        read_records env (loaded t) = Ok records /\
        documents = map create_document (filter keep_typescript records) /\
        forall f, In f records ->
                  (In (create_document f) documents <-> keep_typescript f = true)).
Proof.
  assert (Hkeep : forall f,
             keep_typescript f = true <->
             fileExt f <> js "vue" \/ ~ has_script_tag (src f)
             \/ has_typescript_tag (src f) \/ has_external_script_tag (src f)).
  { intros f. rewrite <- hasScriptTag_spec, <- isTs_spec, <- isImportOtherTs_spec.
    unfold keep_typescript.
    destruct (string_eqb_spec (fileExt f) (js "vue")) as [ He | He ]; cbn [negb orb].
    - destruct (hasScriptTag (src f)), (isTs (src f)), (isImportOtherTs (src f));
        cbn [negb orb]; split; intros H; auto; try discriminate;
        destruct H as [ H | [ H | [ H | H ] ] ]; congruence.
    - split; auto. }
  split; [ exact Hkeep | split ].
  - intros f. rewrite <- not_true_iff_false, Hkeep.
    rewrite <- hasScriptTag_spec, <- isTs_spec, <- isImportOtherTs_spec.
    destruct (string_eqb_spec (fileExt f) (js "vue")) as [ He | He ];
      destruct (hasScriptTag (src f)), (isTs (src f)), (isImportOtherTs (src f));
      split; intros H; try tauto;
      try (exfalso; apply H; tauto);
      try (destruct H as (H1 & H2 & H3 & H4); congruence).
  - intros t g' documents Htr.
    apply traverse_ok in Htr as (selected & records & _ & Hread & Hloaded & ->).
    exists records. rewrite Hloaded. split; [ exact Hread | ].
    split; [ reflexivity | ].
    intros f Hf. split.
    + intros (f' & Heq & Hin)%in_map_iff.
      apply create_document_injective in Heq as ->. now apply filter_In in Hin.
    + intros Hk. apply in_map. now apply filter_In.
Qed.

(** A component whose script section names the strict dialect, in single
    quotes: it is read, and removed before the documents are created.  (C4
    as stated fails here.) *)
Lemma single_quoted_typescript_component_is_removed :
  let content := js "<script lang='ts'>export default {}</script>" in
  let env :=
    Example.env [(js "/w/single.vue", content)] [js "/w/single.vue"]
      (Ok Example.modes) in
  keep_typescript
    {| absFilePath := js "/w/single.vue"; fileExt := js "vue"; src := content |}
  = false /\
  traverse env (js "/w") true [] None {| validLanguages := [js "ts"; js "tsx"; js "vue"] |}
  = ([GlobSync (js "/w/**/*.{ts,tsx,vue}"); ReadFile (js "/w/single.vue")],
     {| validLanguages := [js "ts"; js "tsx"; js "vue"] |}, Ok []).
Proof. split; reflexivity. Qed.

(** A [vue] file with a plain script tag is dropped; one with [lang="ts"]
    is kept. *)
Lemma strict_only_witness :
  keep_typescript
    {| absFilePath := js "/w/plain.vue"; fileExt := js "vue"; src := Example.script_plain |}
  = false
  /\ keep_typescript
       {| absFilePath := js "/w/ts.vue"; fileExt := js "vue"; src := Example.script_ts |}
     = true.
Proof.
  destruct (strict_only_eligibility (Example.env [] [] (Ok Example.modes)) (js "/w") [] None
              initial_globals) as (Hkeep & Hdrop & _).
  split.
  - apply Hdrop. split; [ reflexivity | ]. split; [ | split ].
    + apply hasScriptTag_spec. reflexivity.
    + intros H%isTs_spec. discriminate.
    + intros H%isImportOtherTs_spec. discriminate.
  - apply Hkeep. right. right. left. apply isTs_spec. reflexivity.
Defined.

(** The five kinds of file of the claim, run through [traverse]. *)
Example strict_only_run :
  let fs :=
    [(js "/w/util.ts", Example.script_plain);
     (js "/w/none.vue", Example.template_only);
     (js "/w/ts.vue", Example.script_ts);
     (js "/w/tsx.vue", Example.script_tsx);
     (js "/w/external.vue", Example.script_external);
     (js "/w/plain.vue", Example.script_plain)] in
  exists t g documents,
    traverse (Example.env fs (map fst fs) (Ok Example.modes)) (js "/w") true [] None
      {| validLanguages := [js "ts"; js "tsx"; js "vue"] |}
    = (t, g, Ok documents) /\
    t = GlobSync (js "/w/**/*.{ts,tsx,vue}") :: map ReadFile (map fst fs) /\
    map uri documents
    = [js "file:///w/util.ts"; js "file:///w/none.vue"; js "file:///w/ts.vue";
       js "file:///w/tsx.vue"; js "file:///w/external.vue"].
Proof. intros fs. do 3 eexists. repeat split. Qed.

(* ================================================================== *)
(** * Exclusion *)

(** C5, as the code has it.  Each entry of [excludeDirs] is resolved to an
    absolute path and the resolved paths, joined by [|], are compiled as
    one regular expression anchored at the start of the candidate.  When
    the resolved entries have no character with a special meaning in a
    regular expression other than the dot, a candidate is dropped exactly
    when an entry, its dots standing for any character, matches its start
    and no line terminator follows; so every candidate that starts with a
    resolved entry -- as a string, not at a path-segment boundary -- and
    stays on one line is dropped, and no file read and no document of the
    run has such a path.  Without dots in the resolved entries, and with at
    least one entry, these are the only candidates dropped. *)
Theorem exclusion_drops_by_prefix_for_text_entries
    (env : Env) (root : string) (onlyTypeScript : bool)
    (changedFiles dirs targets : list string) (g : Globals) :
  Forall (fun d => dotted_text (Path.resolve (cwd env) d) = true) dirs ->
  let dropped target :=
    existsb (fun e => matches_on_line e target) (pattern_entries env dirs) in
  let has_excluded_prefix target :=
    existsb (fun d => prefix_on_line (Path.resolve (cwd env) d) target) dirs in
  select env (Some dirs) targets = Ok (filter (fun t => negb (dropped t)) targets) /\
  (forall target, has_excluded_prefix target = true -> dropped target = true) /\
  (dirs <> [] ->
   Forall (fun d => plain_text (Path.resolve (cwd env) d) = true) dirs ->
   forall target, dropped target = has_excluded_prefix target) /\
  (forall t g' documents,
      traverse env root onlyTypeScript changedFiles (Some dirs) g
      = (t, g', Ok documents) ->
      Forall (fun path => has_excluded_prefix path = false) (loaded t) /\
      Forall (fun doc => exists path,
                  created_for path doc /\ has_excluded_prefix path = false)
        documents).
Proof.
  intros Htext dropped has_excluded_prefix.
  assert (Hne : pattern_entries env dirs <> []) by now destruct dirs.
  assert (Htext' : Forall (fun e => dotted_text e = true) (pattern_entries env dirs)).
  { destruct dirs as [ | d dirs ]; [ now repeat constructor | ].
    now apply Forall_map. }
  assert (Hjoin : Str.join (js "|") (map (Path.resolve (cwd env)) dirs)
                  = Str.join (js "|") (pattern_entries env dirs)) by now destruct dirs.
  assert (Hselect : forall l,
             select env (Some dirs) l = Ok (filter (fun t => negb (dropped t)) l)).
  { intros l. unfold select, exclude, exclusion_pattern.
    destruct l as [ | x l ]; [ reflexivity | ].
    rewrite Hjoin, RegExp_new_exclusion by assumption. f_equal.
    apply filter_ext. intros t. f_equal.
    now apply test_exclusion. }
  assert (Hsuper : forall target,
             has_excluded_prefix target = true -> dropped target = true).
  { intros target. unfold has_excluded_prefix, dropped.
    destruct dirs as [ | d0 dirs ]; [ discriminate | ].
    unfold pattern_entries. rewrite existsb_map, !existsb_exists.
    intros (d & Hd & H).
    exists d. split; [ exact Hd | now apply prefix_is_matched ]. }
  split; [ apply Hselect | ]. split; [ exact Hsuper | ]. split.
  - intros Hdirs Hplain target. unfold dropped, has_excluded_prefix.
    destruct dirs as [ | d0 dirs ]; [ congruence | ].
    unfold pattern_entries. rewrite existsb_map.
    clear - Hplain. remember (d0 :: dirs) as l eqn:Hl. clear Hl.
    induction Hplain as [ | d l Hd _ IH ]; [ reflexivity | ].
    cbn [existsb]. rewrite IH. f_equal.
    unfold matches_on_line, prefix_on_line. now rewrite strip_wild_plain.
  - intros t g' documents Htr.
    apply traverse_ok in Htr as (selected & records & Hsel & Hread & Hloaded & ->).
    rewrite Hselect in Hsel. injection Hsel as <-.
    assert (Hkept : forall path,
               In path (filter (fun t => negb (dropped t))
                          (snd (candidates env root onlyTypeScript changedFiles g))) ->
               has_excluded_prefix path = false).
    { intros path [_ H]%filter_In. apply negb_true_iff in H.
      destruct (has_excluded_prefix path) eqn:Hp; [ | reflexivity ].
      apply Hsuper in Hp. congruence. }
    split.
    + rewrite Hloaded. now apply Forall_forall.
    + apply read_records_paths in Hread.
      apply Forall_forall. intros doc Hin.
      apply in_map_iff in Hin as (f & <- & Hf).
      exists (absFilePath f). split; [ reflexivity | ].
      apply Hkept. rewrite <- Hread. apply in_map.
      destruct onlyTypeScript; [ now apply filter_In in Hf | exact Hf ].
Qed.

(** A directory name with parentheses is a group in the pattern: it matches
    the name without them, so the directory itself is kept.  (C5 as stated
    fails here: a document of the run has a path that starts with the
    resolved entry.) *)
Lemma excluded_directory_with_parentheses_is_kept :
  let env := Example.env Example.fs [] (Ok Example.modes) in
  Str.starts_with (Path.resolve (cwd env) (js "src/(old)")) (js "/w/src/(old)/d.vue") = true /\
  traverse env (js "/w") false [js "/w/src/(old)/d.vue"] (Some [js "src/(old)"]) initial_globals
  = ([ReadFile (js "/w/src/(old)/d.vue")], initial_globals, Ok [Example.doc_d]).
Proof. split; reflexivity. Qed.

(** Under [/w], excluding [src/foo] and the file [lib/a.vue] drops what
    starts with [/w/src/foo] -- [/w/src/foobar/x.vue] too -- and what starts
    with [/w/lib/a.vue], its dot standing for any character. *)
Lemma exclusion_prefix_witness :
  let env := Example.env Example.fs [] (Ok Example.modes) in
  Forall (fun d => dotted_text (Path.resolve (cwd env) d) = true)
    [js "src/foo"; js "lib/a.vue"] /\
  select env (Some [js "src/foo"; js "lib/a.vue"])
    [js "/w/src/foobar/x.vue"; js "/w/src/foo/y.vue"; js "/w/src/fo/z.vue"; js "/w/lib/a.vue";
     js "/w/lib/axvue"]
  = Ok [js "/w/src/fo/z.vue"].
Proof.
  intros env.
  assert (Htext : Forall (fun d => dotted_text (Path.resolve (cwd env) d) = true)
                    [js "src/foo"; js "lib/a.vue"]) by (repeat constructor).
  split; [ exact Htext | ].
  exact (proj1 (exclusion_drops_by_prefix_for_text_entries env (js "/w") false []
                  [js "src/foo"; js "lib/a.vue"]
                  [js "/w/src/foobar/x.vue"; js "/w/src/foo/y.vue"; js "/w/src/fo/z.vue";
                   js "/w/lib/a.vue"; js "/w/lib/axvue"]
                  initial_globals Htext)).
Defined.

(* ================================================================== *)
(** * The two producers *)

(** C6.  For every document the loop handles: the first thing it does is
    ask the template producer; it asks the script producer exactly when the
    template producer has returned, [onlyTemplate] is not set and the script
    producer has a [doValidation]; and when the producers asked have
    returned [tpl] and [scr], what it reports is the report of each
    diagnostic of [tpl ++ scr] in that order, all of them added to
    [totalErrors]. *)
Theorem template_then_script_diagnostics
    (env : Env) (modes : Modes) (onlyTemplate failExit : bool)
    (doc : TextDocument) (l : Locals) :
  exists t l' r,
    check_document env modes onlyTemplate failExit doc l = (t, l', r) /\
    hd_error t = Some (DoValidation vueMode doc) /\
    (In (DoValidation scriptMode doc) t <->
     (exists tpl, vueMode_doValidation modes doc = Ok tpl)
     /\ onlyTemplate = false
     /\ scriptMode_doValidation modes <> None) /\
    (forall tpl scr,
        vueMode_doValidation modes doc = Ok tpl ->
        (if onlyTemplate then Ok []
         else match scriptMode_doValidation modes with
              | Some doValidation => doValidation doc
              | None => Ok []
              end) = Ok scr ->
        exists tail,
          t = producer_calls modes onlyTemplate doc
              ++ flat_map (report env doc) (tpl ++ scr) ++ Tick :: tail
          /\ count is_print_error tail = 0
          /\ totalErrors l' = totalErrors l + List.length tpl + List.length scr).
Proof.
  rewrite check_document_eq.
  assert (Hin : forall rs tail,
             count is_validation tail = 0 ->
             In (DoValidation scriptMode doc)
               (producer_calls modes onlyTemplate doc
                ++ flat_map (report env doc) rs ++ tail)
             <-> asks_script modes onlyTemplate doc = true).
  { intros rs tail Htail. unfold producer_calls. split.
    - destruct (asks_script modes onlyTemplate doc); [ reflexivity | ].
      cbn. intros [ H | H ]; [ discriminate | exfalso ].
      apply (count_positive is_validation) in H; [ | reflexivity ].
      rewrite count_app, Htail in H.
      rewrite (count_flat_map_const is_validation _ 0) in H
        by apply report_no_validation.
      cbn in H. lia.
    - intros ->. cbn. auto. }
  assert (Hasks : asks_script modes onlyTemplate doc = true <->
                  (exists tpl, vueMode_doValidation modes doc = Ok tpl)
                  /\ onlyTemplate = false
                  /\ scriptMode_doValidation modes <> None).
  { unfold asks_script.
    destruct (vueMode_doValidation modes doc) as [ tpl | e ],
             (scriptMode_doValidation modes) as [ f | ], onlyTemplate; cbn;
      split; try discriminate; try (intros (_ & ? & ?); congruence);
      try (intros ((? & ?) & _); discriminate).
    intros _. repeat split; eauto. discriminate. }
  unfold yields.
  destruct (vueMode_doValidation modes doc) as [ tpl | e ] eqn:Hvue.
  - destruct onlyTemplate eqn:Hot.
    + cbv zeta. do 3 eexists. split; [ reflexivity | ].
      split; [ reflexivity | ]. split.
      * rewrite <- Hasks. apply Hin. now destruct (hasError _ && failExit).
      * intros tpl' scr [= <-] [= <-]. rewrite app_nil_r.
        eexists. split; [ reflexivity | ].
        rewrite account_totalErrors.
        split; [ now destruct (hasError _ && failExit) | cbn; lia ].
    + destruct (scriptMode_doValidation modes) as [ f | ] eqn:Hs.
      * destruct (f doc) as [ scr | e ] eqn:Hf.
        -- cbv zeta. do 3 eexists. split; [ reflexivity | ].
           split; [ reflexivity | ]. split.
           ++ rewrite <- Hasks. apply Hin. now destruct (hasError _ && failExit).
           ++ intros tpl' scr' [= <-] [= <-].
              eexists. split; [ reflexivity | ].
              rewrite account_totalErrors, length_app.
              split; [ now destruct (hasError _ && failExit) | lia ].
        -- do 3 eexists. split; [ reflexivity | ].
           split; [ reflexivity | ]. split.
           ++ rewrite <- Hasks.
              rewrite <- (app_nil_r (producer_calls _ _ _)).
              apply (Hin [] []). reflexivity.
           ++ intros tpl' scr' _ [=].
      * cbv zeta. do 3 eexists. split; [ reflexivity | ].
        split; [ reflexivity | ]. split.
        -- rewrite <- Hasks. apply Hin. now destruct (hasError _ && failExit).
        -- intros tpl' scr [= <-] [= <-]. rewrite app_nil_r.
           eexists. split; [ reflexivity | ].
           rewrite account_totalErrors.
           split; [ now destruct (hasError _ && failExit) | cbn; lia ].
  - do 3 eexists. split; [ reflexivity | ].
    split; [ reflexivity | ]. split.
    + rewrite <- Hasks.
      rewrite <- (app_nil_r (producer_calls _ _ _)).
      apply (Hin [] []). reflexivity.
    + intros tpl scr [=].
Qed.


(* ================================================================== *)
(** * The two caches *)

(** The caches in a run of [getDiagnostics]. *)
Lemma getDiagnostics_caches {S} (env : Env) (source : Source) (s : S) :
  exists mid tail code,
    getDiagnostics env source s
    = (acquire_both ++ mid ++ dispose_both ++ tail, s, Ok code) /\
    count is_cache_event mid = 0 /\
    count is_cache_event tail = 0 /\
    count is_validation tail = 0 /\
    forall c,
      count (is_acquire c) (acquire_both ++ mid ++ dispose_both ++ tail) = 1 /\
      count (is_dispose c) (acquire_both ++ mid ++ dispose_both ++ tail) = 1.
Proof.
  rewrite getDiagnostics_eq. cbv zeta.
  assert (Hsum : forall n k, count is_cache_event (summary (src_failExit source) n k) = 0
                        /\ count is_validation (summary (src_failExit source) n k) = 0
                        /\ forall c,
                             count (is_acquire c) (summary (src_failExit source) n k) = 0
                             /\ count (is_dispose c) (summary (src_failExit source) n k) = 0).
  { intros n k. unfold summary. destruct (src_failExit source); repeat split. }
  destruct (setupModes env (src_workspace source)) as [ modes | e ].
  - destruct (for_of (docs source) _ fresh_locals) as [[t l] r] eqn:Hloop.
    pose proof (loop_invariant _ _ _ _ _ _ _ _ _ Hloop) as (Hev & _).
    exists ([SetupModes (src_workspace source); NewProgressBar (List.length (docs source))]
            ++ t ++ match r with Ok _ => [] | Throw e => [ConsoleError e] end).
    exists (summary (src_failExit source) (totalErrors l) (List.length (docs source))).
    eexists. split; [ now rewrite <- !app_assoc | ].
    destruct (Hsum (totalErrors l) (List.length (docs source))) as (Hs1 & Hs2 & Hs3).
    repeat split; auto.
    + rewrite !count_app, (count_none _ _ _ loop_event_not_cache Hev).
      now destruct r.
    + rewrite !count_app, (count_none _ _ _ (loop_event_not_acquire c) Hev).
      rewrite (proj1 (Hs3 c)). destruct c, r; reflexivity.
    + rewrite !count_app, (count_none _ _ _ (loop_event_not_dispose c) Hev).
      rewrite (proj2 (Hs3 c)). destruct c, r; reflexivity.
  - exists [SetupModes (src_workspace source); ConsoleError e].
    exists (summary (src_failExit source) 0 (List.length (docs source))).
    eexists. split; [ reflexivity | ].
    destruct (Hsum 0 (List.length (docs source))) as (Hs1 & Hs2 & Hs3).
    repeat split; auto.
    + rewrite !count_app, (proj1 (Hs3 c)). now destruct c.
    + rewrite !count_app, (proj2 (Hs3 c)). now destruct c.
Qed.

(** C7.  In every run of [getDiagnostics] the two caches are acquired
    first, each once, and disposed each exactly once, after the last call
    into a producer -- whether the loop ran to its end, stopped early under
    [failExit], or an exception was caught.  In a run of [check] that exits,
    each cache has been disposed exactly once; in one that rejects, none
    was acquired. *)
Theorem caches_disposed_exactly_once
    (env : Env) (source : Source) (options : Options) (g : Globals) :
  (exists mid tail code,
      getDiagnostics env source g
      = (acquire_both ++ mid ++ dispose_both ++ tail, g, Ok code) /\
      count is_cache_event mid = 0 /\
      count is_cache_event tail = 0 /\
      count is_validation tail = 0 /\
      forall c,
        count (is_acquire c) (acquire_both ++ mid ++ dispose_both ++ tail) = 1 /\
        count (is_dispose c) (acquire_both ++ mid ++ dispose_both ++ tail) = 1) /\
  (exists t g' r,
      check env options g = (t, g', r) /\
      forall c,
        (forall code, r = Ok code ->
                      count (is_acquire c) t = 1 /\ count (is_dispose c) t = 1) /\
        (forall e, r = Throw e ->
                   count (is_acquire c) t = 0 /\ count (is_dispose c) t = 0)).
Proof.
  split; [ apply getDiagnostics_caches | ].
  rewrite check_eq.
  destruct (traverse env _ _ _ _ _) as [[t0 g'] [ documents | e ]] eqn:Htr;
    apply traverse_file_events in Htr as [Hfiles _].
  - destruct (getDiagnostics_caches env (source_of options documents) g')
      as (mid & tail & code & Hrun & _ & _ & _ & Hc).
    rewrite Hrun. do 3 eexists. split; [ reflexivity | ].
    intros c. split; [ | discriminate ].
    intros code' _. destruct (Hc c) as [Ha Hd].
    rewrite !(count_app _ t0), Ha, Hd.
    rewrite (count_none (is_acquire c) is_file_event),
      (count_none (is_dispose c) is_file_event); auto;
      intros ev; now destruct ev, c.
  - exists t0, g', (Throw e). split; [ reflexivity | ].
    intros c. split; [ discriminate | ]. intros e' _.
    rewrite (count_none (is_acquire c) is_file_event),
      (count_none (is_dispose c) is_file_event); auto;
      intros ev; now destruct ev, c.
Qed.

(* ================================================================== *)
(** * Exceptions *)

(** C8.  [getDiagnostics] never throws.  An exception from the construction
    of the producers, or from a validation call the loop reaches, is logged
    with [console.error]; the caches are then disposed and the process
    exits with code 1.  A file that cannot be read makes [check] reject
    with the error of a file that could not be read - of that file, when it
    is the only one: every selected file has been asked for, nothing is
    logged, no cache is created and no exit code is computed. *)
Theorem producer_exceptions_caught_read_failures_propagate
    (env : Env) (source : Source) (options : Options) (g : Globals) :
  let ws := src_workspace source in
  let fe := src_failExit source in
  let ot := src_onlyTemplate source in
  let n := List.length (docs source) in
  (exists t code, getDiagnostics env source g = (t, g, Ok code)) /\
  (forall e,
      setupModes env ws = Throw e ->
      getDiagnostics env source g
      = (acquire_both ++ [SetupModes ws; ConsoleError e] ++ dispose_both
         ++ summary fe 0 n, g, Ok 1)) /\
  (forall modes pre doc post e,
      setupModes env ws = Ok modes ->
      docs source = pre ++ doc :: post ->
      Forall (passed modes ot fe) pre ->
      yields modes ot doc = Throw e ->
      exists t0 errors,
        getDiagnostics env source g
        = (acquire_both ++ t0 ++ [ConsoleError e] ++ dispose_both
           ++ summary fe errors n, g, Ok 1) /\
        validated t0 = pre ++ [doc] /\
        count is_console_error t0 = 0) /\
  (forall t0 targets selected,
      candidates env (opt_srcDir options) (opt_onlyTypeScript options)
        (opt_files options) (globals_in_check options g) = (t0, targets) ->
      select env (opt_excludeDirs options) targets = Ok selected ->
      Exists (fun x => exists e, readFile env x = Throw e) selected ->
      exists p e,
        In p selected /\ readFile env p = Throw e /\
        check env options g
        = (t0 ++ map ReadFile selected, globals_in_check options g, Throw e)) /\
  (forall t0 targets pre p post e,
      candidates env (opt_srcDir options) (opt_onlyTypeScript options)
        (opt_files options) (globals_in_check options g) = (t0, targets) ->
      select env (opt_excludeDirs options) targets = Ok (pre ++ p :: post) ->
      Forall (fun x => exists src, readFile env x = Ok src) pre ->
      readFile env p = Throw e ->
      Forall (fun x => exists src, readFile env x = Ok src) post ->
      check env options g
      = (t0 ++ map ReadFile (pre ++ p :: post), globals_in_check options g, Throw e)).
Proof.
  cbv zeta. split; [ | split; [ | split; [ | split ] ] ].
  - destruct (getDiagnostics_exit_code env source g) as (t & code & H & _).
    now exists t, code.
  - intros e He. rewrite getDiagnostics_eq. cbv zeta. now rewrite He.
  - intros modes pre doc post e Hm Hdocs Hpre Hy.
    rewrite getDiagnostics_eq. cbv zeta. rewrite Hm, Hdocs.
    destruct (loop_passed_prefix env modes _ _ pre (doc :: post) Hpre fresh_locals)
      as (t0 & l0 & Hev & Hval & _ & Hloop); [ reflexivity | ].
    rewrite Hloop, (loop_throws env modes _ _ doc post e l0 Hy).
    exists ([SetupModes (src_workspace source);
             NewProgressBar (List.length (pre ++ doc :: post))]
            ++ t0 ++ producer_calls modes (src_onlyTemplate source) doc),
      (totalErrors l0).
    split; [ now rewrite <- ?app_assoc | split ].
    + cbn [app validated]. now rewrite validated_app, producer_calls_validated, Hval.
    + rewrite !count_app, (count_none _ _ _ loop_event_not_console Hev).
      rewrite (count_none _ _ _ loop_event_not_console
                 (producer_calls_loop_events modes _ doc)).
      reflexivity.
  - intros t0 targets selected Hc Hs Hbad.
    destruct (read_records_throw_some env selected Hbad) as (p & e & Hin & Hp & Hread).
    exists p, e. split; [ exact Hin | ]. split; [ exact Hp | ].
    rewrite check_eq, traverse_eq, Hc, Hs. now rewrite Hread.
  - intros t0 targets pre p post e Hc Hs Hpre Hp Hpost.
    rewrite check_eq, traverse_eq, Hc, Hs.
    now rewrite (read_records_throw env pre post p e Hpre Hp Hpost).
Qed.

(** A validation call that throws on the first document, and a listed file
    that does not exist. *)
Lemma exceptions_witness :
  let env := Example.env [(js "/w/src/a.vue", js "x")] [] (Ok Example.broken_modes) in
  let source := Example.source false [Example.doc_a] in
  let options := Example.options false [js "/w/src/a.vue"; js "/w/src/missing.vue"] None in
  (exists t0 errors,
      getDiagnostics env source initial_globals
      = (acquire_both ++ t0 ++ [ConsoleError (ExternalError (js "validation failed"))]
         ++ dispose_both ++ summary false errors 1, initial_globals, Ok 1) /\
      validated t0 = [] ++ [Example.doc_a] /\
      count is_console_error t0 = 0) /\
  check env options initial_globals
  = ([] ++ map ReadFile ([js "/w/src/a.vue"] ++ js "/w/src/missing.vue" :: []),
     globals_in_check options initial_globals,
     Throw (ExternalError (js "ENOENT: /w/src/missing.vue"))).
Proof.
  intros env source options.
  destruct (producer_exceptions_caught_read_failures_propagate
              env source options initial_globals) as (_ & _ & Hloop & _ & Hread).
  split.
  - exact (Hloop Example.broken_modes [] Example.doc_a []
             (ExternalError (js "validation failed")) eq_refl eq_refl
             (Forall_nil _) eq_refl).
  - refine (Hread [] [js "/w/src/a.vue"; js "/w/src/missing.vue"]
              [js "/w/src/a.vue"] (js "/w/src/missing.vue") []
              (ExternalError (js "ENOENT: /w/src/missing.vue")) eq_refl eq_refl _ eq_refl
              (Forall_nil _)).
    repeat constructor. now exists (js "x").
Defined.

(* ================================================================== *)
(** * The summary line *)

(** The summary in a run of [getDiagnostics] without [failExit]. *)
Lemma getDiagnostics_summary {S}
    (env : Env) (source : Source) (s : S) :
  src_failExit source = false ->
  exists t0 errors code,
    getDiagnostics env source s
    = (t0 ++ [PrintMessage (summary_line errors (List.length (docs source)))],
       s, Ok code) /\
    count is_summary t0 = 0 /\
    errors = count is_print_error t0 /\
    (docs source = [] ->
     summary_line errors (List.length (docs source)) = js "Found: 0 errors in 0 file(s)"
     /\ (code = 0 <-> exists modes, setupModes env (src_workspace source) = Ok modes)).
Proof.
  intros Hfe. rewrite getDiagnostics_eq. cbv zeta. rewrite Hfe. unfold summary.
  destruct (setupModes env (src_workspace source)) as [ modes | e ].
  - destruct (for_of (docs source) _ fresh_locals) as [[t l] r] eqn:Hloop.
    pose proof (loop_invariant _ _ _ _ _ _ _ _ _ Hloop) as (Hev & Htot & _).
    exists (acquire_both
            ++ [SetupModes (src_workspace source);
                NewProgressBar (List.length (docs source))]
            ++ t ++ match r with Ok _ => [] | Throw e => [ConsoleError e] end
            ++ dispose_both).
    exists (totalErrors l). eexists.
    split; [ now rewrite <- !app_assoc | ].
    split; [ | split ].
    + rewrite !count_app, (count_none _ _ _ loop_event_not_summary Hev).
      now destruct r.
    + rewrite !count_app, Htot. destruct r; cbn; lia.
    + intros Hdocs. rewrite Hdocs in *. cbn in Hloop. triple Hloop.
      split; [ reflexivity | ]. split; eauto.
  - exists (acquire_both ++ [SetupModes (src_workspace source); ConsoleError e]
            ++ dispose_both), 0. eexists.
    split; [ now rewrite <- !app_assoc | ].
    split; [ reflexivity | split; [ reflexivity | ] ].
    intros Hdocs. rewrite Hdocs. split; [ reflexivity | ].
    split; [ discriminate | intros (modes & Hm); discriminate ].
Qed.

(** C9, as the code has it.  Without [failExit], the last thing
    [getDiagnostics] prints is the summary, with the number of diagnostics
    reported and the number of documents of the run, and no other line of
    the run starts like a summary.  Over no documents the line reads
    "Found: 0 errors in 0 file(s)", and the exit code is 0 exactly when the
    producers were constructed without an exception.  A run of [check]
    without [failExit] prints one summary when it exits and none when it
    rejects. *)
Theorem summary_printed_once_without_failExit
    (env : Env) (source : Source) (options : Options) (g : Globals) :
  src_failExit source = false ->
  (exists t0 errors code,
      getDiagnostics env source g
      = (t0 ++ [PrintMessage (summary_line errors (List.length (docs source)))],
         g, Ok code) /\
      count is_summary t0 = 0 /\
      errors = count is_print_error t0 /\
      (docs source = [] ->
       summary_line errors (List.length (docs source))
       = js "Found: 0 errors in 0 file(s)"
       /\ (code = 0 <-> exists modes, setupModes env (src_workspace source) = Ok modes))) /\
  (opt_failExit options = false ->
   exists t g' r,
     check env options g = (t, g', r) /\
     (forall code, r = Ok code -> count is_summary t = 1) /\
     (forall e, r = Throw e -> count is_summary t = 0)).
Proof.
  intros Hfe. split; [ now apply getDiagnostics_summary | ].
  intros Hopt. rewrite check_eq.
  destruct (traverse env _ _ _ _ _) as [[t0 g'] [ documents | e ]] eqn:Htr;
    apply traverse_file_events in Htr as [Hfiles _];
    assert (H0 : count is_summary t0 = 0)
      by (apply (count_none is_summary is_file_event); auto; intros ev; now destruct ev).
  - destruct (getDiagnostics_summary env (source_of options documents) g' Hopt)
      as (t1 & errors & code & Hrun & Hnone & _).
    rewrite Hrun. do 3 eexists. split; [ reflexivity | ].
    split; [ | discriminate ]. intros code' _.
    now rewrite !count_app, H0, Hnone.
  - exists t0, g', (Throw e). split; [ reflexivity | ].
    split; [ discriminate | ]. now intros e' _.
Qed.

(** Over no documents the summary reads "Found: 0 errors in 0 file(s)", but
    when the construction of the producers throws the exit code is 1.
    (C9 as stated fails here.) *)
Lemma no_documents_exit_code_1_when_setup_throws :
  let env :=
    Example.env Example.fs (map fst Example.fs)
      (Throw (ExternalError (js "cannot read tsconfig.json"))) in
  let options := Example.options false [] (Some (inl (js "/w/src"))) in
  check env options initial_globals
  = ([GlobSync (js "/w/**/*.vue");
      GetLanguageModelCache documentRegions;
      GetLanguageModelCache scriptRegionDocuments;
      SetupModes (js "/w");
      ConsoleError (ExternalError (js "cannot read tsconfig.json"));
      Dispose documentRegions; Dispose scriptRegionDocuments;
      PrintMessage (js "Found: 0 errors in 0 file(s)")],
     initial_globals, Ok 1).
Proof. reflexivity. Qed.

(** A run over no documents with producers that can be constructed. *)
Lemma summary_witness :
  let env := Example.env Example.fs [] (Ok Example.modes) in
  let source := Example.source false [] in
  src_failExit source = false /\
  exists t0 errors code,
    getDiagnostics env source initial_globals
    = (t0 ++ [PrintMessage (summary_line errors (List.length (docs source)))],
       initial_globals, Ok code) /\
    count is_summary t0 = 0 /\
    errors = count is_print_error t0 /\
    (docs source = [] ->
     summary_line errors (List.length (docs source)) = js "Found: 0 errors in 0 file(s)"
     /\ (code = 0 <-> exists modes, setupModes env (src_workspace source) = Ok modes)).
Proof.
  intros env source. split; [ reflexivity | ].
  exact (proj1 (summary_printed_once_without_failExit env source
                  (Example.options false [] None) initial_globals eq_refl)).
Defined.

(** Scenario B of the specification: every file is under the excluded
    folder. *)
Example scenario_B :
  let env := Example.env Example.fs (map fst Example.fs) (Ok Example.modes) in
  check env (Example.options false [] (Some (inl (js "/w/src")))) initial_globals
  = ([GlobSync (js "/w/**/*.vue");
      GetLanguageModelCache documentRegions;
      GetLanguageModelCache scriptRegionDocuments;
      SetupModes (js "/w"); NewProgressBar 0;
      Dispose documentRegions; Dispose scriptRegionDocuments;
      PrintMessage (js "Found: 0 errors in 0 file(s)")],
     initial_globals, Ok 0).
Proof. reflexivity. Qed.

(* ================================================================== *)
(** * Entries of [excludeDirs] as fragments of a pattern *)

(** C10.  The pattern is the resolved entries, joined by [|], between
    [^(?:] and [).*$], with nothing escaped, and it is compiled when the
    first candidate is tested: a pattern that does not compile makes
    [traverse] reject as soon as there is a candidate.  So there is an entry
    with a dot for which a candidate that does not start with the resolved
    entry is dropped all the same, and there is an entry with an opening
    parenthesis for which compiling the pattern throws. *)
Theorem exclusion_entries_are_pattern_fragments :
  (forall env dirs,
      exclusion_pattern env dirs
      = (js "^(?:" ++ Str.join (js "|") (map (Path.resolve (cwd env)) dirs) ++ js ").*$")) /\
  (forall env root onlyTypeScript changedFiles dirs g msg,
      RegExp.parse (exclusion_pattern env dirs) = RegExp.SyntaxError msg ->
      snd (candidates env root onlyTypeScript changedFiles g) <> [] ->
      traverse env root onlyTypeScript changedFiles (Some dirs) g
      = (fst (candidates env root onlyTypeScript changedFiles g), g,
         Throw (RegExpSyntaxError msg))) /\
  (exists dir target,
      In (ch ".") dir /\
      Str.starts_with (Path.resolve (js "/w") dir) target = false /\
      forall fs found setup,
        traverse (Example.env fs found setup) (js "/w") false [target] (Some [dir])
          initial_globals
        = ([], initial_globals, Ok [])) /\
  (exists dir target msg,
      In (ch "(") dir /\
      forall fs found setup,
        traverse (Example.env fs found setup) (js "/w") false [target] (Some [dir])
          initial_globals
        = ([], initial_globals, Throw (RegExpSyntaxError msg))).
Proof.
  split; [ reflexivity | split; [ | split ] ].
  - intros env root onlyTypeScript changedFiles dirs g msg Hparse Hcands.
    rewrite traverse_eq.
    destruct (candidates env root onlyTypeScript changedFiles g) as [t0 cands].
    cbn [fst snd] in *. unfold select, exclude, RegExp_new.
    destruct cands; [ congruence | ]. now rewrite Hparse.
  - exists (js "/w/src/a.vue"), (js "/w/src/axvue/b.vue").
    split; [ cbn; tauto | ]. split; [ reflexivity | ].
    intros fs found setup. reflexivity.
  - exists (js "/w/src/(old"), (js "/w/src/a.vue"), (js "Unterminated group").
    split; [ cbn; tauto | ].
    intros fs found setup. reflexivity.
Qed.

(* ================================================================== *)
(** * The [--excludeDir] script *)

(** [s.endsWith(suffix)] is true exactly of the strings that are some text
    followed by [suffix]. *)
Lemma ends_with_spec (suffix s : string) :
  ends_with suffix s = true <-> exists p, s = p ++ suffix.
Proof.
  unfold ends_with. rewrite andb_true_iff, Nat.leb_le, string_eqb_eq. split.
  - intros [Hlen Hsuffix].
    exists (firstn (List.length s - List.length suffix) s).
    rewrite <- (firstn_skipn (List.length s - List.length suffix) s) at 1.
    now rewrite Hsuffix.
  - intros [p ->]. rewrite length_app. split; [lia|].
    replace (List.length p + List.length suffix - List.length suffix)
      with (List.length p) by lia.
    rewrite skipn_app, skipn_all, Nat.sub_diag. reflexivity.
Qed.

Lemma forEach_from (argv : list string) :
  forall index finalCmd,
    Script.forEach argv index finalCmd
    = finalCmd
      ++ map (app (js "--excludeDir "))
           (filter (ends_with (js ".vue")) (skipn (2 - index) argv)).
Proof.
  induction argv as [|val rest IH]; intros index finalCmd.
  - cbn [Script.forEach]. rewrite skipn_nil. cbn. now rewrite app_nil_r.
  - cbn [Script.forEach]. rewrite IH. unfold Script.visit.
    destruct index as [|[|index]]; cbn [Nat.ltb Nat.leb andb Nat.sub skipn].
    + reflexivity.
    + reflexivity.
    + cbn [filter]. destruct (ends_with (js ".vue") val); cbn [map].
      * now rewrite <- app_assoc.
      * reflexivity.
Qed.

Lemma join_empty (sep : string) (l : list string) :
  Forall (fun x => x <> []) l ->
  Str.join sep l = [] -> l = [].
Proof.
  intros Hl H. destruct l as [|x [|y l]]; [reflexivity | | ].
  - cbn in H. inversion Hl; subst. contradiction.
  - exfalso. inversion Hl as [|? ? Hx _]; subst. destruct x; [now apply Hx|].
    cbn in H. discriminate.
Qed.

(** X1: the script prints, on one line and separated by single spaces, one
    [--excludeDir] option for each argument after the first two that ends in
    [.vue], in the order of the command line, and nothing for any other
    argument; it exits with code 0. *)
Theorem script_prints_one_option_per_vue_argument (argv : list string) :
  Script.console_log (Script.main argv)
  = Str.join (js " ")
      (map (app (js "--excludeDir "))
         (filter (ends_with (js ".vue")) (skipn 2 argv)))
  /\ Script.exit_code (Script.main argv) = 0.
Proof.
  split; [|reflexivity].
  unfold Script.main. cbn [Script.console_log].
  now rewrite forEach_from.
Qed.

(** X2: the line the script prints is empty exactly when no argument after
    the first two is some text followed by [.vue]; the first two arguments
    (the interpreter and the script) never contribute, whatever they are. *)
Theorem script_prints_nothing_without_vue_arguments
    (node script : string) (args : list string) :
  Script.console_log (Script.main (node :: script :: args)) = []
  <-> forall val, In val args -> ~ exists p, val = (p ++ js ".vue").
Proof.
  unfold Script.main. cbn [Script.console_log]. rewrite forEach_from.
  cbn [Nat.sub skipn app]. split.
  - intros H val Hin Hval. apply join_empty in H.
    + apply ends_with_spec in Hval.
      assert (Hf : In val (filter (ends_with (js ".vue")) args))
        by (apply filter_In; now split).
      apply (in_map (app (js "--excludeDir "))) in Hf.
      rewrite H in Hf. exact Hf.
    + apply Forall_forall. intros x Hx. apply in_map_iff in Hx as (v & <- & _).
      discriminate.
  - intros H.
    assert (Hf : filter (ends_with (js ".vue")) args = []).
    { induction args as [|a args IH]; [reflexivity|]. cbn [filter].
      destruct (ends_with (js ".vue") a) eqn:Ha.
      - exfalso. apply (H a); [now left | now apply ends_with_spec].
      - apply IH. intros v Hv. apply H. now right. }
    now rewrite Hf.
Qed.

(* ================================================================== *)
(** * The tag heuristics, line by line *)

Lemma one_line_app (a b : list N) :
  one_line (a ++ b) = one_line a && one_line b.
Proof. apply forallb_app. Qed.

Lemma one_line_not_terminator (w : list N) (c : N) :
  one_line w = true -> is_line_terminator c = true -> ~ In c w.
Proof.
  intros Hw Hc Hin. unfold one_line in Hw. rewrite forallb_forall in Hw.
  specialize (Hw c Hin). rewrite Hc in Hw. discriminate.
Qed.

Lemma has_script_tag_occurs (src : string) :
  has_script_tag src <-> occurs script_tag src.
Proof.
  split.
  - intros (a & l & b & E & Hl). exists a, (js "<script" ++ l ++ js ">"), b.
    split; [|now exists l]. rewrite E. now rewrite <- !app_assoc.
  - intros (a & w & b & E & l & -> & Hl). exists a, l, b.
    split; [|exact Hl]. rewrite E. now rewrite <- !app_assoc.
Qed.

Lemma has_typescript_tag_occurs (src : string) :
  has_typescript_tag src <-> occurs typescript_tag src.
Proof.
  split.
  - intros (a & l1 & x & l2 & b & E & Hx & H1 & H2).
    exists a, (js "<script" ++ l1 ++ js "lang=" ++ quote ++ js "ts" ++ x ++ quote
               ++ l2 ++ js ">"), b.
    split; [|now exists l1, x, l2]. rewrite E. now rewrite <- !app_assoc.
  - intros (a & w & b & E & l1 & x & l2 & -> & Hx & H1 & H2). exists a, l1, x, l2, b.
    split; [|now repeat split]. rewrite E. now rewrite <- !app_assoc.
Qed.

Lemma has_external_script_tag_occurs (src : string) :
  has_external_script_tag src <-> occurs external_script_tag src.
Proof.
  split.
  - intros (a & l1 & v & l2 & b & E & H1 & Hv & H2).
    exists a, (js "<script" ++ l1 ++ js "src=" ++ quote ++ v ++ quote
               ++ l2 ++ js ">"), b.
    split; [|now exists l1, v, l2]. rewrite E. now rewrite <- !app_assoc.
  - intros (a & w & b & E & l1 & v & l2 & -> & H1 & Hv & H2). exists a, l1, v, l2, b.
    split; [|now repeat split]. rewrite E. now rewrite <- !app_assoc.
Qed.

Lemma script_tag_one_line (w : list N) : script_tag w -> one_line w = true.
Proof.
  intros (l & -> & Hl). rewrite !one_line_app, Hl. reflexivity.
Qed.

Lemma typescript_tag_one_line (w : list N) : typescript_tag w -> one_line w = true.
Proof.
  intros (l1 & x & l2 & -> & Hx & H1 & H2). rewrite !one_line_app, H1, H2.
  destruct Hx as [-> | ->]; reflexivity.
Qed.

Lemma external_script_tag_one_line (w : list N) :
  external_script_tag w -> one_line w = true.
Proof.
  intros (l1 & v & l2 & -> & H1 & Hv & H2). rewrite !one_line_app, H1, Hv, H2.
  reflexivity.
Qed.

(** A piece of text without [c] that lies in [a ++ c :: b] lies in [a] or
    in [b]. *)
Lemma piece_before (w post a b : list N) (c : N) :
  ~ In c w ->
  forall a, w ++ post = a ++ c :: b -> exists r, a = w ++ r /\ post = r ++ c :: b.
Proof.
  intros Hc. induction w as [|x w IH]; intros a' E.
  - exists a'. now split.
  - destruct a' as [|y a'].
    + cbn in E. injection E as -> _. exfalso. apply Hc. now left.
    + cbn in E. injection E as -> E.
      destruct (IH (fun H => Hc (or_intror H)) a' E) as (r & -> & ->).
      now exists r.
Qed.

Lemma piece_of_lines (pre w post b : list N) (c : N) :
  ~ In c w ->
  forall a,
    pre ++ w ++ post = a ++ c :: b ->
    (exists r, a = pre ++ w ++ r /\ post = r ++ c :: b)
    \/ (exists r, b = r ++ w ++ post /\ pre = a ++ c :: r).
Proof.
  intros Hc. induction pre as [|x pre IH]; intros a E.
  - left. cbn in E. destruct (piece_before w post a b c Hc a E) as (r & -> & ->).
    now exists r.
  - destruct a as [|y a].
    + right. cbn in E. injection E as -> E. now exists pre.
    + cbn in E. injection E as -> E.
      destruct (IH a E) as [(r & -> & ->) | (r & -> & ->)].
      * left. now exists r.
      * right. now exists r.
Qed.

Lemma occurs_context (P : list N -> Prop) (p s q : string) :
  occurs P s -> occurs P (p ++ s ++ q).
Proof.
  intros (a & w & b & E & Hw).
  exists (p ++ a), w, (b ++ q). split; [|exact Hw].
  rewrite E. now rewrite <- !app_assoc.
Qed.

Lemma occurs_lines (P : list N -> Prop) (a b : string) (c : N) :
  (forall w, P w -> one_line w = true) ->
  is_line_terminator c = true ->
  occurs P (a ++ c :: b) <-> occurs P a \/ occurs P b.
Proof.
  intros HP Hc. split.
  - intros (pre & w & post & E & Hw).
    symmetry in E.
    assert (Hin : ~ In c w) by (apply one_line_not_terminator; auto).
    destruct (piece_of_lines pre w post b c Hin a)
      as [(r & Ha & _) | (r & Hb & _)].
    + now symmetry.
    + left. now exists pre, w, r.
    + right. now exists r, w, post.
  - intros [H | H].
    + apply (occurs_context P [] a (c :: b)) in H. exact H.
    + apply (occurs_context P (a ++ [c]) b []) in H.
      replace (a ++ c :: b)
        with ((a ++ [c]) ++ b ++ []); [exact H|].
      clear. induction a as [|x a IH]; cbn.
      * f_equal. induction b as [|y b IHb]; cbn; [reflexivity | now rewrite IHb].
      * now rewrite IH.
Qed.

Lemma bool_eq_iff (x y : bool) : (x = true <-> y = true) -> x = y.
Proof. destruct x, y; intuition congruence. Qed.

Lemma hasScriptTag_occurs (src : string) :
  hasScriptTag src = true <-> occurs script_tag src.
Proof. rewrite hasScriptTag_spec. apply has_script_tag_occurs. Qed.

Lemma isTs_occurs (src : string) : isTs src = true <-> occurs typescript_tag src.
Proof. rewrite isTs_spec. apply has_typescript_tag_occurs. Qed.

Lemma isImportOtherTs_occurs (src : string) :
  isImportOtherTs src = true <-> occurs external_script_tag src.
Proof. rewrite isImportOtherTs_spec. apply has_external_script_tag_occurs. Qed.

Lemma typescript_tag_is_script_tag (w : list N) : typescript_tag w -> script_tag w.
Proof.
  intros (l1 & x & l2 & -> & Hx & H1 & H2).
  exists (l1 ++ js "lang=" ++ quote ++ js "ts" ++ x ++ quote ++ l2). split.
  - now rewrite <- !app_assoc.
  - rewrite !one_line_app, H1, H2. destruct Hx as [-> | ->]; reflexivity.
Qed.

Lemma external_script_tag_is_script_tag (w : list N) :
  external_script_tag w -> script_tag w.
Proof.
  intros (l1 & v & l2 & -> & H1 & Hv & H2).
  exists (l1 ++ js "src=" ++ quote ++ v ++ quote ++ l2). split.
  - now rewrite <- !app_assoc.
  - rewrite !one_line_app, H1, Hv, H2. reflexivity.
Qed.

Lemma occurs_weaken (P Q : list N -> Prop) (src : string) :
  (forall w, P w -> Q w) -> occurs P src -> occurs Q src.
Proof. intros HPQ (a & w & b & E & Hw). exists a, w, b. auto. Qed.

(** X3: a text in which [isTs] or [isImportOtherTs] finds its tag is one in
    which [hasScriptTag] finds a script tag; so for a component file the
    [onlyTypeScript] filter answers [!hasScriptTag || isTs || isImportOtherTs]
    whatever the order of the three tests. *)
Theorem typescript_and_external_tags_are_script_tags (content : string) :
  (isTs content = true -> hasScriptTag content = true) /\
  (isImportOtherTs content = true -> hasScriptTag content = true) /\
  (forall path,
      keep_typescript {| absFilePath := path; fileExt := js "vue"; src := content |}
      = negb (hasScriptTag content) || isTs content || isImportOtherTs content).
Proof.
  assert (Hts : isTs content = true -> hasScriptTag content = true).
  { intros H. apply hasScriptTag_occurs. apply isTs_occurs in H.
    revert H. apply occurs_weaken, typescript_tag_is_script_tag. }
  assert (Hext : isImportOtherTs content = true -> hasScriptTag content = true).
  { intros H. apply hasScriptTag_occurs. apply isImportOtherTs_occurs in H.
    revert H. apply occurs_weaken, external_script_tag_is_script_tag. }
  split; [exact Hts | split; [exact Hext |]].
  intros path. unfold keep_typescript. cbn [fileExt src].
  change (Str.eqb (js "vue") (js "vue")) with true. cbn [negb orb].
  destruct (hasScriptTag content) eqn:Hs; cbn [negb orb]; [reflexivity|].
  destruct (isTs content); [now specialize (Hts eq_refl)|].
  destruct (isImportOtherTs content); [now specialize (Hext eq_refl)|].
  reflexivity.
Qed.

Lemma typescript_tag_has_quote (w : list N) : typescript_tag w -> In Str.dquote w.
Proof.
  intros (l1 & x & l2 & -> & _). apply in_or_app. right. apply in_or_app. right.
  apply in_or_app. right. apply in_or_app. left. now left.
Qed.

Lemma external_script_tag_has_quote (w : list N) :
  external_script_tag w -> In Str.dquote w.
Proof.
  intros (l1 & v & l2 & -> & _). apply in_or_app. right. apply in_or_app. right.
  apply in_or_app. right. apply in_or_app. left. now left.
Qed.

Lemma occurs_In (P : list N -> Prop) (c : N) (src : string) :
  (forall w, P w -> In c w) -> occurs P src -> In c src.
Proof.
  intros HP (a & w & b & -> & Hw). apply in_or_app. right. apply in_or_app. left. auto.
Qed.

(** X4: the two tests for a TypeScript component look for attribute values
    in double quotes only.  In a text without a double quote neither finds
    anything, so a component file with a script tag and no double quote (for
    instance with [lang='ts'] in single quotes) is removed by the
    [onlyTypeScript] filter. *)
Theorem attributes_need_double_quotes (content : string) :
  ~ In Str.dquote content ->
  isTs content = false /\ isImportOtherTs content = false /\
  forall path,
    keep_typescript {| absFilePath := path; fileExt := js "vue"; src := content |}
    = negb (hasScriptTag content).
Proof.
  intros Hq.
  assert (Hts : isTs content = false).
  { destruct (isTs content) eqn:H; [|reflexivity]. exfalso. apply Hq.
    apply isTs_occurs in H. revert H. apply occurs_In, typescript_tag_has_quote. }
  assert (Hext : isImportOtherTs content = false).
  { destruct (isImportOtherTs content) eqn:H; [|reflexivity]. exfalso. apply Hq.
    apply isImportOtherTs_occurs in H. revert H.
    apply occurs_In, external_script_tag_has_quote. }
  split; [exact Hts | split; [exact Hext |]].
  intros path. unfold keep_typescript. cbn [fileExt src].
  change (Str.eqb (js "vue") (js "vue")) with true. cbn [negb orb].
  rewrite Hts, Hext. now destruct (hasScriptTag content).
Qed.

Lemma attributes_need_double_quotes_witness :
  let content := js "<script lang='ts'>export default {}</script>" in
  ~ In Str.dquote content /\
  hasScriptTag content = true /\
  isTs content = false /\ isImportOtherTs content = false /\
  forall path,
    keep_typescript {| absFilePath := path; fileExt := js "vue"; src := content |}
    = negb (hasScriptTag content).
Proof.
  intros content.
  assert (Hq : ~ In Str.dquote content).
  { intros H. vm_compute in H. intuition discriminate. }
  split; [exact Hq | split; [reflexivity |]].
  exact (attributes_need_double_quotes content Hq).
Defined.

(** X5: the three tests read a text line by line: each of them finds its
    tag in two texts joined by a line terminator (a line feed, a carriage
    return, U+2028 or U+2029) exactly when it finds it in one of the two.
    A tag that is spread over several lines is not found. *)
Theorem tag_tests_work_line_by_line (a b : string) (c : N) :
  is_line_terminator c = true ->
  hasScriptTag (a ++ c :: b) = hasScriptTag a || hasScriptTag b /\
  isTs (a ++ c :: b) = isTs a || isTs b /\
  isImportOtherTs (a ++ c :: b) = isImportOtherTs a || isImportOtherTs b.
Proof.
  intros Hc. repeat split; apply bool_eq_iff; rewrite orb_true_iff.
  - rewrite !hasScriptTag_occurs. now apply occurs_lines; [apply script_tag_one_line|].
  - rewrite !isTs_occurs. now apply occurs_lines; [apply typescript_tag_one_line|].
  - rewrite !isImportOtherTs_occurs.
    now apply occurs_lines; [apply external_script_tag_one_line|].
Qed.

Lemma tag_tests_line_by_line_witness :
  let a := js "<script" in
  let b := (js " lang=" ++ Example.quoted (js "ts") ++ js ">") in
  is_line_terminator Str.newline = true /\
  hasScriptTag (a ++ Str.newline :: b) = false /\
  isTs (a ++ Str.newline :: b) = false /\
  isImportOtherTs (a ++ Str.newline :: b) = false.
Proof.
  intros a b.
  destruct (tag_tests_work_line_by_line a b Str.newline eq_refl) as (H1 & H2 & H3).
  split; [reflexivity|]. rewrite H1, H2, H3. now vm_compute.
Defined.

(** X6: the three tests look for their tag anywhere in the text: what
    stands before and after a text in which a tag is found does not hide
    it - be it a comment, a string or a template around it. *)
Theorem tag_tests_ignore_context (p s q : string) :
  (hasScriptTag s = true -> hasScriptTag (p ++ s ++ q) = true) /\
  (isTs s = true -> isTs (p ++ s ++ q) = true) /\
  (isImportOtherTs s = true -> isImportOtherTs (p ++ s ++ q) = true).
Proof.
  repeat split.
  - rewrite !hasScriptTag_occurs. apply occurs_context.
  - rewrite !isTs_occurs. apply occurs_context.
  - rewrite !isImportOtherTs_occurs. apply occurs_context.
Qed.

(* ================================================================== *)
(** * The loop over the documents, as a whole *)

Section Run.

Variable env : Env.
Variable modes : Modes.
Variables onlyTemplate failExit : bool.

Lemma count_nil (p : Event -> bool) : count p [] = 0.
Proof. reflexivity. Qed.

Lemma report_output (doc : TextDocument) (d : Diagnostic) :
  forallb is_output (report env doc d) = true.
Proof.
  unfold report. cbn [forallb is_output andb].
  apply forallb_flat_map. intros ln. now destruct (Nat.eqb _ _).
Qed.

Lemma reports_none (p : Event -> bool) (doc : TextDocument) (results : list Diagnostic) :
  (forall e, is_output e = true -> p e = false) ->
  count p (flat_map (report env doc) results) = 0.
Proof.
  intros Hp. apply (count_none p is_output); [exact Hp|].
  apply forallb_flat_map. intros d. apply report_output.
Qed.

Lemma reports_not_validated (doc : TextDocument) (results : list Diagnostic) :
  validated (flat_map (report env doc) results) = [].
Proof. apply validated_none, reports_none. now intros []. Qed.

Lemma reports_no_stop_notice (doc : TextDocument) (results : list Diagnostic) :
  count is_stop_notice (flat_map (report env doc) results) = 0.
Proof.
  rewrite (count_flat_map_const is_stop_notice (report env doc) 0).
  - reflexivity.
  - intros d. apply report_no_stop_notice.
Qed.

Lemma reports_print_errors (doc : TextDocument) (results : list Diagnostic) :
  count is_print_error (flat_map (report env doc) results) = List.length results.
Proof.
  rewrite (count_flat_map_const is_print_error (report env doc) 1).
  - apply Nat.mul_1_l.
  - intros d. apply report_print_errors.
Qed.

Lemma producer_calls_script (doc : TextDocument) :
  count is_script_validation (producer_calls modes onlyTemplate doc) <= 1 /\
  (onlyTemplate = true ->
   count is_script_validation (producer_calls modes onlyTemplate doc) = 0).
Proof.
  unfold producer_calls, asks_script.
  destruct (vueMode_doValidation modes doc), (scriptMode_doValidation modes),
    onlyTemplate; cbn; split; intros; try lia; discriminate.
Qed.

Lemma producer_calls_no_tick (doc : TextDocument) :
  count is_tick (producer_calls modes onlyTemplate doc) = 0.
Proof. unfold producer_calls. now destruct (asks_script _ _ _). Qed.

(** What every run of the loop keeps to, however it ends. *)
Lemma loop_progress (docs : list TextDocument) :
  forall l t l' r,
    for_of docs (check_document env modes onlyTemplate failExit) l = (t, l', r) ->
    exists n,
      n <= List.length docs /\
      validated t = firstn n docs /\
      count is_tick t + match r with Ok _ => 0 | Throw _ => 1 end = n /\
      count is_script_validation t <= n /\
      (onlyTemplate = true -> count is_script_validation t = 0) /\
      count is_stop_notice t <= 1 /\
      (count is_stop_notice t = 1 -> hasError l' = true /\ failExit = true) /\
      (hasError l = false -> failExit = true -> (exists u, r = Ok u) ->
       hasError l' = true -> count is_stop_notice t = 1) /\
      (failExit = false -> (exists u, r = Ok u) -> n = List.length docs).
Proof.
  induction docs as [|doc rest IH]; intros l t l' r H.
  - cbn in H. triple H. exists 0. cbn.
    repeat (split; [lia || reflexivity || (intros; congruence) |]).
    reflexivity.
  - rewrite for_of_cons, check_document_eq in H.
    destruct (producer_calls_script doc) as [Hs1 Hs0].
    destruct (yields modes onlyTemplate doc) as [results | e] eqn:Hy.
    + cbv zeta in H.
      destruct (hasError (account results l) && failExit) eqn:Hstop.
      * triple H. exists 1.
        apply andb_true_iff in Hstop as [Herr Hfe].
        rewrite !validated_app, !count_app, producer_calls_validated,
          reports_not_validated, producer_calls_no_tick, reports_no_stop_notice,
          producer_calls_no_stop_notice.
        rewrite !reports_none by now intros [].
        rewrite !count_cons, !count_nil.
        cbn [validated app firstn List.length is_tick is_script_validation
               is_stop_notice].
        rewrite string_eqb_refl.
        split; [lia|]. split; [reflexivity|]. split; [reflexivity|].
        split; [lia|]. split; [intros Ho; rewrite (Hs0 Ho); reflexivity|].
        split; [lia|]. split; [now split|]. split; [reflexivity|].
        intros Hf. congruence.
      * destruct (for_of rest (check_document env modes onlyTemplate failExit)
                    (account results l)) as [[t' l2] r'] eqn:Hrest.
        triple H.
        destruct (IH _ _ _ _ Hrest)
          as (n & Hn & Hv & Ht & Hsc & Hso & Hst & Hst1 & Hst2 & Hall).
        exists (S n).
        rewrite !validated_app, !count_app, producer_calls_validated,
          reports_not_validated, producer_calls_no_tick, reports_no_stop_notice,
          producer_calls_no_stop_notice.
        rewrite !reports_none by now intros [].
        rewrite !count_cons, !count_nil.
        cbn [validated app firstn List.length is_tick is_script_validation
               is_stop_notice].
        rewrite Hv.
        split; [lia|]. split; [reflexivity|]. split; [lia|].
        split; [lia|]. split; [intros Ho; rewrite (Hs0 Ho), (Hso Ho); reflexivity|].
        split; [exact Hst|]. split; [exact Hst1|].
        split.
        { intros Hl Hfe Hr Hl'. cbn [Nat.add]. apply Hst2; auto.
          rewrite Hfe, andb_true_r in Hstop. exact Hstop. }
        intros Hf Hr. f_equal. now apply Hall.
    + triple H. exists 1.
      rewrite producer_calls_validated, producer_calls_no_tick,
        producer_calls_no_stop_notice.
      cbn [firstn List.length].
      split; [lia|]. split; [reflexivity|]. split; [reflexivity|].
      split; [exact Hs1|]. split; [exact Hs0|]. split; [lia|].
      split; [discriminate|]. split; [intros _ _ [u Hu]; discriminate|].
      intros _ [u Hu]. discriminate.
Qed.

Lemma filter_none (p : Event -> bool) (t : Trace) : count p t = 0 -> filter p t = [].
Proof. unfold count. apply length_zero_iff_nil. Qed.

Lemma producer_calls_are_validations (doc : TextDocument) :
  filter is_validation (producer_calls modes onlyTemplate doc)
  = producer_calls modes onlyTemplate doc.
Proof. unfold producer_calls. now destruct (asks_script _ _ _). Qed.

(** The validation calls of the loop: for each document the template
    producer is asked about, its calls, and nothing else. *)
Lemma loop_validation_calls (docs : list TextDocument) :
  forall l t l' r,
    for_of docs (check_document env modes onlyTemplate failExit) l = (t, l', r) ->
    filter is_validation t = flat_map (producer_calls modes onlyTemplate) (validated t).
Proof.
  induction docs as [|doc rest IH]; intros l t l' r H.
  - cbn in H. triple H. reflexivity.
  - rewrite for_of_cons, check_document_eq in H.
    destruct (yields modes onlyTemplate doc) as [results | e] eqn:Hy.
    + cbv zeta in H.
      destruct (hasError (account results l) && failExit) eqn:Hstop.
      * triple H.
        rewrite !filter_app, !validated_app, producer_calls_are_validations,
          producer_calls_validated, reports_not_validated.
        rewrite (filter_none is_validation (flat_map (report env doc) results))
          by (apply reports_none; now intros []).
        cbn. now rewrite app_nil_r.
      * destruct (for_of rest (check_document env modes onlyTemplate failExit)
                    (account results l)) as [[t' l2] r'] eqn:Hrest.
        triple H.
        rewrite !filter_app, !validated_app, producer_calls_are_validations,
          producer_calls_validated, reports_not_validated.
        rewrite (filter_none is_validation (flat_map (report env doc) results))
          by (apply reports_none; now intros []).
        cbn [filter is_validation validated app flat_map].
        now rewrite app_nil_r, (IH _ _ _ _ Hrest).
    + triple H.
      rewrite producer_calls_are_validations, producer_calls_validated.
      cbn. now rewrite app_nil_r.
Qed.

(** A loop that nothing stops: no [failExit], no exception. *)
Lemma loop_complete (docs : list TextDocument) :
  failExit = false ->
  Forall (fun doc => exists results, yields modes onlyTemplate doc = Ok results) docs ->
  forall l,
    exists t l',
      for_of docs (check_document env modes onlyTemplate failExit) l = (t, l', Ok tt) /\
      validated t = docs /\
      count is_tick t = List.length docs /\
      count is_print_error t = total_diagnostics modes onlyTemplate docs.
Proof.
  intros Hfe Hall. induction Hall as [|doc rest [results Hy] _ IH]; intros l.
  - exists [], l. repeat split.
  - rewrite for_of_cons, check_document_eq, Hy. cbv zeta.
    replace (hasError (account results l) && failExit) with false
      by (rewrite Hfe; symmetry; apply andb_false_r).
    destruct (IH (account results l)) as (t' & l2 & Hrest & Hv & Ht & Hp).
    rewrite Hrest.
    eexists _, l2. split; [reflexivity|].
    rewrite !validated_app, !count_app, producer_calls_validated,
      reports_not_validated, producer_calls_no_tick, producer_calls_print_errors,
      reports_print_errors.
    rewrite !reports_none by now intros [].
    rewrite !count_cons, !count_nil.
    cbn [validated app List.length is_tick is_print_error]. rewrite Hv.
    split; [reflexivity|]. split; [lia|].
    assert (Hsum : total_diagnostics modes onlyTemplate (doc :: rest)
                   = List.length results + total_diagnostics modes onlyTemplate rest).
    { unfold total_diagnostics, diagnostics_of. cbn [map]. now rewrite Hy. }
    rewrite Hsum, Hp. lia.
Qed.

End Run.

(** The events of [getDiagnostics] around its loop, for a property of the
    trace that they do not touch. *)
Ltac around_the_loop :=
  unfold acquire_both, dispose_both, summary;
  repeat rewrite ?validated_app, ?count_app, ?count_cons, ?count_nil;
  cbn [validated app is_tick is_script_validation is_console_error is_stop_notice
         is_summary is_print_error progress_bars].

Lemma summary_line_not_stop_notice (errors documents : nat) :
  Str.eqb (summary_line errors documents) stop_notice = false.
Proof. reflexivity. Qed.

Lemma summary_is_summary (errors documents : nat) :
  is_summary (PrintMessage (summary_line errors documents)) = true.
Proof. reflexivity. Qed.

Lemma progress_bars_app (a b : Trace) :
  progress_bars (a ++ b) = progress_bars a ++ progress_bars b.
Proof.
  induction a as [|e a IH]; [reflexivity|].
  destruct e; cbn [app progress_bars]; now rewrite IH.
Qed.

Lemma progress_bars_none (t : Trace) :
  forallb loop_event t = true -> progress_bars t = [].
Proof.
  induction t as [|e t IH]; [reflexivity|]. cbn [forallb]. intros H.
  apply andb_true_iff in H as [He Ht]. destruct e; try discriminate; cbn; auto.
Qed.

(** X7: in every run of [getDiagnostics] the documents handed to the
    template producer are an initial part of [docs], each once and in the
    order of the list.  The validation calls of the run are, for each of
    these documents in turn, the call of the template producer and then,
    if the script producer is asked about the document, its call - and no
    other; the script producer is never asked when [onlyTemplate] is set.
    The progress bar is advanced once for each of these documents, except
    for the one on which a producer threw: the ticks and the one exception
    that may be logged add up to their number.  When the producers cannot
    be constructed nothing is validated. *)
Theorem documents_are_validated_in_order {S}
    (env : Env) (source : Source) (s : S) :
  exists t code n,
    getDiagnostics env source s = (t, s, Ok code) /\
    n <= List.length (docs source) /\
    validated t = firstn n (docs source) /\
    count is_console_error t <= 1 /\
    match setupModes env (src_workspace source) with
    | Ok modes =>
        filter is_validation t
        = flat_map (producer_calls modes (src_onlyTemplate source))
            (firstn n (docs source)) /\
        count is_tick t + count is_console_error t = n
    | Throw _ => n = 0 /\ count is_validation t = 0 /\ count is_tick t = 0
    end /\
    (src_onlyTemplate source = true -> count is_script_validation t = 0).
Proof.
  rewrite getDiagnostics_eq. cbv zeta.
  destruct (setupModes env (src_workspace source)) as [modes | e].
  - destruct (for_of (docs source) _ fresh_locals) as [[t l] r] eqn:Hloop.
    destruct (loop_progress _ _ _ _ _ _ _ _ _ Hloop)
      as (n & Hn & Hv & Ht & Hsc & Hso & _).
    pose proof (loop_validation_calls _ _ _ _ _ _ _ _ _ Hloop) as Hcalls.
    destruct (loop_invariant _ _ _ _ _ _ _ _ _ Hloop) as (Hev & _).
    assert (Hce : count is_console_error t = 0)
      by (apply (count_none _ loop_event); [apply loop_event_not_console | exact Hev]).
    rewrite Hv in Hcalls.
    eexists _, _, n. split; [reflexivity|].
    destruct (src_failExit source), r as [u | e]; around_the_loop;
      rewrite ?app_nil_r, ?Hv, ?Hce;
      unfold acquire_both, dispose_both, summary;
      cbn [app filter is_validation]; rewrite ?filter_app, ?Hcalls;
      cbn [app filter is_validation]; rewrite ?app_nil_r;
      cbn [Nat.add] in *;
      (split; [exact Hn|]); (split; [reflexivity|]); (split; [lia|]);
      (split; [split; [reflexivity | lia]|]);
      intros Ho; rewrite (Hso Ho); reflexivity.
  - eexists _, _, 0. split; [reflexivity|].
    destruct (src_failExit source); around_the_loop; cbn;
      repeat (split; [lia || reflexivity|]); reflexivity.
Qed.

(** X8: a run of [getDiagnostics] without [failExit] in which no producer
    throws validates every document, in order, advances the progress bar
    once per document, and ends with the summary line that counts the
    diagnostics of all documents and the documents; one error line is
    printed per diagnostic, and the exit code is 0 exactly when there is
    none. *)
Theorem unstopped_run_validates_and_counts_everything {S}
    (env : Env) (source : Source) (s : S) (modes : Modes) :
  let documents := docs source in
  let total := total_diagnostics modes (src_onlyTemplate source) documents in
  src_failExit source = false ->
  setupModes env (src_workspace source) = Ok modes ->
  Forall (fun doc => exists results,
              yields modes (src_onlyTemplate source) doc = Ok results) documents ->
  exists t0,
    getDiagnostics env source s
    = (t0 ++ [PrintMessage (summary_line total (List.length documents))], s,
       Ok (if Nat.eqb total 0 then 0 else 1)) /\
    validated t0 = documents /\
    count is_tick t0 = List.length documents /\
    progress_bars t0 = [List.length documents] /\
    count is_print_error t0 = total /\
    count is_console_error t0 = 0.
Proof.
  intros documents total Hfe Hsetup Hall.
  rewrite getDiagnostics_eq. cbv zeta. rewrite Hsetup.
  destruct (loop_complete env modes (src_onlyTemplate source) (src_failExit source)
              documents Hfe Hall fresh_locals) as (t & l & Hloop & Hv & Ht & Hp).
  fold documents. rewrite Hloop.
  destruct (loop_invariant _ _ _ _ _ _ _ _ _ Hloop) as (Hev & Herrs & Herr & _).
  cbn [totalErrors hasError fresh_locals Nat.add orb] in Herrs, Herr.
  rewrite Hp in Herrs, Herr. rewrite Herrs, Herr, Hfe.
  exists (acquire_both
          ++ [SetupModes (src_workspace source); NewProgressBar (List.length documents)]
          ++ t ++ dispose_both).
  split.
  - unfold summary. rewrite <- !app_assoc. cbn [app].
    unfold total. now destruct (Nat.eqb _ 0).
  - around_the_loop. rewrite !progress_bars_app, (progress_bars_none t Hev), Hv, Ht, Hp.
    rewrite (count_none is_console_error loop_event t loop_event_not_console Hev).
    cbn. rewrite !app_nil_r, !Nat.add_0_r. repeat split.
Qed.

Lemma unstopped_run_witness :
  let env := Example.env Example.fs [] (Ok Example.modes) in
  let source := Example.source false [Example.doc_a; Example.doc_b] in
  exists t0,
    getDiagnostics env source initial_globals
    = (t0 ++ [PrintMessage (js "Found: 1 errors in 2 file(s)")], initial_globals, Ok 1) /\
    validated t0 = [Example.doc_a; Example.doc_b] /\
    count is_tick t0 = 2 /\
    progress_bars t0 = [2] /\
    count is_print_error t0 = 1 /\
    count is_console_error t0 = 0.
Proof.
  intros env source.
  refine (unstopped_run_validates_and_counts_everything
            env source initial_globals Example.modes eq_refl eq_refl _).
  repeat constructor; eexists; reflexivity.
Defined.

(** X9: the stop notice is printed at most once in a run of
    [getDiagnostics], only when [failExit] is set, and only in a run that
    exits with code 1.  With [failExit] set no summary line is printed, and
    the exit code is 1 exactly when the stop notice was printed or an
    exception was logged. *)
Theorem stop_notice_and_summary_exclude_each_other {S}
    (env : Env) (source : Source) (s : S) :
  exists t code,
    getDiagnostics env source s = (t, s, Ok code) /\
    count is_stop_notice t <= 1 /\
    (count is_stop_notice t = 1 -> code = 1 /\ src_failExit source = true) /\
    (src_failExit source = true ->
     count is_summary t = 0 /\
     (code = 1 <-> count is_stop_notice t = 1 \/ count is_console_error t = 1)).
Proof.
  rewrite getDiagnostics_eq. cbv zeta.
  destruct (setupModes env (src_workspace source)) as [modes | e].
  - destruct (for_of (docs source) _ fresh_locals) as [[t l] r] eqn:Hloop.
    destruct (loop_progress _ _ _ _ _ _ _ _ _ Hloop)
      as (n & _ & _ & _ & _ & _ & Hst & Hst1 & Hst2 & _).
    destruct (loop_invariant _ _ _ _ _ _ _ _ _ Hloop) as (Hev & _).
    assert (Hce : count is_console_error t = 0)
      by (apply (count_none _ loop_event); [apply loop_event_not_console | exact Hev]).
    assert (Hsu : count is_summary t = 0)
      by (apply (count_none _ loop_event); [apply loop_event_not_summary | exact Hev]).
    specialize (Hst2 eq_refl).
    eexists _, _. split; [reflexivity|].
    destruct (src_failExit source) eqn:Hfe, r as [u | e]; around_the_loop;
      rewrite ?summary_line_not_stop_notice, ?Hce, ?Hsu; cbn [Nat.add];
      rewrite ?Nat.add_0_r.
    + split; [exact Hst|]. split.
      * intros H1. destruct (Hst1 H1) as [-> _]. now split.
      * intros _. split; [reflexivity|]. split.
        -- intros Hc. left. apply Hst2; eauto. now destruct (hasError l).
        -- intros [H1 | H1]; [|discriminate]. now destruct (Hst1 H1) as [-> _].
    + split; [exact Hst|]. split; [now split|].
      intros _. split; [reflexivity|]. split; [now right | reflexivity].
    + split; [exact Hst|]. split.
      * intros H1. now destruct (Hst1 H1).
      * discriminate.
    + split; [exact Hst|]. split.
      * intros H1. now destruct (Hst1 H1).
      * discriminate.
  - eexists _, _. split; [reflexivity|].
    destruct (src_failExit source); around_the_loop;
      rewrite ?summary_line_not_stop_notice; cbn [Nat.add].
    + split; [lia|]. split; [discriminate|]. intros _. split; [reflexivity|].
      split; [now right | reflexivity].
    + split; [lia|]. split; discriminate.
Qed.

(* ================================================================== *)
(** * [check] and [traverse], as a whole *)

Lemma count_zero_weaken (p q : Event -> bool) (t : Trace) :
  (forall e, p e = true -> q e = true) -> count q t = 0 -> count p t = 0.
Proof.
  intros Hpq. induction t as [|e t IH]; [reflexivity|].
  rewrite !count_cons. destruct (p e) eqn:Hp.
  - rewrite (Hpq e Hp). discriminate.
  - destruct (q e); [discriminate|]. exact IH.
Qed.

Lemma workspaces_app (a b : Trace) : workspaces (a ++ b) = workspaces a ++ workspaces b.
Proof.
  induction a as [|e a IH]; [reflexivity|].
  destruct e; cbn [app workspaces]; now rewrite IH.
Qed.

Lemma workspaces_none (t : Trace) : forallb loop_event t = true -> workspaces t = [].
Proof.
  induction t as [|e t IH]; [reflexivity|]. cbn [forallb]. intros H.
  apply andb_true_iff in H as [He Ht]. destruct e; try discriminate; cbn; auto.
Qed.

Lemma workspaces_reads (l : list string) : workspaces (map ReadFile l) = [].
Proof. induction l; [reflexivity | exact IHl]. Qed.

(** The producers are constructed once, for the workspace. *)
Lemma getDiagnostics_workspaces {S} (env : Env) (source : Source) (s s' : S)
    (t : Trace) (r : Result nat) :
  getDiagnostics env source s = (t, s', r) -> workspaces t = [src_workspace source].
Proof.
  rewrite getDiagnostics_eq. cbv zeta.
  destruct (setupModes env (src_workspace source)) as [modes | e].
  - destruct (for_of (docs source) _ fresh_locals) as [[t1 l] r1] eqn:Hloop.
    destruct (loop_invariant _ _ _ _ _ _ _ _ _ Hloop) as (Hev & _).
    intros H. triple H. unfold acquire_both, dispose_both, summary.
    cbn [app workspaces]. rewrite !workspaces_app, (workspaces_none t1 Hev).
    now destruct r1, (src_failExit source).
  - intros H. triple H. now destruct (src_failExit source).
Qed.

(** The candidates do not depend on the module variable as [check] leaves
    it before it calls [traverse]. *)
Lemma candidates_in_check (env : Env) (options : Options) (g : Globals) :
  candidates env (opt_srcDir options) (opt_onlyTypeScript options) (opt_files options)
    (globals_in_check options g)
  = match opt_files options with
    | _ :: _ => ([], opt_files options)
    | [] =>
        let pattern :=
          Path.join (opt_srcDir options)
            (if opt_onlyTypeScript options then js "**/*.{ts,tsx,vue}" else js "**/*.vue") in
        ([GlobSync pattern], globSync env pattern)
    end.
Proof.
  unfold candidates, globals_in_check.
  destruct (opt_files options); [|reflexivity].
  now destruct (opt_onlyTypeScript options).
Qed.

(** X10: a run of [check] does not depend on what earlier runs left in the
    module variable [validLanguages]: its trace and its result are the same
    for every value of the variable.  The run leaves [ts, tsx, vue] there
    when [onlyTypeScript] is set and does not write to it otherwise. *)
Theorem check_does_not_depend_on_earlier_runs
    (env : Env) (options : Options) (g1 g2 : Globals) :
  fst (fst (check env options g1)) = fst (fst (check env options g2)) /\
  snd (check env options g1) = snd (check env options g2) /\
  snd (fst (check env options g1))
  = (if opt_onlyTypeScript options
     then {| validLanguages := [js "ts"; js "tsx"; js "vue"] |}
     else g1).
Proof.
  rewrite !check_eq, !traverse_eq, !candidates_in_check.
  destruct (match opt_files options with [] => _ | _ :: _ => _ end) as [t0 targets].
  destruct (select env (opt_excludeDirs options) targets) as [selected | e].
  - destruct (read_records env selected) as [records | e].
    + rewrite !getDiagnostics_eq. cbv zeta.
      destruct (setupModes env _) as [modes | e].
      * destruct (for_of _ _ fresh_locals) as [[t l] r]. now cbn.
      * now cbn.
    + now cbn.
  - now cbn.
Qed.

(** The trace of [traverse]: the scan, if any, then the reads. *)
Lemma traverse_trace (env : Env) (root : string) (onlyTypeScript : bool)
    (changedFiles : list string) (excludeDirs : option (list string))
    (g g' : Globals) (t : Trace) (r : Result (list TextDocument)) :
  traverse env root onlyTypeScript changedFiles excludeDirs g = (t, g', r) ->
  exists selected,
    t = fst (candidates env root onlyTypeScript changedFiles g) ++ map ReadFile selected
    /\ (forall documents,
           r = Ok documents ->
           select env excludeDirs
             (snd (candidates env root onlyTypeScript changedFiles g)) = Ok selected).
Proof.
  rewrite traverse_eq.
  destruct (candidates env root onlyTypeScript changedFiles g) as [t0 targets].
  cbn [fst snd].
  destruct (select env excludeDirs targets) as [selected | e]; intros H; triple H.
  - exists selected. now split.
  - exists []. split; [now rewrite app_nil_r | discriminate].
Qed.

Lemma traverse_scans_once (env : Env) (root : string) (onlyTypeScript : bool)
    (changedFiles : list string) (excludeDirs : option (list string))
    (g g' : Globals) (t : Trace) (r : Result (list TextDocument)) :
  traverse env root onlyTypeScript changedFiles excludeDirs g = (t, g', r) ->
  count is_glob t <= 1.
Proof.
  intros H. apply traverse_trace in H as (selected & -> & _).
  rewrite count_app, count_reads by reflexivity.
  unfold candidates. destruct changedFiles; cbn; lia.
Qed.

(** X11: [check] touches the disk only before it validates.  The trace of a
    run is the scan and the file reads of [traverse], followed by the events
    of [getDiagnostics], among which there is no scan and no read and before
    which no document is validated; when [check] rejects, nothing follows
    the reads. *)
Theorem check_reads_before_it_validates
    (env : Env) (options : Options) (g : Globals) :
  exists t0 t1 g' r,
    check env options g = (t0 ++ t1, g', r) /\
    forallb is_file_event t0 = true /\
    count is_glob t0 <= 1 /\
    validated t0 = [] /\
    count is_file_event t1 = 0 /\
    loaded (t0 ++ t1) = loaded t0 /\
    (forall e, r = Throw e -> t1 = []).
Proof.
  rewrite check_eq.
  destruct (traverse env _ _ _ _ (globals_in_check options g))
    as [[t0 g'] [documents | e]] eqn:Htraverse.
  - destruct (getDiagnostics env (source_of options documents) g')
      as [[t1 s] r] eqn:Hdiag.
    destruct (traverse_file_events _ _ _ _ _ _ _ _ _ Htraverse) as [Hfile _].
    pose proof (getDiagnostics_no_file_events _ _ _ _ _ _ Hdiag) as Hnone.
    exists t0, t1, g', r. split; [reflexivity|]. split; [exact Hfile|].
    split; [|split; [now apply validated_files|split; [exact Hnone|split]]].
    + exact (traverse_scans_once _ _ _ _ _ _ _ _ _ Htraverse).
    + rewrite loaded_app, (loaded_none t1 Hnone). apply app_nil_r.
    + intros e ->. rewrite getDiagnostics_eq in Hdiag. cbv zeta in Hdiag.
      destruct (setupModes env _); [destruct (for_of _ _ fresh_locals) as [[? ?] ?]|];
        triple Hdiag; discriminate.
  - destruct (traverse_file_events _ _ _ _ _ _ _ _ _ Htraverse) as [Hfile _].
    exists t0, [], g', (Throw e). rewrite app_nil_r.
    split; [reflexivity|]. split; [exact Hfile|].
    split; [|split; [now apply validated_files|split; [reflexivity|split]]].
    + exact (traverse_scans_once _ _ _ _ _ _ _ _ _ Htraverse).
    + reflexivity.
    + reflexivity.
Qed.

(** X12: when no files are listed, [check] starts with one directory scan,
    and there is no other.  Its pattern is [**/*.vue], or
    [**/*.{ts,tsx,vue}] when [onlyTypeScript] is set, under [srcDir], or
    under [workspace] when [srcDir] is absent or the empty string.  The
    producers are constructed for [workspace], never for [srcDir]. *)
Theorem check_scans_srcDir_and_validates_in_workspace
    (env : Env) (options : Options) (g : Globals) :
  let root :=
    match srcDir options with
    | None => workspace options
    | Some d => if Str.eqb d [] then workspace options else d
    end in
  let pattern :=
    match onlyTypeScript options with
    | Some true => js "**/*.{ts,tsx,vue}"
    | _ => js "**/*.vue"
    end in
  files options = None \/ files options = Some [] ->
  exists rest g' r,
    check env options g = (GlobSync (Path.join root pattern) :: rest, g', r) /\
    count is_glob rest = 0 /\
    (forall w, In w (workspaces rest) -> w = workspace options).
Proof.
  intros root pattern Hfiles.
  assert (Hnone : opt_files options = [])
    by (unfold opt_files; destruct Hfiles as [-> | ->]; reflexivity).
  assert (Hpattern :
            (if opt_onlyTypeScript options then js "**/*.{ts,tsx,vue}" else js "**/*.vue")
            = pattern).
  { unfold opt_onlyTypeScript, pattern.
    now destruct (onlyTypeScript options) as [[|]|]. }
  rewrite check_eq.
  destruct (traverse env _ _ _ _ (globals_in_check options g))
    as [[t0 g'] res] eqn:Htraverse.
  destruct (traverse_trace _ _ _ _ _ _ _ _ _ Htraverse) as (selected & Ht0 & _).
  rewrite candidates_in_check, Hnone in Ht0. cbv zeta in Ht0. cbn [fst app] in Ht0.
  rewrite Hpattern in Ht0. fold root in Ht0. change (opt_srcDir options) with root in Ht0.
  destruct res as [documents | e].
  - destruct (getDiagnostics env (source_of options documents) g')
      as [[t1 s] r] eqn:Hdiag.
    exists (map ReadFile selected ++ t1), g', r. rewrite Ht0.
    split; [reflexivity|]. split.
    + rewrite count_app, count_reads by reflexivity.
      apply (count_zero_weaken is_glob is_file_event); [now intros []|].
      exact (getDiagnostics_no_file_events _ _ _ _ _ _ Hdiag).
    + rewrite workspaces_app, workspaces_reads,
        (getDiagnostics_workspaces _ _ _ _ _ _ Hdiag).
      intros w [<- | []]. reflexivity.
  - exists (map ReadFile selected), g', (Throw e). rewrite Ht0.
    split; [reflexivity|]. split.
    + now rewrite count_reads.
    + rewrite workspaces_reads. intros w [].
Qed.

Lemma check_scan_witness :
  let env := Example.env Example.fs [] (Ok Example.modes) in
  let options :=
    {| workspace := js "/w"; srcDir := Some (js "/w/src"); onlyTemplate := None;
       onlyTypeScript := Some true; excludeDir := None; failExit := None;
       files := None |} in
  exists rest g' r,
    check env options initial_globals
    = (GlobSync (js "/w/src/**/*.{ts,tsx,vue}") :: rest, g', r) /\
    count is_glob rest = 0 /\
    (forall w, In w (workspaces rest) -> w = js "/w").
Proof.
  intros env options.
  exact (check_scans_srcDir_and_validates_in_workspace
           env options initial_globals (or_introl eq_refl)).
Defined.

Lemma empty_alternative_matches_lines (target : string) :
  test (exclusion_regex [[]]) target = one_line target.
Proof.
  rewrite test_exclusion by discriminate. cbn [existsb].
  unfold matches_on_line. cbn [strip_wild].
  apply orb_false_r.
Qed.

Lemma select_nothing_excluded (env : Env) (targets : list string) :
  select env (Some []) targets
  = Ok (filter (fun target => negb (one_line target)) targets).
Proof.
  unfold select, exclude.
  assert (Hre : RegExp_new env (exclusion_pattern env [])
                = Ok (test (exclusion_regex [[]]))).
  { apply (RegExp_new_exclusion env [[]]); [discriminate|].
    now repeat constructor. }
  rewrite Hre. destruct targets as [|first others]; [reflexivity|].
  f_equal. apply filter_ext. intros target.
  now rewrite empty_alternative_matches_lines.
Qed.

(** X13: with [excludeDir] the empty array the exclusion pattern is
    [^(?:).*$], which matches every text without a line terminator.  So in
    every run the files read are the candidates with a line terminator
    (U+000A, U+000D, U+2028 or U+2029) in their path, and every other
    candidate is dropped; when no candidate has one, nothing is read and
    [traverse] returns no document. *)
Theorem empty_exclusion_list_drops_every_candidate
    (env : Env) (root : string) (onlyTypeScript : bool) (changedFiles : list string)
    (g : Globals) :
  exclusion_pattern env [] = js "^(?:).*$" /\
  (forall t g' r,
      traverse env root onlyTypeScript changedFiles (Some []) g = (t, g', r) ->
      loaded t
      = filter (fun target => negb (one_line target))
          (snd (candidates env root onlyTypeScript changedFiles g))) /\
  (Forall (fun target => one_line target = true)
     (snd (candidates env root onlyTypeScript changedFiles g)) ->
   traverse env root onlyTypeScript changedFiles (Some []) g
   = (fst (candidates env root onlyTypeScript changedFiles g), g, Ok [])).
Proof.
  split; [reflexivity|].
  pose proof (candidates_loaded env root onlyTypeScript changedFiles g) as Hnone.
  set (kept := filter (fun target => negb (one_line target))
                 (snd (candidates env root onlyTypeScript changedFiles g))).
  assert (Hrun : traverse env root onlyTypeScript changedFiles (Some []) g
                 = (fst (candidates env root onlyTypeScript changedFiles g)
                    ++ map ReadFile kept, g,
                    match read_records env kept with
                    | Ok records =>
                        Ok (map create_document
                              (if onlyTypeScript then filter keep_typescript records
                               else records))
                    | Throw e => Throw e
                    end)).
  { rewrite traverse_eq. subst kept.
    destruct (candidates env root onlyTypeScript changedFiles g) as [t0 targets].
    cbn [fst snd]. now rewrite select_nothing_excluded. }
  split.
  - intros t g' r H. rewrite Hrun in H. triple H.
    now rewrite loaded_app, loaded_reads, Hnone.
  - intros Hall.
    assert (Hdrop : kept = []).
    { subst kept.
      generalize (snd (candidates env root onlyTypeScript changedFiles g)), Hall.
      induction 1 as [|target rest Ht _ IH]; [reflexivity|].
      cbn [filter]. now rewrite Ht. }
    rewrite Hrun, Hdrop. cbn [read_records map]. rewrite app_nil_r.
    now destruct onlyTypeScript.
Qed.

(** Two candidates, one of them with a line separator in its name. *)
Lemma empty_exclusion_list_witness :
  let odd := js "/w/src/a" ++ [Str.line_separator] ++ js ".vue" in
  let env := Example.env Example.fs [js "/w/src/b.vue"; odd] (Ok Example.modes) in
  (forall t g' r,
      traverse env (js "/w") false [] (Some []) initial_globals = (t, g', r) ->
      loaded t = [odd]) /\
  traverse (Example.env Example.fs [js "/w/src/a.vue"; js "/w/src/b.vue"]
              (Ok Example.modes)) (js "/w") false [] (Some []) initial_globals
  = ([GlobSync (js "/w/**/*.vue")], initial_globals, Ok []).
Proof.
  intros odd env. split.
  - exact (proj1 (proj2 (empty_exclusion_list_drops_every_candidate
                           env (js "/w") false [] initial_globals))).
  - refine (proj2 (proj2 (empty_exclusion_list_drops_every_candidate
                            (Example.env Example.fs [js "/w/src/a.vue"; js "/w/src/b.vue"]
                               (Ok Example.modes))
                            (js "/w") false [] initial_globals)) _).
    repeat constructor.
Defined.

(** X14: the exclusion pattern is compiled for each candidate, so not at
    all when there is none: with no candidate [traverse] returns no
    document and does not throw, whatever the entries of [excludeDirs] are -
    also when they do not make a pattern. *)
Theorem no_candidate_no_pattern
    (env : Env) (root : string) (onlyTypeScript : bool) (changedFiles : list string)
    (excludeDirs : option (list string)) (g : Globals) :
  snd (candidates env root onlyTypeScript changedFiles g) = [] ->
  traverse env root onlyTypeScript changedFiles excludeDirs g
  = (fst (candidates env root onlyTypeScript changedFiles g), g, Ok []).
Proof.
  intros Hnone. rewrite traverse_eq.
  destruct (candidates env root onlyTypeScript changedFiles g) as [t0 targets].
  cbn [fst snd] in *. subst targets.
  destruct excludeDirs as [dirs|]; cbn [select exclude read_records map];
    rewrite app_nil_r; now destruct onlyTypeScript.
Qed.

Lemma no_candidate_no_pattern_witness :
  let env := Example.env Example.fs [] (Ok Example.modes) in
  RegExp.parse (exclusion_pattern env [js "src/(old"])
  = SyntaxError (js "Unterminated group") /\
  traverse env (js "/w") false [] (Some [js "src/(old"]) initial_globals
  = ([GlobSync (js "/w/**/*.vue")], initial_globals, Ok []).
Proof.
  intros env. split; [reflexivity|].
  exact (no_candidate_no_pattern env (js "/w") false [] (Some [js "src/(old"])
           initial_globals eq_refl).
Defined.

Lemma resolve_is_absolute (cwd dir : string) :
  exists rest, Path.resolve cwd dir = ch "/" :: rest.
Proof. unfold Path.resolve. eexists. reflexivity. Qed.

Lemma relative_not_matched (entry target : string) :
  Path.isAbsolute entry = true ->
  Path.isAbsolute target = false ->
  matches_on_line entry target = false.
Proof.
  unfold matches_on_line. destruct entry as [|c entry]; [discriminate|].
  cbn [Path.isAbsolute]. unfold Path.slash. intros Hc Ht. apply N.eqb_eq in Hc. subst c.
  destruct target as [|x target]; [reflexivity|].
  cbn [Path.isAbsolute] in Ht. unfold Path.slash in Ht. cbn [strip_wild].
  change (N.eqb (ch "/") (ch ".")) with false. cbv iota.
  rewrite (N.eqb_sym (ch "/") x), Ht. reflexivity.
Qed.

(** X15: every entry of [excludeDirs] is resolved to an absolute path, and
    the pattern is anchored at the start of the candidate.  So when the
    resolved entries are texts (no special character other than the dot),
    a candidate that is not an absolute path is never excluded: it is among
    the files read. *)
Theorem relative_candidates_are_never_excluded
    (env : Env) (root : string) (onlyTypeScript : bool)
    (changedFiles dirs : list string) (g g' : Globals)
    (t : Trace) (r : Result (list TextDocument)) :
  dirs <> [] ->
  Forall (fun d => dotted_text (Path.resolve (cwd env) d) = true) dirs ->
  traverse env root onlyTypeScript changedFiles (Some dirs) g = (t, g', r) ->
  forall target,
    In target (snd (candidates env root onlyTypeScript changedFiles g)) ->
    Path.isAbsolute target = false ->
    In target (loaded t).
Proof.
  intros Hdirs Htext Htraverse target Hin Hrel.
  rewrite traverse_eq in Htraverse.
  destruct (candidates env root onlyTypeScript changedFiles g) as [t0 targets].
  cbn [snd] in Hin. unfold select, exclude, exclusion_pattern in Htraverse.
  cbv zeta in Htraverse.
  rewrite RegExp_new_exclusion in Htraverse.
  - destruct targets as [|first others]; [destruct Hin|].
    triple Htraverse. rewrite loaded_app, loaded_reads. apply in_or_app. right.
    apply filter_In. split; [exact Hin|].
    rewrite test_exclusion by (destruct dirs; [congruence | discriminate]).
    apply negb_true_iff. rewrite existsb_map.
    clear - Hrel. induction dirs as [|d dirs IH]; [reflexivity|].
    cbn [existsb]. rewrite IH, orb_false_r.
    destruct (resolve_is_absolute (cwd env) d) as [rest ->].
    now apply relative_not_matched.
  - destruct dirs; [congruence | discriminate].
  - apply Forall_map. exact Htext.
Qed.

Lemma relative_candidates_witness :
  let env := Example.env [(js "src/a.vue", js "<template/>")] [] (Ok Example.modes) in
  traverse env (js "/w") false [js "src/a.vue"] (Some [js "src"]) initial_globals
  = ([ReadFile (js "src/a.vue")], initial_globals,
     Ok [Example.document (js "src/a.vue") (js "<template/>")])
  /\ In (js "src/a.vue") (loaded [ReadFile (js "src/a.vue")]).
Proof.
  intros env. split; [reflexivity|].
  refine (relative_candidates_are_never_excluded
            env (js "/w") false [js "src/a.vue"] [js "src"]
            initial_globals initial_globals _ _ _ _ eq_refl (js "src/a.vue") _ eq_refl).
  - discriminate.
  - repeat constructor.
  - now left.
Defined.

Lemma read_records_fields (env : Env) (selected : list string) :
  forall records,
    read_records env selected = Ok records ->
    Forall2 (fun path f =>
               absFilePath f = path /\
               fileExt f = extractTargetFileExtension env path /\
               readFile env path = Ok (src f))
      selected records.
Proof.
  induction selected as [|path rest IH]; intros records H.
  - cbn in H. injection H as <-. constructor.
  - cbn [read_records] in H.
    destruct (readFile env path) as [content | e] eqn:Hread; [|discriminate].
    destruct (read_records env rest) as [records' | e]; [|discriminate].
    injection H as <-. constructor; [now repeat split | now apply IH].
Qed.

Lemma Forall2_In_r {A B} (R : A -> B -> Prop) (l : list A) (l' : list B) (b : B) :
  Forall2 R l l' -> In b l' -> exists a, In a l /\ R a b.
Proof.
  induction 1 as [|x y l l' Hxy _ IH]; intros Hin; [destruct Hin|].
  destruct Hin as [<- | Hin].
  - exists x. split; [now left | exact Hxy].
  - destruct (IH Hin) as (a & Ha & HR). exists a. split; [now right | exact HR].
Qed.

(** X16: every document that [traverse] returns was created from a file it
    read: the URI is [file://] followed by the path, the language is the
    extension of the path, the version is 0 and the text is what [readFile]
    gave for that path.  Without [onlyTypeScript] there is one document for
    each file read, in the order of the reads; with it there are no more
    documents than files read. *)
Theorem documents_hold_what_was_read
    (env : Env) (root : string) (onlyTypeScript : bool) (changedFiles : list string)
    (excludeDirs : option (list string)) (g g' : Globals) (t : Trace)
    (documents : list TextDocument) :
  traverse env root onlyTypeScript changedFiles excludeDirs g = (t, g', Ok documents) ->
  Forall (fun doc =>
            exists path,
              In path (loaded t) /\
              uri doc = (js "file://" ++ path) /\
              languageId doc = extractTargetFileExtension env path /\
              version doc = 0 /\
              readFile env path = Ok (text doc))
    documents /\
  List.length documents <= List.length (loaded t) /\
  (onlyTypeScript = false ->
   map uri documents = map (app (js "file://")) (loaded t)).
Proof.
  intros H. apply traverse_ok in H as (selected & records & _ & Hrec & -> & ->).
  pose proof (read_records_fields env selected records Hrec) as Hfields.
  assert (Hall : forall f, In f records ->
                           exists path,
                             In path selected /\ absFilePath f = path /\
                             fileExt f = extractTargetFileExtension env path /\
                             readFile env path = Ok (src f))
    by (intros f Hf; exact (Forall2_In_r _ _ _ f Hfields Hf)).
  split; [|split].
  - apply Forall_forall. intros doc Hdoc. apply in_map_iff in Hdoc as (f & <- & Hf).
    assert (Hf' : In f records)
      by (destruct onlyTypeScript; [apply filter_In in Hf as [Hf _]|]; exact Hf).
    destruct (Hall f Hf') as (path & Hpath & Hp & Hext & Hread).
    exists path. cbn [create_document uri languageId version text].
    rewrite Hp. now repeat split.
  - rewrite length_map, (Forall2_length Hfields).
    destruct onlyTypeScript; [apply filter_length_le | apply le_n].
  - intros ->. rewrite map_map. cbn [create_document uri].
    clear - Hfields. induction Hfields as [|path f l l' (Hp & _) _ IH]; [reflexivity|].
    cbn [map]. now rewrite Hp, IH.
Qed.

Lemma documents_witness :
  let env := Example.env Example.fs [] (Ok Example.modes) in
  traverse env (js "/w") false [js "/w/src/b.vue"; js "/w/src/a.vue"] None initial_globals
  = ([ReadFile (js "/w/src/b.vue"); ReadFile (js "/w/src/a.vue")], initial_globals,
     Ok [Example.doc_b; Example.doc_a]) /\
  map uri [Example.doc_b; Example.doc_a]
  = map (app (js "file://")) [js "/w/src/b.vue"; js "/w/src/a.vue"].
Proof.
  intros env. split; [reflexivity|].
  exact (proj2 (proj2 (documents_hold_what_was_read
                         env (js "/w") false [js "/w/src/b.vue"; js "/w/src/a.vue"] None
                         initial_globals initial_globals
                         [ReadFile (js "/w/src/b.vue"); ReadFile (js "/w/src/a.vue")]
                         [Example.doc_b; Example.doc_a] eq_refl))
           eq_refl).
Defined.

(* ================================================================== *)
(** * Entries of [excludeDirs] that end with a slash *)

Lemma segments_not_nil (s : string) : Path.segments s <> [].
Proof.
  induction s as [|c s IH]; [discriminate|]. cbn [Path.segments].
  destruct (N.eqb c Path.slash); [discriminate|].
  now destruct (Path.segments s).
Qed.

Lemma segments_slash (s t : string) :
  Path.segments (s ++ Path.slash :: t) = Path.segments s ++ Path.segments t.
Proof.
  induction s as [|c s IH]; [reflexivity|].
  cbn [app Path.segments]. rewrite IH.
  destruct (N.eqb c Path.slash); [reflexivity|].
  pose proof (segments_not_nil s) as Hs.
  destruct (Path.segments s); [contradiction | reflexivity].
Qed.

Lemma normalizeString_trailing_slash (p : string) (allowAboveRoot : bool) :
  Path.normalizeString (p ++ js "/" ++ js "/") allowAboveRoot
  = Path.normalizeString (p ++ js "/") allowAboveRoot.
Proof.
  unfold Path.normalizeString.
  change (p ++ js "/" ++ js "/") with (p ++ Path.slash :: [Path.slash]).
  change (p ++ js "/") with (p ++ Path.slash :: []).
  rewrite !segments_slash, !fold_left_app. reflexivity.
Qed.

(** X17: an entry of [excludeDirs] with a slash at its end resolves to the
    same path as the entry without it, so it excludes exactly the same
    candidates: the slash does not restrict the exclusion to what lies
    inside the directory. *)
Theorem trailing_slash_of_an_entry_is_dropped
    (env : Env) (root : string) (onlyTypeScript : bool)
    (changedFiles dirs : list string) (g : Globals) :
  Forall (fun d => d <> []) dirs ->
  map (Path.resolve (cwd env)) (map (fun d => d ++ js "/") dirs)
  = map (Path.resolve (cwd env)) dirs /\
  traverse env root onlyTypeScript changedFiles
    (Some (map (fun d => d ++ js "/") dirs)) g
  = traverse env root onlyTypeScript changedFiles (Some dirs) g.
Proof.
  intros Hdirs.
  assert (Hmap : map (Path.resolve (cwd env)) (map (fun d => d ++ js "/") dirs)
                 = map (Path.resolve (cwd env)) dirs).
  { rewrite map_map. apply map_ext_in. intros d Hd.
    rewrite Forall_forall in Hdirs. specialize (Hdirs d Hd).
    destruct d as [|c d]; [contradiction|].
    unfold Path.resolve.
    replace (Path.isAbsolute ((c :: d) ++ js "/")) with (Path.isAbsolute (c :: d))
      by reflexivity.
    destruct (Path.isAbsolute (c :: d)); f_equal.
    - rewrite <- app_assoc. apply normalizeString_trailing_slash.
    - replace (cwd env ++ js "/" ++ ((c :: d) ++ js "/") ++ js "/")
        with ((cwd env ++ js "/" ++ c :: d) ++ js "/" ++ js "/")
        by now rewrite <- !app_assoc.
      replace (cwd env ++ js "/" ++ (c :: d) ++ js "/")
        with ((cwd env ++ js "/" ++ c :: d) ++ js "/")
        by now rewrite <- !app_assoc.
      apply normalizeString_trailing_slash. }
  split; [exact Hmap|].
  unfold traverse, exclusion_pattern. now rewrite Hmap.
Qed.

Lemma trailing_slash_witness :
  let env := Example.env Example.fs [] (Ok Example.modes) in
  map (Path.resolve (cwd env)) [js "src/foo/"; js "/w/lib/"]
  = [js "/w/src/foo"; js "/w/lib"] /\
  traverse env (js "/w") false [js "/w/src/foobar/x.vue"] (Some [js "src/foo/"]) initial_globals
  = ([], initial_globals, Ok []).
Proof.
  intros env.
  destruct (trailing_slash_of_an_entry_is_dropped
              env (js "/w") false [js "/w/src/foobar/x.vue"] [js "src/foo"; js "/w/lib"]
              initial_globals) as [Hmap _].
  { repeat constructor; discriminate. }
  split; [exact Hmap|].
  destruct (trailing_slash_of_an_entry_is_dropped
              env (js "/w") false [js "/w/src/foobar/x.vue"] [js "src/foo"]
              initial_globals) as [_ Htraverse].
  { repeat constructor; discriminate. }
  exact Htraverse.
Defined.

(* ================================================================== *)
(** * What is printed for a diagnostic *)

(** X18: the text of a line is shown without the line feed at its end:
    exactly one is removed when the text ends with one, and a text that
    does not end with a line feed is shown as it is (a carriage return
    before the line feed stays). *)
Theorem one_trailing_line_feed_is_removed (s : string) :
  Str.strip_trailing_newline (s ++ [Str.newline]) = s /\
  ((forall p, s <> (p ++ [Str.newline])) ->
   Str.strip_trailing_newline s = s).
Proof.
  split.
  - induction s as [|c s IH]; [reflexivity|].
    cbn [app Str.strip_trailing_newline]. rewrite IH.
    now destruct s.
  - induction s as [|c s IH]; intros Hno; [reflexivity|].
    cbn [Str.strip_trailing_newline]. destruct s as [|c' s].
    + destruct (N.eqb c Str.newline) eqn:Hc; [|reflexivity].
      apply N.eqb_eq in Hc. subst c. now destruct (Hno []).
    + f_equal. apply IH. intros p Hp. apply (Hno (c :: p)).
      cbn [app]. now rewrite Hp.
Qed.

Lemma one_trailing_line_feed_witness :
  let crlf := [Str.carriage_return; Str.newline] in
  Str.strip_trailing_newline (js "<p>" ++ crlf)
  = (js "<p>" ++ [Str.carriage_return])
  /\ Str.strip_trailing_newline (js "<p>") = js "<p>".
Proof.
  intros crlf. split; [reflexivity|].
  refine (proj2 (one_trailing_line_feed_is_removed (js "<p>")) _).
  intros p H. destruct p as [|a [|b [|c [|d p]]]]; discriminate H.
Defined.

(* ================================================================== *)
(** * A producer that throws, a producer that is not there *)

Section Passed.

Variable env : Env.
Variable modes : Modes.
Variables onlyTemplate failExit : bool.

(** The loop over documents it gets past, with what it has printed and
    counted when it reaches the rest. *)
Lemma loop_passed_totals (pre rest : list TextDocument) :
  Forall (passed modes onlyTemplate failExit) pre ->
  forall l,
    hasError l && failExit = false ->
    exists t0 l0,
      for_of (pre ++ rest) (check_document env modes onlyTemplate failExit) l =
      (let '(t, l', r) :=
         for_of rest (check_document env modes onlyTemplate failExit) l0 in
       (t0 ++ t, l', r)) /\
      forallb loop_event t0 = true /\
      validated t0 = pre /\
      count is_tick t0 = List.length pre /\
      count is_print_error t0 = total_diagnostics modes onlyTemplate pre /\
      totalErrors l0 = totalErrors l + total_diagnostics modes onlyTemplate pre /\
      hasError l0 && failExit = false.
Proof.
  induction 1 as [|doc pre (results & Hy & Hquiet) _ IH]; intros l Hl.
  - exists [], l. cbn [app].
    destruct (for_of rest _ l) as [[t l'] r].
    repeat (split; [reflexivity|]). split; [|exact Hl].
    unfold total_diagnostics. cbn. lia.
  - assert (Hstop : hasError (account results l) && failExit = false).
    { destruct failExit; [|apply andb_false_r].
      rewrite (Hquiet eq_refl). exact Hl. }
    destruct (IH (account results l) Hstop)
      as (t0 & l0 & Hrest & Hev & Hv & Ht & Hp & He & Hl0).
    assert (Hsum : total_diagnostics modes onlyTemplate (doc :: pre)
                   = List.length results + total_diagnostics modes onlyTemplate pre).
    { unfold total_diagnostics, diagnostics_of. cbn [map]. now rewrite Hy. }
    exists ((producer_calls modes onlyTemplate doc
             ++ flat_map (report env doc) results ++ [Tick]) ++ t0), l0.
    cbn [app]. rewrite for_of_cons, check_document_eq, Hy. cbv zeta.
    rewrite Hstop, Hrest.
    destruct (for_of rest _ l0) as [[t l'] r].
    split; [now rewrite <- !app_assoc|].
    rewrite !forallb_app, !validated_app, !count_app, producer_calls_validated,
      reports_not_validated, producer_calls_no_tick, producer_calls_print_errors,
      reports_print_errors, producer_calls_loop_events, Hev, Hv, Ht, Hp, He, Hsum,
      account_totalErrors.
    rewrite !reports_none by now intros [].
    rewrite (forallb_flat_map loop_event (report env doc) results)
      by (intros d; apply report_loop_events).
    rewrite !count_cons, !count_nil. cbn.
    repeat (split; [reflexivity || lia|]). exact Hl0.
Qed.

End Passed.

(** X20: a producer that throws on a document takes the diagnostics of
    that document with it: the loop ends there, nothing is printed or
    counted for the document - not even what the template producer had
    found before the script producer threw - and the summary counts the
    diagnostics of the documents before it only.  The exit code is 1. *)
Theorem producer_exception_discards_the_document {S}
    (env : Env) (source : Source) (s : S) (modes : Modes)
    (pre post : list TextDocument) (doc : TextDocument) (e : Error) :
  let fe := src_failExit source in
  let ot := src_onlyTemplate source in
  setupModes env (src_workspace source) = Ok modes ->
  docs source = pre ++ doc :: post ->
  Forall (passed modes ot fe) pre ->
  yields modes ot doc = Throw e ->
  exists t0,
    getDiagnostics env source s
    = (t0 ++ [ConsoleError e] ++ dispose_both
       ++ summary fe (total_diagnostics modes ot pre) (List.length (docs source)),
       s, Ok 1) /\
    validated t0 = pre ++ [doc] /\
    count is_tick t0 = List.length pre /\
    count is_print_error t0 = total_diagnostics modes ot pre.
Proof.
  intros fe ot Hsetup Hdocs Hpre Hthrow.
  rewrite getDiagnostics_eq. cbv zeta. rewrite Hsetup, Hdocs.
  destruct (loop_passed_totals env modes ot fe pre (doc :: post) Hpre fresh_locals
              eq_refl) as (t0 & l0 & Hloop & Hev & Hv & Ht & Hp & He & _).
  rewrite (loop_throws env modes ot fe doc post e l0 Hthrow) in Hloop.
  fold fe ot. rewrite Hloop, He. cbn [totalErrors fresh_locals Nat.add].
  exists (acquire_both
          ++ [SetupModes (src_workspace source);
              NewProgressBar (List.length (pre ++ doc :: post))]
          ++ t0 ++ producer_calls modes ot doc).
  split; [now rewrite <- !app_assoc|].
  around_the_loop.
  rewrite Hv, Ht, Hp, producer_calls_validated, producer_calls_no_tick,
    producer_calls_print_errors.
  cbn. now rewrite !Nat.add_0_r.
Qed.

Lemma producer_exception_witness :
  let modes :=
    {| vueMode_doValidation := fun _ => Ok [Example.diagnostic_at 0 0 (js "unknown property")];
       scriptMode_doValidation :=
         Some (fun _ => Throw (ExternalError (js "script failed"))) |} in
  let env := Example.env Example.fs [] (Ok modes) in
  let source := Example.source false [Example.doc_a; Example.doc_b] in
  vueMode_doValidation modes Example.doc_a
  = Ok [Example.diagnostic_at 0 0 (js "unknown property")] /\
  exists t0,
    getDiagnostics env source initial_globals
    = (t0 ++ [ConsoleError (ExternalError (js "script failed"))] ++ dispose_both
       ++ [PrintMessage (js "Found: 0 errors in 2 file(s)")], initial_globals, Ok 1) /\
    validated t0 = [Example.doc_a] /\
    count is_tick t0 = 0 /\
    count is_print_error t0 = 0.
Proof.
  intros modes env source. split; [reflexivity|].
  exact (producer_exception_discards_the_document
           env source initial_globals modes [] [Example.doc_b] Example.doc_a
           (ExternalError (js "script failed")) eq_refl eq_refl (Forall_nil _) eq_refl).
Defined.

Lemma for_of_ext {S A} (body body' : A -> M S bool) (l : list A) :
  (forall a s, body a s = body' a s) ->
  forall s, for_of l body s = for_of l body' s.
Proof.
  intros Hext. induction l as [|a l IH]; intros s; [reflexivity|].
  cbn [for_of]. unfold bind. rewrite Hext.
  destruct (body' a s) as [[t s'] [[|] | e]]; try reflexivity.
  now rewrite IH.
Qed.

(** X21: when the script producer has no [doValidation], a run of
    [getDiagnostics] is the run with [onlyTemplate] set: the same events,
    the same exit code. *)
Theorem missing_script_validation_is_onlyTemplate {S}
    (env : Env) (source : Source) (s : S) (modes : Modes) :
  setupModes env (src_workspace source) = Ok modes ->
  scriptMode_doValidation modes = None ->
  getDiagnostics env source s
  = getDiagnostics env
      {| docs := docs source; src_workspace := src_workspace source;
         src_onlyTemplate := true; src_failExit := src_failExit source |} s.
Proof.
  intros Hsetup Hnone. rewrite !getDiagnostics_eq. cbv zeta.
  cbn [docs src_workspace src_onlyTemplate src_failExit]. rewrite Hsetup.
  rewrite (for_of_ext
             (check_document env modes (src_onlyTemplate source) (src_failExit source))
             (check_document env modes true (src_failExit source))).
  - reflexivity.
  - intros doc l. rewrite !check_document_eq. unfold yields, producer_calls, asks_script.
    rewrite Hnone. destruct (vueMode_doValidation modes doc); [|reflexivity].
    now destruct (src_onlyTemplate source).
Qed.

Lemma missing_script_validation_witness :
  let modes :=
    {| vueMode_doValidation := vueMode_doValidation Example.modes;
       scriptMode_doValidation := None |} in
  let env := Example.env Example.fs [] (Ok modes) in
  getDiagnostics env (Example.source false [Example.doc_a; Example.doc_b]) initial_globals
  = getDiagnostics env
      {| docs := [Example.doc_a; Example.doc_b]; src_workspace := js "/w";
         src_onlyTemplate := true; src_failExit := false |} initial_globals.
Proof.
  intros modes env.
  exact (missing_script_validation_is_onlyTemplate
           env (Example.source false [Example.doc_a; Example.doc_b]) initial_globals
           modes eq_refl eq_refl).
Defined.
